(** * Linker: hardlink deployment engine and browser state machine

    A shallow embedding of [core.py], [permissions_helper.py],
    [link_index.py] and the command handlers of [tui_browser.py], over an
    executable model of the file system calls they make. *)

From Stdlib Require Import ZArith Lia Ascii.
From stdpp Require Import base option list strings gmap pretty sorting.


(** ** Paths

    A [pathlib.Path] is kept as its list of components, last component
    first, so that [Path.parent] is the tail of the list and the root
    directory is the empty list.  [Path.of_parts] builds a path from its
    components in reading order. *)

Abbreviation path := (list string).

Module Path.

Definition of_parts (parts : list string) : path := reverse parts.

(** [Path.parent]; the root is its own parent. *)
Definition parent (p : path) : path := tail p.

(** [Path.name]; empty for the root. *)
Definition name (p : path) : string :=
  match p with
  | [] => ""
  | n :: _ => n
  end.

(** [p / n] for a single component [n]; joining the empty string gives
    [p] back. *)
Definition join (p : path) (n : string) : path :=
  if decide (n = "") then p else n :: p.

(** [str(p)] of an absolute path. *)
Definition str (p : path) : string :=
  "/" +:+ String.concat "/" (reverse p).

(** [name.rfind('.')] *)
Fixpoint rfind_dot (s : string) : option nat :=
  match s with
  | EmptyString => None
  | String c s' =>
      match rfind_dot s' with
      | Some i => Some (S i)
      | None => if Ascii.eqb c "."%char then Some 0 else None
      end
  end.

(** [Path.suffix]: the last dot and what follows it, unless that dot
    starts or ends the name ([0 < i < len(name) - 1]). *)
Definition suffix (p : path) : string :=
  let n := name p in
  match rfind_dot n with
  | Some i =>
      if (0 <? i) && (i <? String.length n - 1)
      then String.substring i (String.length n - i) n
      else ""
  | None => ""
  end.

(** [Path.stem]: the name without its suffix. *)
Definition stem (p : path) : string :=
  let n := name p in
  match rfind_dot n with
  | Some i =>
      if (0 <? i) && (i <? String.length n - 1)
      then String.substring 0 i n
      else n
  | None => n
  end.

(** [root.relative_to(source)] for a [root] that lies under [source]:
    the components [root] has beyond those of [source]. *)
Definition relative_to (root source : path) : path :=
  take (length root - length source) root.

(** [base / rel] for a relative path [rel]. *)
Definition join_rel (base rel : path) : path := rel ++ base.

End Path.

Infix "//" := Path.join (at level 40, left associativity).

(** ** File system

    The tree is a finite map from absolute paths to nodes.  A regular file
    carries its inode number: two entries with the same inode are hard
    links of each other.  Looking a path up walks it from the root and
    requires every component before the last to be a directory; a link in
    last position is followed by [stat] and left alone by [lstat].

    The calls fail for the reasons the tree itself gives (a missing or
    wrong kind of entry, a taken name, a path that is too long).  What
    lies outside the tree is outside the model: there is one volume, no
    access rights stand in the way, and a symbolic link met before the
    last component is not traversed, which is how the program uses paths
    (the browser resolves its current directory and its selection, and
    the walk does not enter linked directories).

    Nor does the tree know how long a name may be.  A system call given
    a name of more than [NAME_MAX] bytes, or a path of [PATH_MAX] bytes
    or more, fails with [ENAMETOOLONG], which [Path.exists()] and its
    like do not swallow: they raise.  The calls below are those of a
    run in which no path handed to the system is that long; the
    properties that probe a name which is not in the tree yet say so
    with [fits], and with [within_limits] for the tree they start
    from. *)

Module Fs.

Inductive node :=
  | File (ino : nat)
  | Dir
  | Symlink (target : path).

#[global] Instance node_eq_dec : EqDecision node.
Proof. solve_decision. Defined.

Inductive errno :=
  | ENOENT | ENOTDIR | EEXIST | EISDIR | ENOTEMPTY
  | ELOOP | ENAMETOOLONG | EPERM | EBUSY | EINVAL.

#[global] Instance errno_eq_dec : EqDecision errno.
Proof. solve_decision. Defined.

Inductive res (A : Type) :=
  | Ok (a : A)
  | Err (e : errno).
Arguments Ok {A} a.
Arguments Err {A} e.

(** Ownership and mode are attributes of the inode, so hard links share
    them; directories are identified by their path. *)
Inductive obj :=
  | ObjFile (ino : nat)
  | ObjDir (p : path).

#[global] Instance obj_eq_dec : EqDecision obj.
Proof. solve_decision. Defined.

#[global] Instance obj_countable : Countable obj.
Proof.
  refine (inj_countable'
    (λ o, match o with ObjFile i => inl i | ObjDir p => inr p end)
    (λ s, match s with inl i => ObjFile i | inr p => ObjDir p end) _).
  by intros [].
Defined.

Record filesystem := {
  tree : gmap path node;
  owner : gmap obj (nat * nat);
  mode : gmap obj nat
}.

Definition with_tree (fs : filesystem) (t : gmap path node) : filesystem :=
  {| tree := t; owner := owner fs; mode := mode fs |}.

(** What the platform answers: the longest path (in components) a system
    call accepts, the account databases, and Python's [int(s, 8)]. *)
Record platform := {
  path_max : nat;
  getpwnam : string → option nat;
  getgrnam : string → option nat;
  int8 : string → option nat
}.

(** Linux follows at most 40 links in one lookup. *)
Definition MAXSYMLINKS : nat := 40.

Fixpoint lstat (fs : filesystem) (p : path) : res node :=
  match p with
  | [] => Ok Dir
  | _ :: par =>
      match lstat fs par with
      | Ok Dir =>
          match tree fs !! p with
          | Some nd => Ok nd
          | None => Err ENOENT
          end
      | Ok _ => Err ENOTDIR
      | Err e => Err e
      end
  end.

(** Follow the links in last position; the answer is the place reached
    and the node there. *)
Fixpoint follow (hops : nat) (fs : filesystem) (p : path) : res (path * node) :=
  match lstat fs p with
  | Ok (Symlink t) =>
      match hops with
      | 0 => Err ELOOP
      | S h => follow h fs t
      end
  | Ok nd => Ok (p, nd)
  | Err e => Err e
  end.

Definition stat (fs : filesystem) (p : path) : res node :=
  match follow MAXSYMLINKS fs p with
  | Ok (_, nd) => Ok nd
  | Err e => Err e
  end.

(** [Path.exists()], [Path.is_dir()], [Path.is_file()], [Path.is_symlink()] *)
Definition exists_ (fs : filesystem) (p : path) : bool :=
  match stat fs p with Ok _ => true | Err _ => false end.

Definition is_dir (fs : filesystem) (p : path) : bool :=
  match stat fs p with Ok Dir => true | _ => false end.

Definition is_file (fs : filesystem) (p : path) : bool :=
  match stat fs p with Ok (File _) => true | _ => false end.

Definition is_symlink (fs : filesystem) (p : path) : bool :=
  match lstat fs p with Ok (Symlink _) => true | _ => false end.

(** [Path.resolve()], not strict: the place the links in last position
    lead to, whether or not anything is there. *)
Fixpoint resolve_from (hops : nat) (fs : filesystem) (p : path) : path :=
  match lstat fs p with
  | Ok (Symlink t) =>
      match hops with
      | 0 => p
      | S h => resolve_from h fs t
      end
  | _ => p
  end.

Definition resolve (fs : filesystem) (p : path) : path :=
  resolve_from MAXSYMLINKS fs p.

(** Names bound directly under the directory stored at [d]. *)
Definition name_under (d : path) (k : path) : option string :=
  match k with
  | n :: par => if decide (par = d) then Some n else None
  | [] => None
  end.

Definition child_names (fs : filesystem) (d : path) : list string :=
  omap (name_under d) (map_to_list (tree fs)).*1.

(** [os.scandir], [os.listdir]: the place the directory is stored at and
    the names in it.  A path longer than [path_max] is refused. *)
Definition listdir (pf : platform) (fs : filesystem) (p : path)
  : res (path * list string) :=
  if path_max pf <? length p then Err ENAMETOOLONG
  else match follow MAXSYMLINKS fs p with
       | Ok (d, Dir) => Ok (d, child_names fs d)
       | Ok _ => Err ENOTDIR
       | Err e => Err e
       end.

(** [Path.iterdir()]: the entries, named under the path that was asked
    for. *)
Definition iterdir (pf : platform) (fs : filesystem) (p : path) : res (list path) :=
  match listdir pf fs p with
  | Ok (_, names) => Ok ((λ n, n :: p) <$> names)
  | Err e => Err e
  end.

(** [st_nlink]: for a file, the number of names its inode has. *)
Definition inode_links (fs : filesystem) (i : nat) : nat :=
  size (filter (λ kv : path * node, kv.2 = File i) (tree fs)).

Definition st_nlink (fs : filesystem) (p : path) : res nat :=
  match follow MAXSYMLINKS fs p with
  | Ok (_, File i) => Ok (inode_links fs i)
  | Ok (d, Dir) =>
      Ok (2 + length (filter (λ n, tree fs !! (n :: d) = Some Dir)
                             (child_names fs d)))
  | Ok (_, Symlink _) => Err ELOOP
  | Err e => Err e
  end.

(** [os.unlink] *)
Definition os_unlink (fs : filesystem) (p : path) : res filesystem :=
  match lstat fs p with
  | Ok Dir => Err EISDIR
  | Ok _ => Ok (with_tree fs (delete p (tree fs)))
  | Err e => Err e
  end.

(** [os.rmdir] *)
Definition os_rmdir (fs : filesystem) (p : path) : res filesystem :=
  match p with
  | [] => Err EBUSY
  | _ =>
      match lstat fs p with
      | Ok Dir =>
          match child_names fs p with
          | [] => Ok (with_tree fs (delete p (tree fs)))
          | _ => Err ENOTEMPTY
          end
      | Ok _ => Err ENOTDIR
      | Err e => Err e
      end
  end.

(** [shutil.rmtree]: the directory and everything below it; refuses a
    symbolic link. *)
Definition rmtree (fs : filesystem) (p : path) : res filesystem :=
  match p with
  | [] => Err EBUSY
  | _ =>
      match lstat fs p with
      | Ok Dir =>
          Ok (with_tree fs
                (filter (λ kv : path * node, ¬ p `suffix_of` kv.1) (tree fs)))
      | Ok (Symlink _) => Err EINVAL
      | Ok (File _) => Err ENOTDIR
      | Err e => Err e
      end
  end.

(** Where a new entry [p] may be bound: the path is short enough, its
    parent is a directory and the name is free. *)
Definition creatable (pf : platform) (fs : filesystem) (p : path) : res unit :=
  if path_max pf <? length p then Err ENAMETOOLONG
  else match p with
       | [] => Err EEXIST
       | _ :: par =>
           match lstat fs par with
           | Ok Dir =>
               match tree fs !! p with
               | Some _ => Err EEXIST
               | None => Ok ()
               end
           | Ok _ => Err ENOTDIR
           | Err e => Err e
           end
       end.

(** [os.mkdir] *)
Definition os_mkdir (pf : platform) (fs : filesystem) (p : path) : res filesystem :=
  match creatable pf fs p with
  | Ok _ => Ok (with_tree fs (<[p := Dir]> (tree fs)))
  | Err e => Err e
  end.

(** [os.link(src, dst)]: a second name for what [src] names ([link(2)]
    does not follow a link at [src], and refuses a directory). *)
Definition os_link (pf : platform) (fs : filesystem) (src dst : path) : res filesystem :=
  match lstat fs src with
  | Ok Dir => Err EPERM
  | Ok nd =>
      match creatable pf fs dst with
      | Ok _ => Ok (with_tree fs (<[dst := nd]> (tree fs)))
      | Err e => Err e
      end
  | Err e => Err e
  end.

(** [Path.mkdir(parents=False, exist_ok=True)]: an [OSError] other than
    [FileNotFoundError] is forgiven when the path is a directory. *)
Definition mkdir_exist_ok (pf : platform) (fs : filesystem) (p : path) : filesystem * bool :=
  match os_mkdir pf fs p with
  | Ok fs' => (fs', true)
  | Err ENOENT => (fs, false)
  | Err _ => (fs, is_dir fs p)
  end.

(** [Path.mkdir(parents=True, exist_ok=True)]: on [FileNotFoundError]
    the parent is made first, then the directory itself.  The boolean
    is [false] when the call raises. *)
Fixpoint mkdir_parents (pf : platform) (fs : filesystem) (p : path) : filesystem * bool :=
  match os_mkdir pf fs p with
  | Ok fs' => (fs', true)
  | Err ENOENT =>
      match p with
      | [] => (fs, false)
      | _ :: par =>
          let '(fs1, ok) := mkdir_parents pf fs par in
          if ok then mkdir_exist_ok pf fs1 p else (fs1, false)
      end
  | Err _ => (fs, is_dir fs p)
  end.

(** [os.chown] and [os.chmod] act on what the path leads to. *)
Definition obj_of (fs : filesystem) (p : path) : res obj :=
  match follow MAXSYMLINKS fs p with
  | Ok (_, File i) => Ok (ObjFile i)
  | Ok (d, Dir) => Ok (ObjDir d)
  | Ok (_, Symlink _) => Err ELOOP
  | Err e => Err e
  end.

Definition os_chown (fs : filesystem) (p : path) (uid gid : nat) : res filesystem :=
  match obj_of fs p with
  | Ok o => Ok {| tree := tree fs; owner := <[o := (uid, gid)]> (owner fs); mode := mode fs |}
  | Err e => Err e
  end.

Definition os_chmod (fs : filesystem) (p : path) (m : nat) : res filesystem :=
  match obj_of fs p with
  | Ok o => Ok {| tree := tree fs; owner := owner fs; mode := <[o := m]> (mode fs) |}
  | Err e => Err e
  end.

(** Every entry of the tree hangs under a directory. *)
Definition wf (fs : filesystem) : Prop :=
  map_Forall (λ (p : path) (_ : node),
                match p with
                | [] => False
                | _ :: par => par = [] ∨ tree fs !! par = Some Dir
                end) (tree fs).

(** The same, as a test that can be run. *)
Definition wf_check (fs : filesystem) : bool :=
  forallb (λ kv : path * node,
             match kv.1 with
             | [] => false
             | _ :: par => bool_decide (par = []) || bool_decide (tree fs !! par = Some Dir)
             end)
          (map_to_list (tree fs)).

(** *** Names and renaming *)

(** ['/' in s] *)
Fixpoint has_slash (s : string) : bool :=
  match s with
  | EmptyString => false
  | String c s' => Ascii.eqb c "/"%char || has_slash s'
  end.

(** A file name as the system calls take it, one component of a path:
    not empty, without a slash, and not one of the two dot entries. *)
Definition is_component (n : string) : bool :=
  negb (String.eqb n "") && negb (String.eqb n ".") && negb (String.eqb n "..")
  && negb (has_slash n).

(** [k] with its trailing [src] replaced by [dst]. *)
Definition retarget (src dst k : path) : path :=
  take (length k - length src) k ++ dst.

(** Where a path is after [rename(src, dst)]: what was under [src] is
    under [dst], and what was under [dst] is gone. *)
Definition moved_key (src dst k : path) : option path :=
  if decide (src `suffix_of` k) then Some (retarget src dst k)
  else if decide (dst `suffix_of` k) then None
  else Some k.

(** The same for what carries ownership: a directory goes by its path,
    a file by its inode. *)
Definition moved_obj (src dst : path) (o : obj) : option obj :=
  match o with
  | ObjFile _ => Some o
  | ObjDir p => ObjDir <$> moved_key src dst p
  end.

(** A map with each key sent where [f] says, or dropped. *)
Definition rekey {K} `{Countable K} {V} (f : K → option K) (m : gmap K V) : gmap K V :=
  list_to_map (omap (λ kv : K * V, (λ k, (k, kv.2)) <$> f kv.1) (map_to_list m)).

Definition moved (fs : filesystem) (src dst : path) : filesystem :=
  {| tree := rekey (moved_key src dst) (tree fs);
     owner := rekey (moved_obj src dst) (owner fs);
     mode := rekey (moved_obj src dst) (mode fs) |}.

(** [os.rename(src, dst)] as [rename(2)] does it: a name may replace a
    name that is not a directory, a directory may replace an empty
    directory, nothing moves into itself, and two names of one file are
    left as they are. *)
Definition os_rename (pf : platform) (fs : filesystem) (src dst : path) : res filesystem :=
  match src, dst with
  | [], _ | _, [] => Err EBUSY
  | _, _ :: par =>
      match lstat fs src with
      | Err e => Err e
      | Ok nd =>
          if path_max pf <? length dst then Err ENAMETOOLONG
          else match lstat fs par with
               | Err e => Err e
               | Ok Dir =>
                   if decide (src `suffix_of` par) then Err EINVAL
                   else match tree fs !! dst with
                        | None => Ok (moved fs src dst)
                        | Some nd' =>
                            if decide (src = dst) then Ok fs
                            else match nd, nd' with
                                 | File i, File j =>
                                     if decide (i = j) then Ok fs
                                     else Ok (moved fs src dst)
                                 | Dir, Dir =>
                                     match child_names fs dst with
                                     | [] => Ok (moved fs src dst)
                                     | _ => Err ENOTEMPTY
                                     end
                                 | Dir, _ => Err ENOTDIR
                                 | _, Dir => Err EISDIR
                                 | _, _ => Ok (moved fs src dst)
                                 end
                        end
               | Ok _ => Err ENOTDIR
               end
      end
  end.

(** The limits of Linux on the bytes of a name and of a whole path (the
    latter counts the terminating zero). *)
Definition NAME_MAX : nat := 255.

Definition PATH_MAX : nat := 4096.

(** A path the system calls take without [ENAMETOOLONG]. *)
Definition fits (p : path) : bool :=
  forallb (λ n, String.length n <=? NAME_MAX) p
  && (String.length (Path.str p) <? PATH_MAX).

(** A tree a file system can hold: every path in it fits, and so does
    what every symbolic link in it points to. *)
Definition within_limits (fs : filesystem) : Prop :=
  map_Forall (λ (p : path) (nd : node),
                fits p = true ∧
                match nd with Symlink t => fits t = true | _ => True end) (tree fs).

(** The same, as a test that can be run. *)
Definition within_limits_check (fs : filesystem) : bool :=
  forallb (λ kv : path * node,
             fits kv.1 && match kv.2 with Symlink t => fits t | _ => true end)
          (map_to_list (tree fs)).

(** A test that can be run: the subtree under [source] holds files and
    directories only, and neither it nor its copy under [target] has a
    path longer than the platform or the system accepts. *)
Definition plain_subtree (pf : platform) (fs : filesystem) (source target : path) : bool :=
  forallb (λ kv : path * node,
             if decide (source `suffix_of` kv.1) then
               match kv.2 with Symlink _ => false | _ => true end
               && (length kv.1 <=? path_max pf)
               && (length (retarget source target kv.1) <=? path_max pf)
               && fits (retarget source target kv.1)
             else true)
          (map_to_list (tree fs)).

End Fs.

(** ** permissions_helper.py *)

Module Permissions.
Import Fs.

(** One application of the policy document.  The three attributes are
    read with [app_info["user"]] and so on, which raises [KeyError] when
    the key is absent. *)
Record app_info := {
  paths : list string;
  user : option string;
  group : option string;
  permissions : option string
}.

(** [config["global"]["permissions"]]: the mounts in the order of the
    document, each with its applications in order. *)
Abbreviation applications := (list (string * app_info)).
Abbreviation policy := (list (string * applications)).

Record rule := {
  rule_user : string;
  rule_group : string;
  rule_permissions : string
}.

(** The dictionary the lookup returns; [None] stands for the [KeyError]. *)
Definition rule_of (a : app_info) : option rule :=
  u ← user a; g ← group a; m ← permissions a;
  Some {| rule_user := u; rule_group := g; rule_permissions := m |}.

(** [s.startswith(pre)] *)
Definition startswith (s pre : string) : bool := String.prefix pre s.

(** The innermost loop, over the path prefixes of one application.  An
    exception raised while building the answer is logged and the loop
    goes on with the next prefix. *)
Fixpoint match_paths (dest : string) (a : app_info) (ps : list string) : option rule :=
  match ps with
  | [] => None
  | app_path :: ps' =>
      if startswith dest app_path then
        match rule_of a with
        | Some r => Some r
        | None => match_paths dest a ps'
        end
      else match_paths dest a ps'
  end.

Fixpoint match_apps (dest : string) (apps : applications) : option rule :=
  match apps with
  | [] => None
  | (_, a) :: apps' =>
      match match_paths dest a (paths a) with
      | Some r => Some r
      | None => match_apps dest apps'
      end
  end.

Fixpoint match_mounts (dest : string) (mounts : policy) : option rule :=
  match mounts with
  | [] => None
  | (_, apps) :: mounts' =>
      match match_apps dest apps with
      | Some r => Some r
      | None => match_mounts dest mounts'
      end
  end.

(** The path prefixes of the whole document in the order the three
    loops meet them, each with its application. *)
Definition rule_entries (mounts : policy) : list (string * app_info) :=
  mounts ≫= λ m, m.2 ≫= λ a, (λ app_path, (app_path, a.2)) <$> paths a.2.

(** What one prefix of the document answers for [dest]. *)
Definition answer_at (dest : string) (e : string * app_info) : option rule :=
  if startswith dest e.1 then rule_of e.2 else None.

(** [config] is what [load_homeserver_config()] returns: [None] when the
    document could not be loaded. *)
Definition get_app_permissions_for_path (config : option policy) (dest_path : path)
  : option rule :=
  match config with
  | None => None
  | Some mounts => match_mounts (Path.str dest_path) mounts
  end.

(** Best effort: whatever fails, the caller sees nothing of it. *)
Definition set_file_ownership_and_permissions
    (pf : platform) (fs : filesystem) (p : path) (r : rule) : filesystem :=
  match getpwnam pf (rule_user r) with
  | None => fs
  | Some uid =>
      match getgrnam pf (rule_group r) with
      | None => fs
      | Some gid =>
          match os_chown fs p uid gid with
          | Err _ => fs
          | Ok fs1 =>
              match int8 pf (rule_permissions r) with
              | None => fs1
              | Some m =>
                  match os_chmod fs1 p m with
                  | Err _ => fs1
                  | Ok fs2 => fs2
                  end
              end
          end
      end
  end.

End Permissions.

(** The surroundings of a run: the platform and the loaded policy. *)
Record Env := {
  plat : Fs.platform;
  config : option Permissions.policy
}.

(** ** core.py *)

Module Core.
Import Fs Permissions.

(** [perms = get_app_permissions_for_path(p); if perms: set_...(p, ...)] *)
Definition apply_permissions (env : Env) (fs : filesystem) (p : path) : filesystem :=
  match get_app_permissions_for_path (config env) p with
  | Some r => set_file_ownership_and_permissions (plat env) fs p r
  | None => fs
  end.

(** [p.exists() or p.is_symlink()] *)
Definition present (fs : filesystem) (p : path) : bool :=
  exists_ fs p || is_symlink fs p.

(** [f"{original_stem} ({counter}){original_suffix}"] *)
Definition renamed (original_stem original_suffix : string) (counter : nat) : string :=
  original_stem +:+ " (" +:+ pretty counter +:+ ")" +:+ original_suffix.

(** The renaming loop of a file source (lines 163-172).  [None] is the
    [return False] of the safety break; [rename_fuel] turns of the loop
    are enough for it to end one way or the other. *)
Fixpoint find_name (fuel : nat) (fs : filesystem) (destination_dir : path)
    (original_stem original_suffix : string) (link_path : path) (counter : nat)
  : option path :=
  if present fs link_path then
    match fuel with
    | 0 => None
    | S fuel' =>
        let link_name := renamed original_stem original_suffix counter in
        let link_path := destination_dir // link_name in
        let counter := S counter in
        if 999 <? counter then None
        else find_name fuel' fs destination_dir original_stem original_suffix
                       link_path counter
    end
  else Some link_path.

Definition rename_fuel : nat := 999.

(** The renaming loop inside the directory walk (lines 114-124).  Its
    [continue] belongs to the [while], so past the cap the loop goes on
    probing with [all_success] cleared and still ends at the first free
    name.  It cannot meet more taken names than the tree has entries. *)
Fixpoint walk_find_name (fuel : nat) (fs : filesystem) (dest_root : path)
    (original_stem original_suffix : string) (dest_file : path) (counter : nat)
    (all_success : bool) : path * bool :=
  if present fs dest_file then
    match fuel with
    | 0 => (dest_file, all_success)
    | S fuel' =>
        let new_name := renamed original_stem original_suffix counter in
        let dest_file := dest_root // new_name in
        let counter := S counter in
        let all_success := if 999 <? counter then false else all_success in
        walk_find_name fuel' fs dest_root original_stem original_suffix
                       dest_file counter all_success
    end
  else (dest_file, all_success).

Definition walk_rename_fuel (fs : filesystem) : nat := 1000 + size (tree fs).

(** Removal under [overwrite]: a real directory goes with its content,
    anything else is unlinked. *)
Definition remove_existing (fs : filesystem) (p : path) : res filesystem :=
  if is_dir fs p && negb (is_symlink fs p) then rmtree fs p else os_unlink fs p.

(** What the conflict handling of one file of the walk decides. *)
Inductive file_plan :=
  | Continue (st : filesystem * bool)
  | LinkAt (fs : filesystem) (dest_file : path) (all_success : bool).

Definition plan_file (conflict_strategy : string) (dest_root : path) (file : string)
    (st : filesystem * bool) : file_plan :=
  let '(fs, all_success) := st in
  let dest_file := file :: dest_root in
  if present fs dest_file then
    if decide (conflict_strategy = "fail") then Continue (fs, false)
    else if decide (conflict_strategy = "skip") then Continue (fs, all_success)
    else if decide (conflict_strategy = "overwrite") then
      match remove_existing fs dest_file with
      | Ok fs' => LinkAt fs' dest_file all_success
      | Err _ => Continue (fs, false)
      end
    else if decide (conflict_strategy = "rename") then
      let '(dest_file, all_success) :=
        walk_find_name (walk_rename_fuel fs) fs dest_root
                       (Path.stem dest_file) (Path.suffix dest_file)
                       dest_file 1 all_success in
      LinkAt fs dest_file all_success
    else LinkAt fs dest_file all_success
  else LinkAt fs dest_file all_success.

(** The body of [for file in files] (lines 92-134).  A name read from a
    listing is one component, and joining it is consing it. *)
Definition link_file (env : Env) (conflict_strategy : string) (root dest_root : path)
    (st : filesystem * bool) (file : string) : filesystem * bool :=
  let src_file := file :: root in
  match plan_file conflict_strategy dest_root file st with
  | Continue st' => st'
  | LinkAt fs dest_file all_success =>
      match os_link (plat env) fs src_file dest_file with
      | Ok fs1 => (apply_permissions env fs1 dest_file, all_success)
      | Err _ => (fs, false)
      end
  end.

(** [rel_root = Path(root).relative_to(source)] and
    [dest_root = target_dir_path / rel_root] (lines 78-79). *)
Definition dest_root_of (source target_dir_path root : path) : path :=
  let rel_root := Path.relative_to root source in
  Path.join_rel target_dir_path rel_root.

(** The body of the walk for one [(root, dirs, files)] (lines 78-134). *)
Definition visit (env : Env) (conflict_strategy : string) (source target_dir_path : path)
    (root : path) (files : list string) (st : filesystem * bool) : filesystem * bool :=
  let '(fs, all_success) := st in
  let dest_root := dest_root_of source target_dir_path root in
  match mkdir_parents (plat env) fs dest_root with
  | (fs1, true) =>
      foldl (link_file env conflict_strategy root dest_root)
            (apply_permissions env fs1 dest_root, all_success) files
  | (fs1, false) => (fs1, false)
  end.

(** [os.scandir(top)] as [os.walk] reads it: the names of the
    directories (links to directories among them) and of everything
    else. *)
Definition scandir (pf : platform) (fs : filesystem) (top : path)
  : res (list string * list string) :=
  match listdir pf fs top with
  | Ok (_, names) =>
      Ok (filter (λ n, is_dir fs (n :: top) = true) names,
          filter (λ n, is_dir fs (n :: top) ≠ true) names)
  | Err e => Err e
  end.

(** The descent of [os.walk] into the directories listed for [top]:
    links to directories are listed but not entered. *)
Definition descend (walk_from : path → filesystem * bool → filesystem * bool)
    (top : path) (st : filesystem * bool) (dirs : list string) : filesystem * bool :=
  foldl (λ st dirname,
           let new_path := dirname :: top in
           if is_symlink st.1 new_path then st else walk_from new_path st)
        st dirs.

(** [os.walk(top)], top down, with the loop body run at each yield.  A
    directory that cannot be read is passed over in silence.  [depth]
    bounds the nesting: [listdir] refuses a path longer than
    [path_max]. *)
Fixpoint walk (depth : nat) (env : Env) (conflict_strategy : string)
    (source target_dir_path : path) (top : path) (st : filesystem * bool)
  : filesystem * bool :=
  match depth with
  | 0 => st
  | S depth' =>
      match scandir (plat env) st.1 top with
      | Err _ => st
      | Ok (dirs, files) =>
          descend (walk depth' env conflict_strategy source target_dir_path) top
                  (visit env conflict_strategy source target_dir_path top files st)
                  dirs
      end
  end.

Definition walk_depth (pf : platform) (source : path) : nat :=
  S (path_max pf) - length source.

(** What the conflict handling at the top of a directory source
    decides (lines 48-74). *)
Definition top_level_conflict (fs : filesystem) (target_dir_path : path)
    (conflict_strategy : string) : filesystem * bool + filesystem :=
  if exists_ fs target_dir_path then
    let effective_dir_conflict_strategy :=
      if decide (conflict_strategy = "rename") then "fail" else conflict_strategy in
    if decide (effective_dir_conflict_strategy = "fail") then inl (fs, false)
    else if decide (effective_dir_conflict_strategy = "skip") then inl (fs, true)
    else if decide (effective_dir_conflict_strategy = "overwrite") then
      let removed :=
        if is_symlink fs target_dir_path then os_unlink fs target_dir_path
        else if is_dir fs target_dir_path then rmtree fs target_dir_path
        else os_unlink fs target_dir_path in
      match removed with
      | Ok fs' => inr fs'
      | Err _ => inl (fs, false)
      end
    else inr fs
  else inr fs.

(** What the conflict handling of a file source decides (lines 139-178):
    an early return, or the place to link at. *)
Definition file_conflict (fs : filesystem) (destination_dir link_path : path)
    (conflict_strategy : string) : filesystem * bool + filesystem * path :=
  if present fs link_path then
    if decide (conflict_strategy = "fail") then inl (fs, false)
    else if decide (conflict_strategy = "skip") then inl (fs, true)
    else if decide (conflict_strategy = "overwrite") then
      match remove_existing fs link_path with
      | Ok fs' => inr (fs', link_path)
      | Err _ => inl (fs, false)
      end
    else if decide (conflict_strategy = "rename") then
      match find_name rename_fuel fs destination_dir
                      (Path.stem link_path) (Path.suffix link_path) link_path 1 with
      | Some link_path' => inr (fs, link_path')
      | None => inl (fs, false)
      end
    else inl (fs, false)
  else inr (fs, link_path).

(** [name if name else source.name] *)
Definition link_name_of (name : option string) (source : path) : string :=
  match name with
  | Some n => if decide (n = "") then Path.name source else n
  | None => Path.name source
  end.

Definition create_hardlink (env : Env) (fs : filesystem) (source destination_dir : path)
    (name : option string) (conflict_strategy : string) : filesystem * bool :=
  if negb (exists_ fs source) then (fs, false)
  else if negb (is_dir fs destination_dir) then (fs, false)
  else
    let link_name := link_name_of name source in
    let link_path := destination_dir // link_name in
    if is_dir fs source then
      let target_dir_path := link_path in
      match top_level_conflict fs target_dir_path conflict_strategy with
      | inl early => early
      | inr fs' =>
          walk (walk_depth (plat env) source) env conflict_strategy
               source target_dir_path source (fs', true)
      end
    else if is_file fs source then
      match file_conflict fs destination_dir link_path conflict_strategy with
      | inl early => early
      | inr (fs', link_path') =>
          match os_link (plat env) fs' source link_path' with
          | Ok fs1 => (apply_permissions env fs1 link_path', true)
          | Err _ => (fs', false)
          end
      end
    else (fs, false).

End Core.

(** ** tui_browser.py: the state of the browser and its command handlers

    The table widget and the [link_map] annotation are display only and
    are left out; the reload a handler schedules with
    [asyncio.create_task] is run as the last step of the handler. *)

Module Tui.
Import Fs.

Record state := {
  current_dir : path;
  selected : gset path;
  cursor_index : Z;
  items : list path
}.

(** [str.lower()] on ASCII letters. *)
Definition lower_ascii (c : ascii) : ascii :=
  let n := nat_of_ascii c in
  if (65 <=? n) && (n <=? 90) then ascii_of_nat (n + 32) else c.

Fixpoint lower (s : string) : string :=
  match s with
  | EmptyString => EmptyString
  | String c s' => String (lower_ascii c) (lower s')
  end.

(** The sort key [(not p.is_dir(), p.name.lower())] and the order of
    Python tuples on it. *)
Definition sort_key (fs : filesystem) (p : path) : bool * string :=
  (negb (is_dir fs p), lower (Path.name p)).

Definition key_leb (k1 k2 : bool * string) : bool :=
  match k1.1, k2.1 with
  | false, true => true
  | true, false => false
  | _, _ => String.leb k1.2 k2.2
  end.

Definition entry_le (fs : filesystem) (p q : path) : Prop :=
  key_leb (sort_key fs p) (sort_key fs q) = true.

#[global] Instance entry_le_dec fs p q : Decision (entry_le fs p q).
Proof. unfold entry_le. apply _. Defined.

(** [l[i]] with Python's negative indices; [None] is [IndexError]. *)
Definition py_index {A} (l : list A) (i : Z) : option A :=
  if (0 <=? i)%Z then l !! Z.to_nat i
  else if (- Z.of_nat (length l) <=? i)%Z then l !! Z.to_nat (Z.of_nat (length l) + i)
  else None.

(** The cursor after a reload (lines 156-160). *)
Definition restore_cursor (preserve_cursor_index : option Z) (cursor : Z) (n : nat) : Z :=
  match preserve_cursor_index with
  | Some i =>
      if (0 <=? i)%Z && (i <? Z.of_nat n)%Z then i
      else if (Z.of_nat n <=? cursor)%Z || (cursor <? 0)%Z then 0%Z
      else cursor
  | None =>
      if (Z.of_nat n <=? cursor)%Z || (cursor <? 0)%Z then 0%Z
      else cursor
  end.

(** The entries shown for a directory: directories first, then by name
    without regard to case; nothing when the directory cannot be read. *)
Definition listing (pf : platform) (fs : filesystem) (cur : path) : list path :=
  match iterdir pf fs cur with
  | Ok es => merge_sort (entry_le fs) es
  | Err _ => []
  end.

Definition load_directory (pf : platform) (fs : filesystem) (st : state)
    (p : path) (preserve_cursor_index : option Z) : state :=
  let cur := resolve fs p in
  let entries := listing pf fs cur in
  {| current_dir := cur;
     selected := selected st;
     cursor_index := restore_cursor preserve_cursor_index (cursor_index st) (length entries);
     items := entries |}.

Definition action_go_up (pf : platform) (fs : filesystem) (st : state) : state :=
  let parent := Path.parent (current_dir st) in
  if decide (parent ≠ current_dir st) then load_directory pf fs st parent None
  else st.

Definition action_toggle_select (pf : platform) (fs : filesystem) (st : state) : state :=
  if bool_decide (items st = []) || (Z.of_nat (length (items st)) <=? cursor_index st)%Z
  then st
  else
    match py_index (items st) (cursor_index st) with
    | None => st
    | Some entry =>
        let entry_resolved := resolve fs entry in
        let selected' :=
          if decide (entry_resolved ∈ selected st)
          then selected st ∖ {[entry_resolved]}
          else selected st ∪ {[entry_resolved]} in
        let cursor' :=
          if (cursor_index st <? Z.of_nat (length (items st)) - 1)%Z
          then (cursor_index st + 1)%Z else cursor_index st in
        load_directory pf fs
          {| current_dir := current_dir st; selected := selected';
             cursor_index := cursor'; items := items st |}
          (current_dir st) (Some cursor')
    end.

(** The index handed to the reload after a deletion. *)
Definition index_after_delete (st : state) : Z :=
  let n := Z.of_nat (length (items st)) in
  if (n - 1 <=? cursor_index st)%Z && (1 <? n)%Z
  then (cursor_index st - 1)%Z else cursor_index st.

(** The scan of lines 258-261: [Ok false] at the first sub-directory or
    singly linked file, an error when an entry cannot be examined. *)
Fixpoint only_hardlinks (fs : filesystem) (items_inside : list path) : res bool :=
  match items_inside with
  | [] => Ok true
  | item :: rest =>
      if is_dir fs item then Ok false
      else match st_nlink fs item with
           | Err e => Err e
           | Ok n => if n <=? 1 then Ok false else only_hardlinks fs rest
           end
  end.

(** [for item in items_inside: item.unlink()]; the first failure stops
    the loop with what was removed so far. *)
Fixpoint unlink_all (fs : filesystem) (items_inside : list path) : filesystem * bool :=
  match items_inside with
  | [] => (fs, true)
  | item :: rest =>
      match os_unlink fs item with
      | Ok fs' => unlink_all fs' rest
      | Err _ => (fs, false)
      end
  end.

(** The handler answers with the file system, the state and whether the
    bell rang. *)
Definition action_delete_link (pf : platform) (fs : filesystem) (st : state)
  : filesystem * state * bool :=
  if bool_decide (items st = []) || (Z.of_nat (length (items st)) <=? cursor_index st)%Z
  then (fs, st, true)
  else
    match py_index (items st) (cursor_index st) with
    | None => (fs, st, false)
    | Some entry_to_delete =>
        let reload fs' :=
          (fs', load_directory pf fs' st (current_dir st) (Some (index_after_delete st)),
           false) in
        if is_file fs entry_to_delete then
          match os_unlink fs entry_to_delete with
          | Ok fs' => reload fs'
          | Err _ => (fs, st, true)
          end
        else if is_dir fs entry_to_delete then
          match iterdir pf fs entry_to_delete with
          | Err _ => (fs, st, true)
          | Ok items_inside =>
              let contains_items := negb (bool_decide (items_inside = [])) in
              match only_hardlinks fs items_inside with
              | Err _ => (fs, st, true)
              | Ok only =>
                  if contains_items && only then
                    match unlink_all fs items_inside with
                    | (fs1, true) =>
                        match os_rmdir fs1 entry_to_delete with
                        | Ok fs2 => reload fs2
                        | Err _ => (fs1, st, true)
                        end
                    | (fs1, false) => (fs1, st, true)
                    end
                  else if negb contains_items then
                    match os_rmdir fs entry_to_delete with
                    | Ok fs' => reload fs'
                    | Err _ => (fs, st, true)
                    end
                  else (fs, st, false)
              end
          end
        else (fs, st, false)
    end.

(** One turn of the loop of [action_deploy] (lines 310-326) on the file
    system and the two counters. *)
Definition deploy_item (env : Env) (destination_dir : path)
    (acc : filesystem * nat * nat) (source_path : path) : filesystem * nat * nat :=
  let '(fs, success_count, fail_count) := acc in
  if negb (exists_ fs source_path) then (fs, success_count, S fail_count)
  else
    let '(fs', success) :=
      Core.create_hardlink env fs source_path destination_dir None "rename" in
    if success then (fs', S success_count, fail_count)
    else (fs', success_count, S fail_count).

Inductive deploy_signal :=
  | NothingSelected
  | Summary (success_count fail_count : nat).

Definition action_deploy (env : Env) (fs : filesystem) (st : state)
  : filesystem * state * deploy_signal :=
  if bool_decide (selected st = ∅) then (fs, st, NothingSelected)
  else
    let destination_dir := resolve fs (current_dir st) in
    let items_to_deploy := elements (selected st) in
    let '(fs', success_count, fail_count) :=
      foldl (deploy_item env destination_dir) (fs, 0, 0) items_to_deploy in
    (fs',
     load_directory (plat env) fs'
       {| current_dir := current_dir st; selected := ∅;
          cursor_index := cursor_index st; items := items st |}
       (current_dir st) (Some (cursor_index st)),
     Summary success_count fail_count).

(** *** Entering, renaming, making directories; the text dialog *)

(** [action_enter_dir] (lines 201-208).  Reading [items] past its end
    raises, and the handler ends there. *)
Definition action_enter_dir (pf : platform) (fs : filesystem) (st : state) : state :=
  if bool_decide (items st = []) then st
  else
    match py_index (items st) (cursor_index st) with
    | None => st
    | Some entry =>
        if is_dir fs entry then load_directory pf fs st entry None else st
    end.

(** The guard of [action_rename] (lines 348-356): the directory under
    the cursor, or [None] when the bell rings instead of the dialog
    opening. *)
Definition action_rename (fs : filesystem) (st : state) : option path :=
  if bool_decide (items st = []) || (Z.of_nat (length (items st)) <=? cursor_index st)%Z
  then None
  else
    match py_index (items st) (cursor_index st) with
    | None => None
    | Some entry => if is_dir fs entry then Some entry else None
    end.

(** [do_rename] (lines 358-370), run when the dialog is confirmed, on the
    file system as it is then.  The name is one path component. *)
Definition do_rename (pf : platform) (fs : filesystem) (st : state)
    (old_path : path) (new_name : string) : filesystem * state * bool :=
  let new_path := Path.parent old_path // new_name in
  if exists_ fs new_path then (fs, st, true)
  else
    match os_rename pf fs old_path new_path with
    | Err _ => (fs, st, true)
    | Ok fs' =>
        (fs', load_directory pf fs' st (current_dir st) (Some (cursor_index st)), false)
    end.

(** [do_create_dir] (lines 390-403).  [Path.mkdir()] without [parents]
    and [exist_ok] raises on every error. *)
Definition do_create_dir (pf : platform) (fs : filesystem) (st : state)
    (new_dir_name : string) : filesystem * state * bool :=
  let new_path := current_dir st // new_dir_name in
  if exists_ fs new_path then (fs, st, true)
  else
    match os_mkdir pf fs new_path with
    | Err _ => (fs, st, true)
    | Ok fs' =>
        (fs', load_directory pf fs' st (current_dir st) (Some (cursor_index st)), false)
    end.

(** [str.isspace()] on ASCII: tab to carriage return, the four
    separators and the space. *)
Definition is_space (c : ascii) : bool :=
  let n := nat_of_ascii c in
  ((9 <=? n) && (n <=? 13)) || ((28 <=? n) && (n <=? 32)).

(** [str.lstrip()] and [str.rstrip()] *)
Fixpoint lstrip (s : string) : string :=
  match s with
  | EmptyString => EmptyString
  | String c s' => if is_space c then lstrip s' else s
  end.

Fixpoint rstrip (s : string) : string :=
  match s with
  | EmptyString => EmptyString
  | String c s' =>
      match rstrip s' with
      | EmptyString => if is_space c then EmptyString else String c EmptyString
      | r => String c r
      end
  end.

(** [str.strip()] *)
Definition strip (s : string) : string := rstrip (lstrip s).

(** [TextInputModalScreen._try_submit] (lines 458-464): the text of the
    input, stripped, goes to the callback unless nothing is left of it;
    [None] is the error label being shown and the dialog staying open. *)
Definition try_submit {A} (on_submit : string → A) (input_value : string) : option A :=
  let value := strip input_value in
  if decide (value = "") then None else Some (on_submit value).

(** Nothing but white space. *)
Fixpoint blank (s : string) : bool :=
  match s with
  | EmptyString => true
  | String c s' => is_space c && blank s'
  end.

(** [str.isascii()]: on such texts [str.lower()], [str.strip()] and the
    order of [str] are those of the bytes. *)
Fixpoint is_ascii (s : string) : bool :=
  match s with
  | EmptyString => true
  | String c s' => (nat_of_ascii c <? 128) && is_ascii s'
  end.

End Tui.


(** ** link_index.py *)

Module LinkIndex.
Import Fs.

(** [inode] holds what [st_ino] identifies: the object the path leads
    to. *)
Record HardlinkEntry := {
  entry_path : path;
  nlink : nat;
  inode : obj;
  is_hardlink : bool;
  is_dir : bool
}.

(** The tuples [(root, dirs, files)] of [os.walk(top)] on a file system
    that does not change under it. *)
Fixpoint os_walk (depth : nat) (pf : platform) (fs : filesystem) (top : path)
  : list (path * list string * list string) :=
  match depth with
  | 0 => []
  | S depth' =>
      match Core.scandir pf fs top with
      | Err _ => []
      | Ok (dirs, files) =>
          (top, dirs, files) ::
          (dirs ≫= λ dirname,
             let new_path := dirname :: top in
             if is_symlink fs new_path then [] else os_walk depth' pf fs new_path)
      end
  end.

(** [path.stat()] read into an entry; nothing when it raises. *)
Definition entry_of (fs : filesystem) (p : path) (as_dir : bool) : option HardlinkEntry :=
  match st_nlink fs p, obj_of fs p with
  | Ok n, Ok o =>
      Some {| entry_path := p; nlink := n; inode := o;
              is_hardlink := if as_dir then false else 1 <? n;
              is_dir := as_dir |}
  | _, _ => None
  end.

Definition scan_hardlinks (pf : platform) (fs : filesystem) (base_path : path)
  : list HardlinkEntry :=
  os_walk (Core.walk_depth pf base_path) pf fs base_path ≫= λ '(root_path, dirs, files),
    omap (λ name, entry_of fs (name :: root_path) false) files ++
    omap (λ name, entry_of fs (name :: root_path) true) dirs.

End LinkIndex.

(** ** Sample data *)

Module Sample.
Import Fs Permissions Tui.

Definition media : app_info :=
  {| paths := ["/mnt/data"]; user := Some "media"; group := Some "media";
     permissions := Some "775" |}.

Definition backup : app_info :=
  {| paths := ["/mnt/data2"; "/srv"]; user := Some "backup"; group := Some "staff";
     permissions := Some "750" |}.

Definition mounts : policy := [("nas", [("jellyfin", media); ("restic", backup)])].

(** An application whose entry in the document has no user, ahead of a
    complete one. *)
Definition draft : app_info :=
  {| paths := ["/mnt"]; user := None; group := Some "media";
     permissions := Some "775" |}.

Definition mounts_draft : policy := [("nas", [("draft", draft); ("jellyfin", media)])].

Definition pf : platform :=
  {| path_max := 64;
     getpwnam := λ u, if decide (u = "media") then Some 1000 else None;
     getgrnam := λ g, if decide (g = "media") then Some 1000 else None;
     int8 := λ s, if decide (s = "775") then Some 509 else None |}.

Definition env : Env := {| plat := pf; config := Some mounts |}.

Definition mkfs (entries : list (path * node)) : filesystem :=
  {| tree := list_to_map entries; owner := ∅; mode := ∅ |}.

Definition at_ (parts : list string) (nd : node) : path * node :=
  (Path.of_parts parts, nd).

(** A source file and a source directory next to a destination that
    already holds ["a.txt"] and a directory ["album"]. *)
Definition fs0 : filesystem :=
  mkfs [at_ ["src"] Dir; at_ ["src"; "a.txt"] (File 1);
        at_ ["src"; "album"] Dir; at_ ["src"; "album"; "t1.flac"] (File 2);
        at_ ["src"; "album"; "art"] Dir;
        at_ ["src"; "album"; "art"; "c.jpg"] (File 3);
        at_ ["src"; "album"; "t2.flac"] (File 4);
        at_ ["dst"] Dir; at_ ["dst"; "a.txt"] (File 7);
        at_ ["dst"; "album"] Dir].

(** The destination holds ["a.txt"], ["a (1).txt"], ..., ["a (n).txt"]. *)
Definition crowd (n : nat) : list (path * node) :=
  (λ k, at_ ["dst"; Core.renamed "a" ".txt" k] (File 7)) <$> seq 1 n.

Definition crowded (n : nat) : filesystem :=
  mkfs ([at_ ["src"] Dir; at_ ["src"; "a.txt"] (File 1);
         at_ ["dst"] Dir; at_ ["dst"; "a.txt"] (File 7)] ++ crowd n).

(** [fs0] with a directory of hard links, ["/dst/shell"], whose two
    files are second names of files under ["/src/album"]. *)
Definition fs1 : filesystem :=
  mkfs [at_ ["src"] Dir; at_ ["src"; "a.txt"] (File 1);
        at_ ["src"; "album"] Dir; at_ ["src"; "album"; "t1.flac"] (File 2);
        at_ ["src"; "album"; "art"] Dir;
        at_ ["src"; "album"; "art"; "c.jpg"] (File 3);
        at_ ["src"; "album"; "t2.flac"] (File 4);
        at_ ["dst"] Dir; at_ ["dst"; "a.txt"] (File 7);
        at_ ["dst"; "album"] Dir;
        at_ ["dst"; "shell"] Dir; at_ ["dst"; "shell"; "t1.flac"] (File 2);
        at_ ["dst"; "shell"; "t2.flac"] (File 4)].

(** A source with two sub-directories, and a destination where a file
    sits at the place of the first. *)
Definition fs2 : filesystem :=
  mkfs [at_ ["src"] Dir; at_ ["src"; "album"] Dir;
        at_ ["src"; "album"; "art"] Dir;
        at_ ["src"; "album"; "art"; "c.jpg"] (File 3);
        at_ ["src"; "album"; "disc2"] Dir;
        at_ ["src"; "album"; "disc2"; "t3.flac"] (File 5);
        at_ ["dst"] Dir; at_ ["dst"; "album"] Dir;
        at_ ["dst"; "album"; "art"] (File 9)].

(** The paths and browser states the examples below run on. *)
Definition src_a : path := Path.of_parts ["src"; "a.txt"].

Definition dst : path := Path.of_parts ["dst"].

Definition a_numbered (k : nat) : path := dst // Core.renamed "a" ".txt" k.

Definition album : path := Path.of_parts ["src"; "album"].

Definition dst_album : path := Path.of_parts ["dst"; "album"].

Definition browsing_album : state :=
  {| current_dir := Path.of_parts ["src"; "album"]; selected := ∅;
     cursor_index := 1; items := listing pf fs0 (Path.of_parts ["src"; "album"]) |}.

Definition two_selected : state :=
  {| current_dir := Path.of_parts ["dst"];
     selected := {[ Path.of_parts ["src"; "a.txt"]; Path.of_parts ["src"; "gone.txt"] ]};
     cursor_index := 0;
     items := listing pf fs0 (Path.of_parts ["dst"]) |}.

Definition browsing_dst : state :=
  {| current_dir := dst; selected := ∅; cursor_index := 1;
     items := listing pf fs1 dst |}.

Definition browsing_src : state :=
  {| current_dir := Path.of_parts ["src"]; selected := ∅; cursor_index := 0;
     items := listing pf fs1 (Path.of_parts ["src"]) |}.

End Sample.

(** More trees and browser states to run on. *)

Module SampleMore.
Import Fs Permissions Tui.

(** A tree with a directory the policy covers, a link to a directory,
    and a destination that holds a file and a directory. *)
Definition fs3 : filesystem :=
  Sample.mkfs [Sample.at_ ["mnt"] Dir; Sample.at_ ["mnt"; "data"] Dir;
        Sample.at_ ["src"] Dir; Sample.at_ ["src"; "a.txt"] (File 1);
        Sample.at_ ["src"; "album"] Dir; Sample.at_ ["src"; "album"; "t1.flac"] (File 2);
        Sample.at_ ["dst"] Dir; Sample.at_ ["dst"; "a.txt"] (File 7);
        Sample.at_ ["dst"; "shortcut"] (Symlink (Path.of_parts ["src"; "album"]));
        Sample.at_ ["dst"; "old"] Dir; Sample.at_ ["dst"; "old"; "x"] (File 8)].

Definition mnt_data : path := Path.of_parts ["mnt"; "data"].

Definition src : path := Path.of_parts ["src"].

Definition browsing_src3 (cursor : Z) : state :=
  {| current_dir := src; selected := ∅; cursor_index := cursor;
     items := listing Sample.pf fs3 src |}.

Definition browsing_dst3 (cursor : Z) : state :=
  {| current_dir := Sample.dst; selected := {[ Sample.src_a ]}; cursor_index := cursor;
     items := listing Sample.pf fs3 Sample.dst |}.

(** A source directory with one file, and a destination where the name
    of the directory is taken by a link to nothing. *)
Definition fs_dangling : filesystem :=
  Sample.mkfs [Sample.at_ ["src"] Dir; Sample.at_ ["src"; "album"] Dir;
        Sample.at_ ["src"; "album"; "t1.flac"] (File 2);
        Sample.at_ ["dst"] Dir;
        Sample.at_ ["dst"; "album"] (Symlink (Path.of_parts ["gone"]))].

(** A browser with the cursor on the one entry it shows. *)
Definition pointing_at (p : path) : state :=
  {| current_dir := Path.parent p; selected := ∅; cursor_index := 0; items := [p] |}.

End SampleMore.
(** * Properties *)

Import Fs Permissions Core Tui.

(** ** Lookups *)

Section lookups.
Context (fs : filesystem).

Lemma lstat_cons n par :
  lstat fs (n :: par) =
    match lstat fs par with
    | Ok Dir =>
        match tree fs !! (n :: par) with
        | Some nd => Ok nd
        | None => Err ENOENT
        end
    | Ok _ => Err ENOTDIR
    | Err e => Err e
    end.
Proof. reflexivity. Qed.

Lemma lstat_parent n par nd : lstat fs (n :: par) = Ok nd → lstat fs par = Ok Dir.
Proof.
  rewrite lstat_cons. destruct (lstat fs par) as [[]|]; try done.
Qed.

Lemma lstat_lookup n par nd : lstat fs (n :: par) = Ok nd → tree fs !! (n :: par) = Some nd.
Proof.
  rewrite lstat_cons. destruct (lstat fs par) as [[]|]; try done.
  destruct (tree fs !! (n :: par)); naive_solver.
Qed.

Lemma follow_unfold hops p :
  follow hops fs p =
    match lstat fs p with
    | Ok (Symlink t) =>
        match hops with
        | 0 => Err ELOOP
        | S h => follow h fs t
        end
    | Ok nd => Ok (p, nd)
    | Err e => Err e
    end.
Proof. by destruct hops. Qed.

Lemma follow_not_symlink hops p d nd : follow hops fs p = Ok (d, nd) → ∀ t, nd ≠ Symlink t.
Proof.
  revert p. induction hops as [|h IH]; intros p; rewrite follow_unfold;
    destruct (lstat fs p) as [[]|]; naive_solver.
Qed.

Lemma follow_lstat hops p d nd : follow hops fs p = Ok (d, nd) → lstat fs d = Ok nd.
Proof.
  revert p. induction hops as [|h IH]; intros p; rewrite follow_unfold;
    destruct (lstat fs p) as [[]|] eqn:E; naive_solver.
Qed.

Lemma follow_lstat_ok hops p r : follow hops fs p = Ok r → ∃ nd, lstat fs p = Ok nd.
Proof. rewrite follow_unfold. destruct (lstat fs p); naive_solver. Qed.

Lemma follow_dir hops p : lstat fs p = Ok Dir → follow hops fs p = Ok (p, Dir).
Proof. intros E. rewrite follow_unfold, E. done. Qed.

Lemma follow_file hops p i : lstat fs p = Ok (File i) → follow hops fs p = Ok (p, File i).
Proof. intros E. rewrite follow_unfold, E. done. Qed.

Lemma is_dir_lstat p : lstat fs p = Ok Dir → is_dir fs p = true.
Proof. intros E. unfold is_dir, stat. by rewrite (follow_dir _ _ E). Qed.

Lemma is_dir_exists p : is_dir fs p = true → exists_ fs p = true.
Proof. unfold is_dir, exists_. destruct (stat fs p) as [[]|]; done. Qed.

Lemma is_file_exists p : is_file fs p = true → exists_ fs p = true.
Proof. unfold is_file, exists_. destruct (stat fs p) as [[]|]; done. Qed.

Lemma is_file_not_dir p : is_file fs p = true → is_dir fs p = false.
Proof. unfold is_file, is_dir. destruct (stat fs p) as [[]|]; done. Qed.

Lemma exists_lstat_ok p : exists_ fs p = true → ∃ nd, lstat fs p = Ok nd.
Proof.
  unfold exists_, stat. destruct (follow _ _ _) as [r|] eqn:E; [|done].
  intros _. by eapply follow_lstat_ok.
Qed.

(** [p.exists() or p.is_symlink()] holds exactly when [lstat] finds an
    entry. *)
Lemma present_lstat p : present fs p = true ↔ ∃ nd, lstat fs p = Ok nd.
Proof.
  unfold present. split.
  - intros [H|H]%orb_true_iff; [by apply exists_lstat_ok|].
    unfold is_symlink in H. destruct (lstat fs p); naive_solver.
  - intros [nd E]. apply orb_true_iff.
    destruct nd as [i| |t].
    + left. unfold exists_, stat. by rewrite follow_unfold, E.
    + left. unfold exists_, stat. by rewrite follow_unfold, E.
    + right. unfold is_symlink. by rewrite E.
Qed.

Lemma not_present_lstat p : present fs p = false ↔ ∃ e, lstat fs p = Err e.
Proof.
  split.
  - intros H. destruct (lstat fs p) as [nd|e] eqn:E; [|by eauto].
    assert (present fs p = true) by (apply present_lstat; eauto). congruence.
  - intros [e E]. destruct (present fs p) eqn:P; [|done].
    apply present_lstat in P as [nd ?]. congruence.
Qed.

Lemma present_parent n par : present fs (n :: par) = true → lstat fs par = Ok Dir.
Proof. intros [nd ?]%present_lstat. by eapply lstat_parent. Qed.

(** A path whose parent is a directory resolves to itself unless it is a
    link. *)
Lemma resolve_dir p : lstat fs p = Ok Dir → resolve fs p = p.
Proof. intros E. unfold resolve, MAXSYMLINKS. simpl. by rewrite E. Qed.

End lookups.

(** A tree is within the limits of the file system when the check that
    goes through its entries says so. *)
Lemma within_limits_check_ok fs : within_limits_check fs = true → within_limits fs.
Proof.
  unfold within_limits_check, within_limits. rewrite forallb_forall. intros H p nd Hp.
  assert (In (p, nd) (map_to_list (tree fs))) as Hin
    by by apply list_elem_of_In, elem_of_map_to_list.
  specialize (H _ Hin). cbn [fst snd] in H.
  apply andb_true_iff in H as [H1 H2]. split; [done|]. by destruct nd.
Qed.

(** ** Conflicts that end the call before anything is created *)

Section early_returns.
Context (env : Env) (fs : filesystem).


(** A directory source whose target path resolves to an entry, as
    [exists()] has it: [rename] is handled as [fail], both answer
    [False] before the walk starts, and [skip] answers [True]; the file
    system is returned as it was. *)
Lemma directory_source_top_level_conflict source destination_dir name :
  is_dir fs source = true →
  is_dir fs destination_dir = true →
  exists_ fs (destination_dir // link_name_of name source) = true →
  create_hardlink env fs source destination_dir name "rename"
    = create_hardlink env fs source destination_dir name "fail" ∧
  create_hardlink env fs source destination_dir name "fail" = (fs, false) ∧
  create_hardlink env fs source destination_dir name "skip" = (fs, true).
Proof.
  intros Hsrc Hdest Htaken. unfold create_hardlink.
  rewrite (is_dir_exists _ _ Hsrc), Hdest, Hsrc. simpl.
  unfold top_level_conflict. rewrite Htaken. done.
Qed.

End early_returns.


Lemma directory_source_top_level_conflict_witness :
  create_hardlink Sample.env Sample.fs0 (Path.of_parts ["src"; "album"])
                  (Path.of_parts ["dst"]) None "rename"
    = create_hardlink Sample.env Sample.fs0 (Path.of_parts ["src"; "album"])
                      (Path.of_parts ["dst"]) None "fail" ∧
  create_hardlink Sample.env Sample.fs0 (Path.of_parts ["src"; "album"])
                  (Path.of_parts ["dst"]) None "fail" = (Sample.fs0, false) ∧
  create_hardlink Sample.env Sample.fs0 (Path.of_parts ["src"; "album"])
                  (Path.of_parts ["dst"]) None "skip" = (Sample.fs0, true).
Proof.
  apply (directory_source_top_level_conflict Sample.env Sample.fs0
           (Path.of_parts ["src"; "album"]) (Path.of_parts ["dst"]) None);
    vm_compute; reflexivity.
Defined.

(** C2, where the code leaves it.  The directory branch asks only
    [exists()], which follows links, where the file branch and the walk
    ask [exists() or is_symlink()].  With the target name taken by a
    link to nothing, no conflict is seen: the walk starts, [mkdir] finds
    the name taken by something that is no directory, and the call
    answers [False] under [skip] as under [fail] and [rename], with
    the file system as it was. *)
Theorem directory_source_dangling_target :
  present SampleMore.fs_dangling Sample.dst_album = true ∧
  exists_ SampleMore.fs_dangling Sample.dst_album = false ∧
  top_level_conflict SampleMore.fs_dangling Sample.dst_album "skip"
    = inr SampleMore.fs_dangling ∧
  create_hardlink Sample.env SampleMore.fs_dangling Sample.album Sample.dst None "skip"
    = (SampleMore.fs_dangling, false) ∧
  create_hardlink Sample.env SampleMore.fs_dangling Sample.album Sample.dst None "fail"
    = (SampleMore.fs_dangling, false) ∧
  create_hardlink Sample.env SampleMore.fs_dangling Sample.album Sample.dst None "rename"
    = (SampleMore.fs_dangling, false).
Proof. vm_compute. done. Qed.

(** ** The browser: cursor, navigation and selection *)

(** Removing what was added, or adding back what was removed. *)
Lemma toggle_twice (X : gset path) (x : path) :
  (let X1 := if decide (x ∈ X) then X ∖ {[x]} else X ∪ {[x]} in
   if decide (x ∈ X1) then X1 ∖ {[x]} else X1 ∪ {[x]}) = X.
Proof.
  simpl. destruct (decide (x ∈ X)) as [Hin|Hout].
  - rewrite decide_False.
    + rewrite union_comm_L. symmetry. by apply union_difference_singleton_L.
    + rewrite elem_of_difference, elem_of_singleton. tauto.
  - rewrite decide_True by (apply elem_of_union_r; by apply elem_of_singleton).
    apply set_eq. intros y.
    rewrite elem_of_difference, elem_of_union, elem_of_singleton.
    split; [intros [[?| ->] ?]; done|].
    intros Hy. split; [by left|]. by intros ->.
Qed.

Ltac z_tests :=
  repeat match goal with
    | |- context [(?a <=? ?b)%Z] => destruct (Z.leb_spec a b)
    | |- context [(?a <? ?b)%Z] => destruct (Z.ltb_spec a b)
    end; simpl; try lia.

Section browser.
Context (pf : platform).

Lemma restore_cursor_in_range preserve cursor n :
  n ≠ 0 → (0 ≤ restore_cursor preserve cursor n < Z.of_nat n)%Z.
Proof.
  intros Hn. unfold restore_cursor.
  destruct preserve as [i|]; z_tests.
Qed.

Lemma restore_cursor_empty preserve cursor : restore_cursor preserve cursor 0 = 0%Z.
Proof.
  unfold restore_cursor. destruct preserve as [i|]; z_tests.
Qed.

Lemma restore_cursor_none cursor n :
  restore_cursor None cursor n
    = if decide (0 ≤ cursor < Z.of_nat n)%Z then cursor else 0%Z.
Proof. unfold restore_cursor. case_decide; z_tests. Qed.

(** C7, as the code has it.  After a reload the cursor is a valid index
    of the new listing when there is one, and 0 when the listing is
    empty. *)
Theorem load_directory_cursor fs st p preserve :
  let st' := load_directory pf fs st p preserve in
  (items st' ≠ [] →
     (0 ≤ cursor_index st' < Z.of_nat (length (items st')))%Z) ∧
  (items st' = [] → cursor_index st' = 0%Z).
Proof.
  simpl. split.
  - intros Hne. apply restore_cursor_in_range.
    by destruct (listing pf fs (resolve fs p)).
  - intros ->. apply restore_cursor_empty.
Qed.

Lemma parent_fixed (p : path) : Path.parent p = p ↔ p = [].
Proof.
  split; [|by intros ->]. unfold Path.parent. intros H.
  apply (f_equal length) in H. destruct p; simpl in *; [done|lia].
Qed.

(** C8, as the code has it.  At the root [go_up] does nothing.
    Elsewhere the parent is loaded: the current directory becomes the
    resolved parent (the parent itself when the current directory is
    there to be found), the listing is that of the new directory, the
    selection is kept, and the cursor stays where it was unless it falls
    outside the new listing, in which case it goes to 0. *)
Theorem go_up_spec fs st :
  (current_dir st = [] → action_go_up pf fs st = st) ∧
  (current_dir st ≠ [] →
     let st' := action_go_up pf fs st in
     current_dir st' = resolve fs (Path.parent (current_dir st)) ∧
     (present fs (current_dir st) = true →
        current_dir st' = Path.parent (current_dir st)) ∧
     items st' = listing pf fs (current_dir st') ∧
     selected st' = selected st ∧
     cursor_index st' =
       if decide (0 ≤ cursor_index st < Z.of_nat (length (items st')))%Z
       then cursor_index st else 0%Z).
Proof.
  unfold action_go_up. split.
  - intros E. case_decide as H; [|done]. by rewrite E in H.
  - intros Hne. case_decide as H; [|by apply parent_fixed in H].
    simpl. split_and!; try done.
    + intros Hp. destruct (current_dir st) as [|n par]; [done|].
      apply resolve_dir. by eapply present_parent.
    + apply restore_cursor_none.
Qed.

(** C10.  Toggling the entry under the cursor, putting the cursor back
    on it and toggling again gives the selection back, as long as the
    listing and the resolved path of the entry are the same both
    times. *)
Theorem toggle_select_twice fs fs' st :
  items st ≠ [] →
  (0 ≤ cursor_index st < Z.of_nat (length (items st)))%Z →
  let st1 := action_toggle_select pf fs st in
  items st1 = items st →
  (∀ entry, py_index (items st) (cursor_index st) = Some entry →
            resolve fs' entry = resolve fs entry) →
  let st1' := {| current_dir := current_dir st1; selected := selected st1;
                 cursor_index := cursor_index st; items := items st1 |} in
  selected (action_toggle_select pf fs' st1') = selected st.
Proof.
  intros Hne [Hlo Hhi] st1 Hitems Hres st1'.
  assert (∃ entry, py_index (items st) (cursor_index st) = Some entry) as [entry He].
  { unfold py_index. rewrite (proj2 (Z.leb_le _ _) Hlo).
    apply lookup_lt_is_Some. lia. }
  assert (selected st1 =
            if decide (resolve fs entry ∈ selected st)
            then selected st ∖ {[resolve fs entry]}
            else selected st ∪ {[resolve fs entry]}) as Hsel1.
  { unfold st1, action_toggle_select.
    rewrite bool_decide_eq_false_2 by done.
    rewrite (proj2 (Z.leb_gt _ _)) by lia. simpl. by rewrite He. }
  unfold action_toggle_select. subst st1'. simpl.
  rewrite Hitems, bool_decide_eq_false_2 by done.
  rewrite (proj2 (Z.leb_gt _ _)) by lia. simpl. rewrite He. simpl.
  rewrite (Hres _ He), Hsel1.
  apply toggle_twice.
Qed.

End browser.

Lemma load_directory_cursor_counterexample :
  let st' := load_directory Sample.pf Sample.fs0 Sample.browsing_album
               (Path.of_parts ["dst"; "album"]) None in
  items st' = [] ∧
  ¬ (0 ≤ cursor_index st' < Z.of_nat (length (items st')))%Z.
Proof. split; [by vm_compute|]. vm_compute. intros [_ H]. discriminate H. Qed.

Lemma load_directory_cursor_witness :
  let st' := load_directory Sample.pf Sample.fs0 Sample.browsing_album
               (Path.of_parts ["src"]) (Some 7%Z) in
  items st' ≠ [] ∧ (0 ≤ cursor_index st' < Z.of_nat (length (items st')))%Z.
Proof.
  assert (items (load_directory Sample.pf Sample.fs0 Sample.browsing_album
                   (Path.of_parts ["src"]) (Some 7%Z)) ≠ []) as H
    by (vm_compute; discriminate).
  split; [exact H|].
  exact (proj1 (load_directory_cursor Sample.pf Sample.fs0 Sample.browsing_album
                  (Path.of_parts ["src"]) (Some 7%Z)) H).
Defined.

Lemma go_up_counterexample :
  current_dir Sample.browsing_album ≠ [] ∧
  cursor_index (action_go_up Sample.pf Sample.fs0 Sample.browsing_album) = 1%Z ∧
  cursor_index (action_go_up Sample.pf Sample.fs0 Sample.browsing_album) ≠ 0%Z.
Proof. by vm_compute. Qed.

Lemma go_up_witness :
  let st' := action_go_up Sample.pf Sample.fs0 Sample.browsing_album in
  current_dir st' = Path.of_parts ["src"] ∧ cursor_index st' = 1%Z.
Proof.
  assert (current_dir Sample.browsing_album ≠ []) as Hne by (vm_compute; discriminate).
  destruct (proj2 (go_up_spec Sample.pf Sample.fs0 Sample.browsing_album) Hne)
    as (_ & Hdir & _ & _ & Hcur).
  split.
  - rewrite Hdir; [reflexivity|]. vm_compute. reflexivity.
  - rewrite Hcur. vm_compute. reflexivity.
Defined.

Lemma toggle_select_twice_witness :
  let st1 := action_toggle_select Sample.pf Sample.fs0 Sample.browsing_album in
  selected (action_toggle_select Sample.pf Sample.fs0
              {| current_dir := current_dir st1; selected := selected st1;
                 cursor_index := cursor_index Sample.browsing_album; items := items st1 |})
  = selected Sample.browsing_album.
Proof.
  apply (toggle_select_twice Sample.pf Sample.fs0 Sample.fs0 Sample.browsing_album).
  - vm_compute. discriminate.
  - vm_compute. split; [discriminate|reflexivity].
  - vm_compute. reflexivity.
  - reflexivity.
Defined.

(** ** Permission rules *)

Lemma startswith_spec (s pre : string) :
  startswith s pre = true ↔ ∃ rest, s = pre +:+ rest.
Proof.
  unfold startswith. revert s. induction pre as [|c pre IH]; intros s.
  - split; [intros _; by exists s|by destruct s].
  - destruct s as [|c' s]; simpl.
    + split; [done|]. by intros [rest ?].
    + destruct (Ascii.ascii_dec c c') as [->|Hne].
      * rewrite IH. split; intros [rest E]; exists rest.
        -- simpl. by rewrite E.
        -- simpl in E. by injection E.
      * split; [done|]. intros [rest E]. simpl in E. injection E. congruence.
Qed.

Lemma head_omap_Some {A B} (f : A → option B) (l : list A) (y : B) :
  head (omap f l) = Some y ↔
  ∃ l1 x l2, l = l1 ++ x :: l2 ∧ Forall (λ z, f z = None) l1 ∧ f x = Some y.
Proof.
  induction l as [|a l IH]; simpl.
  - split; [done|]. intros (l1 & x & l2 & E & _). by destruct l1.
  - destruct (f a) as [b|] eqn:Ea; simpl.
    + split.
      * intros [= ->]. exists [], a, l. by repeat split.
      * intros (l1 & x & l2 & E & Hl1 & Hx). destruct l1 as [|a' l1].
        -- simpl in E. injection E as -> ->. congruence.
        -- simpl in E. injection E as -> ->. inversion Hl1; congruence.
    + rewrite IH. split.
      * intros (l1 & x & l2 & -> & Hl1 & Hx). exists (a :: l1), x, l2.
        split; [done|]. split; [by constructor|done].
      * intros (l1 & x & l2 & E & Hl1 & Hx). destruct l1 as [|a' l1].
        -- simpl in E. injection E as -> ->. congruence.
        -- simpl in E. injection E as -> ->. exists l1, x, l2.
           split; [done|]. split; [by inversion Hl1|done].
Qed.

Lemma head_omap_None {A B} (f : A → option B) (l : list A) :
  head (omap f l) = None ↔ Forall (λ z, f z = None) l.
Proof.
  induction l as [|a l IH]; simpl; [by split|].
  destruct (f a) eqn:Ea; simpl.
  - split; [done|]. inversion 1; congruence.
  - rewrite IH. split; [by constructor|by inversion 1].
Qed.

Lemma head_app_omap {A B} (f : A → option B) (l k : list A) :
  head (omap f (l ++ k)) =
    match head (omap f l) with Some y => Some y | None => head (omap f k) end.
Proof.
  induction l as [|a l IH]; simpl; [by destruct (head (omap f k))|].
  by destruct (f a).
Qed.

Section lookup_order.
Context (dest : string).

Lemma match_paths_entries a ps :
  match_paths dest a ps
    = head (omap (answer_at dest) ((λ app_path, (app_path, a)) <$> ps)).
Proof.
  induction ps as [|pre ps IH]; simpl; [done|].
  unfold answer_at at 1. simpl.
  destruct (startswith dest pre); [|done]. by destruct (rule_of a).
Qed.

Lemma match_apps_entries (apps : applications) :
  match_apps dest apps
    = head (omap (answer_at dest)
                 (apps ≫= λ a, (λ app_path, (app_path, a.2)) <$> paths a.2)).
Proof.
  induction apps as [|[nm a] apps IH]; simpl; [done|].
  rewrite head_app_omap, <- match_paths_entries, IH. done.
Qed.

(** The three nested loops answer with the first prefix, in the order
    of the document, that the destination starts with and whose
    application has its three attributes. *)
Lemma match_mounts_entries (mounts : policy) :
  match_mounts dest mounts = head (omap (answer_at dest) (rule_entries mounts)).
Proof.
  unfold rule_entries.
  induction mounts as [|[nm apps] mounts IH]; simpl; [done|].
  rewrite head_app_omap, <- match_apps_entries, IH. done.
Qed.

End lookup_order.

(** In a document whose applications all carry user, group and
    permissions, a prefix matches a destination exactly when the text of
    the destination begins with the text of the prefix, and the lookup
    answers with the rule of the first matching prefix in the order of the
    document; it answers nothing exactly when no prefix matches. *)
Lemma permissions_first_prefix_match (mounts : policy) (dest_path : path) :
  Forall (λ e, is_Some (rule_of e.2)) (rule_entries mounts) →
  (∀ pre, startswith (Path.str dest_path) pre = true
          ↔ ∃ rest, Path.str dest_path = pre +:+ rest) ∧
  (∀ r, get_app_permissions_for_path (Some mounts) dest_path = Some r ↔
        ∃ before pre a after,
          rule_entries mounts = before ++ (pre, a) :: after ∧
          Forall (λ e, startswith (Path.str dest_path) e.1 = false) before ∧
          startswith (Path.str dest_path) pre = true ∧
          rule_of a = Some r) ∧
  (get_app_permissions_for_path (Some mounts) dest_path = None ↔
   Forall (λ e, startswith (Path.str dest_path) e.1 = false) (rule_entries mounts)).
Proof.
  intros Hfull. split; [intros pre; apply startswith_spec|].
  assert (∀ l, Forall (λ e, is_Some (rule_of e.2)) l →
               Forall (λ e, answer_at (Path.str dest_path) e = None) l
               ↔ Forall (λ e : string * app_info,
                           startswith (Path.str dest_path) e.1 = false) l) as Hnone.
  { intros l Hl. induction Hl as [|e l [r Hr] Hl IH]; [by split|].
    rewrite !Forall_cons, IH. unfold answer_at. rewrite Hr.
    destruct (startswith (Path.str dest_path) e.1); intuition congruence. }
  unfold get_app_permissions_for_path. rewrite match_mounts_entries. split.
  - intros r. rewrite head_omap_Some. split.
    + intros (l1 & [pre a] & l2 & E & Hl1 & Hx). exists l1, pre, a, l2.
      rewrite E in Hfull. apply Forall_app in Hfull as [Hf1 _].
      split; [done|]. split; [by apply Hnone|].
      unfold answer_at in Hx. cbn [fst snd] in Hx.
      destruct (startswith (Path.str dest_path) pre); [by split|done].
    + intros (l1 & pre & a & l2 & E & Hl1 & Hpre & Hr). exists l1, (pre, a), l2.
      rewrite E in Hfull. apply Forall_app in Hfull as [Hf1 _].
      split; [done|]. split; [by apply Hnone|].
      unfold answer_at. cbn [fst snd]. by rewrite Hpre.
  - rewrite head_omap_None. by apply Hnone.
Qed.

Lemma permissions_first_prefix_match_witness :
  get_app_permissions_for_path (Some Sample.mounts) (Path.of_parts ["mnt"; "data2"; "x"])
  = Some {| rule_user := "media"; rule_group := "media"; rule_permissions := "775" |}.
Proof.
  apply (permissions_first_prefix_match Sample.mounts (Path.of_parts ["mnt"; "data2"; "x"])).
  - repeat constructor; vm_compute; eauto.
  - exists [], "/mnt/data", Sample.media,
      [("/mnt/data2", Sample.backup); ("/srv", Sample.backup)].
    split; [reflexivity|]. split; [constructor|]. split; reflexivity.
Defined.

(** A prefix of the document answers nothing when the destination does
    not start with it, or when its application lacks one of the three
    attributes: the [KeyError] is logged and the loops go on. *)
Lemma answer_at_None (dest : string) (e : string * app_info) :
  answer_at dest e = None ↔ startswith dest e.1 = false ∨ rule_of e.2 = None.
Proof.
  unfold answer_at. destruct (startswith dest e.1); [|by split; [left|]].
  split; [by right|by intros [|]].
Qed.

(** The first matching rule is not always the one returned: the
    destination ["/mnt/data/x"] starts with ["/mnt"], the first prefix of
    the document, whose application has no user; the lookup goes on and
    answers with the rule of ["/mnt/data"], which comes after it. *)
Lemma permissions_first_complete_match_counterexample :
  rule_entries Sample.mounts_draft
    = [("/mnt", Sample.draft); ("/mnt/data", Sample.media)] ∧
  startswith (Path.str (Path.of_parts ["mnt"; "data"; "x"])) "/mnt" = true ∧
  rule_of Sample.draft = None ∧
  get_app_permissions_for_path (Some Sample.mounts_draft) (Path.of_parts ["mnt"; "data"; "x"])
    = rule_of Sample.media ∧
  rule_of Sample.media
    = Some {| rule_user := "media"; rule_group := "media"; rule_permissions := "775" |}.
Proof. vm_compute. done. Qed.

(** C9, as the code has it.  Whatever the document, a prefix matches a
    destination exactly when the text of the destination begins with the
    text of the prefix, whether or not the prefix ends at a component
    (["/mnt/data2/x"] matches ["/mnt/data"]); the lookup answers with the
    rule of the first prefix, in the order of the document, that matches
    and whose application carries user, group and permissions; and it
    answers nothing exactly when every prefix fails to match or belongs
    to an application that lacks one of the three. *)
Theorem permissions_first_complete_match (mounts : policy) (dest_path : path) :
  (∀ pre, startswith (Path.str dest_path) pre = true
          ↔ ∃ rest, Path.str dest_path = pre +:+ rest) ∧
  startswith (Path.str (Path.of_parts ["mnt"; "data2"; "x"])) "/mnt/data" = true ∧
  (∀ r, get_app_permissions_for_path (Some mounts) dest_path = Some r ↔
        ∃ before pre a after,
          rule_entries mounts = before ++ (pre, a) :: after ∧
          Forall (λ e, startswith (Path.str dest_path) e.1 = false ∨ rule_of e.2 = None)
                 before ∧
          startswith (Path.str dest_path) pre = true ∧
          rule_of a = Some r) ∧
  (get_app_permissions_for_path (Some mounts) dest_path = None ↔
   Forall (λ e, startswith (Path.str dest_path) e.1 = false ∨ rule_of e.2 = None)
          (rule_entries mounts)).
Proof.
  split; [intros pre; apply startswith_spec|]. split; [vm_compute; reflexivity|].
  unfold get_app_permissions_for_path. rewrite match_mounts_entries. split.
  - intros r. rewrite head_omap_Some. split.
    + intros (l1 & [pre a] & l2 & E & Hl1 & Hx). exists l1, pre, a, l2.
      split; [done|]. split.
      * eapply Forall_impl; [exact Hl1|]. intros e. apply answer_at_None.
      * unfold answer_at in Hx. cbn [fst snd] in Hx.
        destruct (startswith (Path.str dest_path) pre); [by split|done].
    + intros (l1 & pre & a & l2 & E & Hl1 & Hpre & Hr). exists l1, (pre, a), l2.
      split; [done|]. split.
      * eapply Forall_impl; [exact Hl1|]. intros e. apply answer_at_None.
      * unfold answer_at. cbn [fst snd]. by rewrite Hpre.
  - rewrite head_omap_None. split; intros H; (eapply Forall_impl; [exact H|]);
      intros e; apply answer_at_None.
Qed.

(** ** Deploying the selection *)

Section deploy.
Context (env : Env) (destination_dir : path).

Lemma deploy_item_counts acc x :
  let r := deploy_item env destination_dir acc x in
  r.1.2 + r.2 = S (acc.1.2 + acc.2).
Proof.
  destruct acc as [[fs s] f]. unfold deploy_item.
  destruct (exists_ fs x); simpl; [|lia].
  destruct (create_hardlink env fs x destination_dir None "rename") as [fs' []];
    simpl; lia.
Qed.

(** Every item of the batch ends up in one of the two counters. *)
Lemma deploy_counts l acc :
  let r := foldl (deploy_item env destination_dir) acc l in
  r.1.2 + r.2 = acc.1.2 + acc.2 + length l.
Proof.
  revert acc. induction l as [|x l IH]; intros acc; simpl; [lia|].
  specialize (IH (deploy_item env destination_dir acc x)). simpl in IH.
  rewrite IH. pose proof (deploy_item_counts acc x) as H. simpl in H. lia.
Qed.

End deploy.

(** The accounting of [deploy] on runs where every call of the engine
    comes back with its answer.  With nothing selected [deploy] only
    signals and changes nothing.  Otherwise the selected paths are handled
    one after the other, each in the file system the previous ones left:
    a path that is no longer there adds one to the failures and the loop
    goes on; a path that is there is handed to [create_hardlink] with the
    resolved current directory as destination, no explicit name and the
    [rename] strategy, and adds one to the successes or to the failures
    according to the answer.  Every selected path is counted once, and
    the selection is emptied after the loop.  ([create_hardlink] probes
    names with [exists()] outside any [try]; an error other than a
    missing entry leaves it as an exception, which [action_deploy] does
    not catch: such a run ends inside the loop and is not one of
    these.) *)
Lemma deploy_spec (env : Env) (fs : filesystem) (st : state) :
  (selected st = ∅ → action_deploy env fs st = (fs, st, NothingSelected)) ∧
  (selected st ≠ ∅ →
     let destination_dir := resolve fs (current_dir st) in
     let run := foldl (deploy_item env destination_dir) (fs, 0, 0) in
     ∃ fs' st' s f,
       action_deploy env fs st = (fs', st', Summary s f) ∧
       run (elements (selected st)) = (fs', s, f) ∧
       selected st' = ∅ ∧
       s + f = size (selected st) ∧
       ∀ before x after,
         elements (selected st) = before ++ x :: after →
         ∃ fs1 s1 f1,
           run before = (fs1, s1, f1) ∧
           (exists_ fs1 x = false → run (before ++ [x]) = (fs1, s1, S f1)) ∧
           (exists_ fs1 x = true →
              ∃ fs2 ok,
                create_hardlink env fs1 x destination_dir None "rename" = (fs2, ok) ∧
                run (before ++ [x])
                  = (fs2, s1 + (if ok then 1 else 0), f1 + (if ok then 0 else 1)))).
Proof.
  unfold action_deploy. split.
  - intros E. by rewrite bool_decide_eq_true_2.
  - intros Hne. cbv zeta. rewrite bool_decide_eq_false_2 by done.
    set (destination_dir := resolve fs (current_dir st)).
    set (run := foldl (deploy_item env destination_dir) (fs, 0, 0)).
    destruct (run (elements (selected st))) as [[fs' s] f] eqn:Erun.
    eexists fs', _, s, f. split; [reflexivity|]. split; [done|]. split; [done|].
    split.
    + pose proof (deploy_counts env destination_dir (elements (selected st)) (fs, 0, 0)) as H.
      simpl in H. fold run in H. rewrite Erun in H. simpl in H. exact H.
    + intros before x after _.
      destruct (run before) as [[fs1 s1] f1] eqn:Eb. exists fs1, s1, f1.
      split; [done|].
      unfold run in *. rewrite foldl_app, Eb. simpl. unfold deploy_item.
      split.
      * intros ->. simpl. done.
      * intros ->. simpl.
        destruct (create_hardlink env fs1 x destination_dir None "rename")
          as [fs2 ok].
        exists fs2, ok. split; [done|]. destruct ok; repeat f_equal; lia.
Qed.

Lemma deploy_spec_witness :
  ∃ fs' st' s f,
    action_deploy Sample.env Sample.fs0 Sample.two_selected = (fs', st', Summary s f) ∧
    selected st' = ∅ ∧ s + f = 2.
Proof.
  assert (selected Sample.two_selected ≠ ∅) as Hne.
  { apply (non_empty_inhabited_L (Path.of_parts ["src"; "a.txt"])).
    apply elem_of_union_l, elem_of_singleton. reflexivity. }
  destruct (proj2 (deploy_spec Sample.env Sample.fs0 Sample.two_selected) Hne)
    as (fs' & st' & s & f & Hrun & _ & Hsel & Hsum & _).
  exists fs', st', s, f. split; [exact Hrun|]. split; [exact Hsel|].
  rewrite Hsum. vm_compute. reflexivity.
Defined.

(** ** The rename strategy *)

Lemma renamed_not_empty stem suffix k : renamed stem suffix k ≠ "".
Proof. unfold renamed. by destruct stem. Qed.

Lemma join_renamed (dir : path) stem suffix k :
  dir // renamed stem suffix k = renamed stem suffix k :: dir.
Proof. unfold Path.join. by rewrite decide_False by apply renamed_not_empty. Qed.

Lemma forallb_seq_range (f : nat → bool) a n :
  forallb f (seq a n) = true → ∀ k, a ≤ k < a + n → f k = true.
Proof.
  intros H k Hk. rewrite forallb_forall in H. apply H, in_seq. lia.
Qed.

Section permissions_frame.
Context (env : Env).

Lemma tree_set_file_ownership fs p r :
  tree (set_file_ownership_and_permissions (plat env) fs p r) = tree fs.
Proof.
  unfold set_file_ownership_and_permissions, os_chown, os_chmod.
  repeat case_match; simplify_eq; done.
Qed.

(** Applying a permission rule leaves the names of the tree alone. *)
Lemma tree_apply_permissions fs p : tree (apply_permissions env fs p) = tree fs.
Proof.
  unfold apply_permissions. case_match; [apply tree_set_file_ownership|done].
Qed.

End permissions_frame.

Section rename.
Context (fs : filesystem) (dir : path) (stem suffix : string).

Let cand (k : nat) : path := dir // renamed stem suffix k.

(** The loop of a file source stops at the first free candidate when it
    meets it before the cap. *)
Lemma find_name_first_free N : ∀ fuel counter link_path,
  present fs link_path = true →
  (∀ k, counter ≤ k < N → present fs (cand k) = true) →
  present fs (cand N) = false →
  counter ≤ N → N ≤ 998 → N - counter < fuel →
  find_name fuel fs dir stem suffix link_path counter = Some (cand N).
Proof.
  induction fuel as [|fuel IH]; intros counter link_path Hp Hk HN Hc HN' Hf; [lia|].
  simpl. rewrite Hp.
  destruct (Nat.ltb_spec 999 (S counter)) as [|_]; [lia|].
  destruct (decide (counter = N)) as [->|Hne].
  - fold (cand N). destruct fuel; simpl; by rewrite HN.
  - apply IH; [apply Hk; lia | intros k ?; apply Hk; lia | done | lia..].
Qed.

(** It gives up when the name and the candidates 1 to 998 are all
    taken, whatever the fuel. *)
Lemma find_name_cap : ∀ fuel counter link_path,
  present fs link_path = true →
  (∀ k, counter ≤ k ≤ 998 → present fs (cand k) = true) →
  find_name fuel fs dir stem suffix link_path counter = None.
Proof.
  induction fuel as [|fuel IH]; intros counter link_path Hp Hk; simpl; rewrite Hp; [done|].
  destruct (Nat.ltb_spec 999 (S counter)) as [|Hc]; [done|].
  apply IH; [apply Hk; lia|]. intros k ?. apply Hk. lia.
Qed.

(** Fuel beyond the cap changes nothing: the loop never runs dry. *)
Lemma find_name_fuel : ∀ fuel counter link_path,
  1000 ≤ fuel + counter →
  find_name (S fuel) fs dir stem suffix link_path counter
    = find_name fuel fs dir stem suffix link_path counter.
Proof.
  induction fuel as [|fuel IH]; intros counter link_path Hf.
  - simpl. destruct (present fs link_path); [|done].
    destruct (Nat.ltb_spec 999 (S counter)); [done|lia].
  - change (find_name (S (S fuel)) fs dir stem suffix link_path counter)
      with (if present fs link_path then
              if 999 <? S counter then None
              else find_name (S fuel) fs dir stem suffix (cand counter) (S counter)
            else Some link_path).
    rewrite IH by lia. done.
Qed.

(** The loop of the walk does the same below the cap, and leaves
    [all_success] as it was. *)
Lemma walk_find_name_first_free N all_success : ∀ fuel counter dest_file,
  present fs dest_file = true →
  (∀ k, counter ≤ k < N → present fs (cand k) = true) →
  present fs (cand N) = false →
  counter ≤ N → N ≤ 998 → N - counter < fuel →
  walk_find_name fuel fs dir stem suffix dest_file counter all_success
    = (cand N, all_success).
Proof.
  induction fuel as [|fuel IH]; intros counter dest_file Hp Hk HN Hc HN' Hf; [lia|].
  simpl. rewrite Hp.
  destruct (Nat.ltb_spec 999 (S counter)) as [|_]; [lia|].
  destruct (decide (counter = N)) as [->|Hne].
  - fold (cand N). destruct fuel; simpl; by rewrite HN.
  - apply IH; [apply Hk; lia | intros k ?; apply Hk; lia | done | lia..].
Qed.

(** Past the cap the loop of the walk does not stop: it clears
    [all_success] and still answers with the first free candidate. *)
Lemma walk_find_name_past_cap N all_success : ∀ fuel counter dest_file,
  present fs dest_file = true →
  (∀ k, counter ≤ k < N → present fs (cand k) = true) →
  present fs (cand N) = false →
  counter ≤ N → 999 ≤ N → N - counter < fuel →
  walk_find_name fuel fs dir stem suffix dest_file counter all_success
    = (cand N, false).
Proof.
  induction fuel as [|fuel IH]; intros counter dest_file Hp Hk HN Hc HN' Hf; [lia|].
  simpl. rewrite Hp.
  destruct (decide (counter = N)) as [->|Hne].
  - fold (cand N). destruct (Nat.ltb_spec 999 (S N)) as [_|]; [|lia].
    destruct fuel; simpl; by rewrite HN.
  - destruct (Nat.ltb_spec 999 (S counter)) as [Hbig|Hsmall].
    + clear IH. revert counter Hk Hc Hne Hf Hbig.
      induction fuel as [|fuel IH]; intros counter Hk Hc Hne Hf Hbig; [lia|].
      simpl. fold (cand counter). rewrite Hk by lia.
      destruct (Nat.ltb_spec 999 (S (S counter))) as [_|]; [|lia].
      destruct (decide (S counter = N)) as [<-|Hne'].
      * fold (cand (S counter)). destruct fuel; simpl; by rewrite HN.
      * apply IH; [intros k ?; apply Hk; lia | lia..].
    + apply IH; [apply Hk; lia | intros k ?; apply Hk; lia | done | lia..].
Qed.

End rename.

Lemma creatable_free pf fs n par :
  length par < path_max pf →
  lstat fs par = Ok Dir →
  present fs (n :: par) = false →
  creatable pf fs (n :: par) = Ok ().
Proof.
  intros Hlen Hpar Hfree. unfold creatable.
  destruct (Nat.ltb_spec (path_max pf) (length (n :: par))) as [H|_]; [simpl in H; lia|].
  rewrite Hpar. apply not_present_lstat in Hfree as [e He].
  rewrite lstat_cons, Hpar in He. by destruct (tree fs !! (n :: par)).
Qed.

Lemma is_file_lstat fs p :
  is_file fs p = true → ∃ nd, lstat fs p = Ok nd ∧ nd ≠ Dir.
Proof.
  intros H. unfold is_file, stat in H.
  destruct (follow MAXSYMLINKS fs p) as [[d nd]|] eqn:E; [|done].
  destruct nd; try done.
  apply follow_lstat_ok in E as Hl. destruct Hl as [nd Hl]. exists nd.
  split; [done|]. intros ->. rewrite (follow_dir _ _ _ Hl) in E. done.
Qed.

Lemma file_conflict_rename fs destination_dir link_path :
  present fs link_path = true →
  file_conflict fs destination_dir link_path "rename" =
    match find_name rename_fuel fs destination_dir
                    (Path.stem link_path) (Path.suffix link_path) link_path 1 with
    | Some link_path' => inr (fs, link_path')
    | None => inl (fs, false)
    end.
Proof. intros Hp. unfold file_conflict. rewrite Hp. reflexivity. Qed.

Lemma plan_file_rename dest_root file fs all_success :
  present fs (file :: dest_root) = true →
  plan_file "rename" dest_root file (fs, all_success) =
    let '(dest_file, all_success) :=
      walk_find_name (walk_rename_fuel fs) fs dest_root
                     (Path.stem (file :: dest_root)) (Path.suffix (file :: dest_root))
                     (file :: dest_root) 1 all_success in
    LinkAt fs dest_file all_success.
Proof. intros Hp. unfold plan_file. rewrite Hp. reflexivity. Qed.

(** A file source finding its name and the candidates 1 to 998 taken. *)
Lemma file_source_rename_cap env fs source destination_dir name :
  let link_path := destination_dir // link_name_of name source in
  let cand k := destination_dir // renamed (Path.stem link_path) (Path.suffix link_path) k in
  is_file fs source = true →
  is_dir fs destination_dir = true →
  present fs link_path = true →
  (∀ k, 1 ≤ k ≤ 998 → present fs (cand k) = true) →
  create_hardlink env fs source destination_dir name "rename" = (fs, false).
Proof.
  intros link_path cand Hfile Hdest Hp Hk.
  unfold create_hardlink.
  rewrite (is_file_exists _ _ Hfile), Hdest, (is_file_not_dir _ _ Hfile), Hfile. simpl.
  fold link_path. rewrite file_conflict_rename by done.
  by rewrite (find_name_cap fs destination_dir).
Qed.

(** C1, as the code has it.  On a tree within the limits of the file
    system, under [rename], for a file source and for a file met by the
    walk alike: when the destination name and its candidates ["name
    (1)"], ..., ["name (N-1)"] are taken and ["name (N)"] is free and not
    too long a name, with N at most 998, the link is made at ["name
    (N)"] and nothing else changes in the tree (the walk keeps its
    [all_success]).  For a file source, when the name and the candidates 1
    to 998 are all taken, the call answers [False] and the file system is
    the one it found. *)
Theorem rename_strategy (env : Env) (fs : filesystem) :
  within_limits fs →
  (∀ source destination_dir name N,
     let link_path := destination_dir // link_name_of name source in
     let cand k := destination_dir // renamed (Path.stem link_path) (Path.suffix link_path) k in
     is_file fs source = true →
     lstat fs destination_dir = Ok Dir →
     length destination_dir < path_max (plat env) →
     1 ≤ N ≤ 998 →
     present fs link_path = true →
     (∀ k, 1 ≤ k < N → present fs (cand k) = true) →
     present fs (cand N) = false →
     fits (cand N) = true →
     ∃ nd fs', lstat fs source = Ok nd ∧
       create_hardlink env fs source destination_dir name "rename" = (fs', true) ∧
       tree fs' = <[cand N := nd]> (tree fs)) ∧
  (∀ root dest_root file all_success nd N,
     let dest_file := file :: dest_root in
     let cand k := dest_root // renamed (Path.stem dest_file) (Path.suffix dest_file) k in
     lstat fs (file :: root) = Ok nd → nd ≠ Dir →
     length dest_root < path_max (plat env) →
     1 ≤ N ≤ 998 →
     present fs dest_file = true →
     (∀ k, 1 ≤ k < N → present fs (cand k) = true) →
     present fs (cand N) = false →
     fits (cand N) = true →
     ∃ fs', link_file env "rename" root dest_root (fs, all_success) file
              = (fs', all_success) ∧
       tree fs' = <[cand N := nd]> (tree fs)) ∧
  (∀ source destination_dir name,
     let link_path := destination_dir // link_name_of name source in
     let cand k := destination_dir // renamed (Path.stem link_path) (Path.suffix link_path) k in
     is_file fs source = true →
     is_dir fs destination_dir = true →
     present fs link_path = true →
     (∀ k, 1 ≤ k ≤ 998 → present fs (cand k) = true) →
     create_hardlink env fs source destination_dir name "rename" = (fs, false)).
Proof.
  intros _. split_and!.
  - intros source destination_dir name N link_path cand Hfile Hdest Hlen HN Hp Hk Hfree _.
    destruct (is_file_lstat _ _ Hfile) as (nd & Hnd & Hnodir).
    exists nd. eexists. split; [done|].
    unfold create_hardlink.
    rewrite (is_file_exists _ _ Hfile), (is_dir_lstat _ _ Hdest),
      (is_file_not_dir _ _ Hfile), Hfile. simpl.
    fold link_path. rewrite file_conflict_rename by done.
    rewrite (find_name_first_free fs destination_dir _ _ N) by (done || unfold rename_fuel; lia).
    unfold os_link. rewrite Hnd.
    fold (cand N). unfold cand in *. rewrite join_renamed in *.
    rewrite creatable_free by done.
    destruct nd; try done; (split; [reflexivity|]); by rewrite tree_apply_permissions.
  - intros root dest_root file all_success nd N dest_file cand Hnd Hnodir Hlen HN Hp Hk Hfree _.
    eexists. unfold link_file. rewrite plan_file_rename by done. fold dest_file.
    rewrite (walk_find_name_first_free fs dest_root _ _ N)
      by (done || unfold walk_rename_fuel; lia).
    assert (lstat fs dest_root = Ok Dir) as Hdest by by eapply present_parent.
    unfold os_link. rewrite Hnd.
    fold (cand N). unfold cand in *. rewrite join_renamed in *.
    rewrite creatable_free by done.
    destruct nd; try done; (split; [reflexivity|]); by rewrite tree_apply_permissions.
  - intros source destination_dir name. apply file_source_rename_cap.
Qed.

Lemma crowded_taken n k :
  (let fs := Sample.crowded n in
   forallb (λ k, present fs (Sample.a_numbered k)) (seq 1 n)) = true →
  1 ≤ k < S n → present (Sample.crowded n) (Sample.a_numbered k) = true.
Proof. cbv zeta. intros H Hk. apply (forallb_seq_range _ 1 n H). lia. Qed.

(** With ["a.txt"] and ["a (1).txt"] to ["a (998).txt"] taken, that is 999
    collisions, ["a (999).txt"] is free and yet the file source is not
    linked. *)
Lemma rename_strategy_counterexample :
  let fs := Sample.crowded 998 in
  is_file fs Sample.src_a = true ∧ is_dir fs Sample.dst = true ∧
  present fs (Sample.dst // "a.txt") = true ∧
  (∀ k, 1 ≤ k < 999 → present fs (Sample.a_numbered k) = true) ∧
  present fs (Sample.a_numbered 999) = false ∧
  create_hardlink Sample.env fs Sample.src_a Sample.dst None "rename" = (fs, false).
Proof.
  cbv zeta. split; [vm_compute; reflexivity|]. split; [vm_compute; reflexivity|].
  split; [vm_compute; reflexivity|].
  split; [intros k Hk; apply crowded_taken; [vm_compute; reflexivity|lia]|].
  split; [vm_compute; reflexivity|].
  apply file_source_rename_cap.
  - vm_compute; reflexivity.
  - vm_compute; reflexivity.
  - vm_compute; reflexivity.
  - intros k Hk. change (present (Sample.crowded 998) (Sample.a_numbered k) = true).
    apply crowded_taken; [vm_compute; reflexivity|lia].
Qed.

Lemma rename_strategy_witness :
  (∃ nd fs', lstat (Sample.crowded 2) Sample.src_a = Ok nd ∧
     create_hardlink Sample.env (Sample.crowded 2) Sample.src_a Sample.dst None "rename"
       = (fs', true) ∧
     tree fs' = <[Sample.a_numbered 3 := nd]> (tree (Sample.crowded 2))) ∧
  (∃ fs', link_file Sample.env "rename" (Path.of_parts ["src"]) Sample.dst
            (Sample.crowded 2, true) "a.txt" = (fs', true) ∧
     tree fs' = <[Sample.a_numbered 3 := File 1]> (tree (Sample.crowded 2))) ∧
  create_hardlink Sample.env (Sample.crowded 998) Sample.src_a Sample.dst None "rename"
    = (Sample.crowded 998, false).
Proof.
  assert (within_limits (Sample.crowded 2)) as L2
    by (apply within_limits_check_ok; vm_compute; reflexivity).
  assert (within_limits (Sample.crowded 998)) as L998
    by (apply within_limits_check_ok; vm_compute; reflexivity).
  split_and!.
  - apply (proj1 (rename_strategy Sample.env (Sample.crowded 2) L2)
             Sample.src_a Sample.dst None 3).
    + vm_compute; reflexivity.
    + vm_compute; reflexivity.
    + vm_compute; lia.
    + lia.
    + vm_compute; reflexivity.
    + intros k Hk. assert (k = 1 ∨ k = 2) as [-> | ->] by lia; vm_compute; reflexivity.
    + vm_compute; reflexivity.
    + vm_compute; reflexivity.
  - apply (proj1 (proj2 (rename_strategy Sample.env (Sample.crowded 2) L2))
             (Path.of_parts ["src"]) Sample.dst "a.txt" true (File 1) 3).
    + vm_compute; reflexivity.
    + discriminate.
    + vm_compute; lia.
    + lia.
    + vm_compute; reflexivity.
    + intros k Hk. assert (k = 1 ∨ k = 2) as [-> | ->] by lia; vm_compute; reflexivity.
    + vm_compute; reflexivity.
    + vm_compute; reflexivity.
  - apply (proj2 (proj2 (rename_strategy Sample.env (Sample.crowded 998) L998))
             Sample.src_a Sample.dst None).
    + vm_compute; reflexivity.
    + vm_compute; reflexivity.
    + vm_compute; reflexivity.
    + intros k Hk. change (present (Sample.crowded 998) (Sample.a_numbered k) = true).
      apply crowded_taken; [vm_compute; reflexivity|lia].
Defined.

(** ** Frames: what a lookup depends on *)

(** [lstat] reads the tree only at the path and at its ancestors. *)
Lemma lstat_frame (fs fs' : filesystem) (p : path) :
  (∀ q, q `suffix_of` p → tree fs' !! q = tree fs !! q) →
  lstat fs' p = lstat fs p.
Proof.
  induction p as [|n par IH]; intros H; [done|].
  rewrite !lstat_cons, IH, (H (n :: par)); [done..|].
  intros q Hq. apply H. by apply suffix_cons_r.
Qed.

Lemma suffix_sibling (e : path) (n m : string) (q : path) :
  q `suffix_of` (m :: e) → q = n :: e → n = m.
Proof.
  intros Hq ->. apply suffix_cons_inv in Hq as [E|Hq]; [congruence|].
  by apply suffix_cons_not in Hq.
Qed.

(** ** Directory listings *)

Lemma NoDup_omap_inj {A B} (f : A → option B) (l : list A) :
  (∀ x y z, f x = Some z → f y = Some z → x = y) →
  NoDup l → NoDup (omap f l).
Proof.
  intros Hinj. induction 1 as [|x l Hx Hl IH]; simpl; [constructor|].
  destruct (f x) as [z|] eqn:E; [|done].
  constructor; [|done]. intros (y & Hy & Ey)%list_elem_of_omap.
  by rewrite (Hinj _ _ _ E Ey) in Hx.
Qed.

Lemma name_under_Some d k n : name_under d k = Some n ↔ k = n :: d.
Proof.
  unfold name_under. destruct k as [|m par]; [done|].
  case_decide; split; intros; simplify_eq; done.
Qed.

Lemma elem_of_child_names fs d n :
  n ∈ child_names fs d ↔ is_Some (tree fs !! (n :: d)).
Proof.
  unfold child_names. rewrite list_elem_of_omap. split.
  - intros (k & Hk & ->%name_under_Some).
    apply list_elem_of_fmap in Hk as ([k' nd] & -> & Hk).
    apply elem_of_map_to_list in Hk. by exists nd.
  - intros [nd Hnd]. exists (n :: d). split; [|by apply name_under_Some].
    apply list_elem_of_fmap. exists (n :: d, nd). split; [done|].
    by apply elem_of_map_to_list.
Qed.

Lemma NoDup_child_names fs d : NoDup (child_names fs d).
Proof.
  apply NoDup_omap_inj; [|apply NoDup_fst_map_to_list].
  intros x y z ->%name_under_Some ->%name_under_Some. done.
Qed.

Lemma iterdir_dir pf fs e items_inside :
  lstat fs e = Ok Dir →
  iterdir pf fs e = Ok items_inside →
  items_inside = (λ n, n :: e) <$> child_names fs e.
Proof.
  intros He. unfold iterdir, listdir. destruct (path_max pf <? length e); [done|].
  rewrite (follow_dir _ _ _ He). by intros [= <-].
Qed.

Lemma iterdir_names pf fs e items_inside it :
  iterdir pf fs e = Ok items_inside → it ∈ items_inside → ∃ n, it = n :: e.
Proof.
  unfold iterdir. destruct (listdir pf fs e) as [[d names]|]; [|done].
  intros [= <-] (n & -> & _)%list_elem_of_fmap. by exists n.
Qed.

(** ** Deleting the entry under the cursor *)

Lemma only_hardlinks_true fs l :
  (∀ it, it ∈ l → is_dir fs it = false ∧ ∃ n, st_nlink fs it = Ok n ∧ 1 < n) →
  only_hardlinks fs l = Ok true.
Proof.
  induction l as [|it l IH]; intros H; simpl; [done|].
  destruct (H it) as (-> & n & -> & Hn); [by left|].
  destruct (Nat.leb_spec n 1); [lia|]. apply IH. intros it' ?. apply H. by right.
Qed.

Lemma only_hardlinks_refuses fs l it :
  it ∈ l →
  is_dir fs it = true ∨ (∃ n, st_nlink fs it = Ok n ∧ n ≤ 1) →
  only_hardlinks fs l ≠ Ok true.
Proof.
  induction l as [|it' l IH]; intros Hin Hbad; [by apply elem_of_nil in Hin|].
  simpl. destruct (is_dir fs it') eqn:Ed; [done|].
  destruct (st_nlink fs it') as [n|] eqn:En; [|done].
  destruct (Nat.leb_spec n 1) as [Hle|Hgt]; [done|].
  apply elem_of_cons in Hin as [->|Hin]; [|by apply IH].
  destruct Hbad as [?|(m & Hm & Hle)]; [congruence|]. rewrite En in Hm. injection Hm as ->. lia.
Qed.

Lemma st_nlink_lstat fs it n : st_nlink fs it = Ok n → ∃ nd, lstat fs it = Ok nd.
Proof.
  unfold st_nlink. destruct (follow MAXSYMLINKS fs it) eqn:E; [|done].
  intros _. by eapply follow_lstat_ok.
Qed.

Lemma not_dir_lstat fs it nd :
  lstat fs it = Ok nd → is_dir fs it = false → nd ≠ Dir.
Proof. intros E H ->. by rewrite (is_dir_lstat _ _ E) in H. Qed.

(** Unlinking entries of one directory, none of them a directory: each
    goes, and nothing else does. *)
Lemma unlink_all_siblings (e : path) : ∀ l fs,
  NoDup l →
  (∀ it, it ∈ l → ∃ n nd, it = n :: e ∧ lstat fs it = Ok nd ∧ nd ≠ Dir) →
  ∃ fs1, unlink_all fs l = (fs1, true) ∧
         owner fs1 = owner fs ∧ mode fs1 = mode fs ∧
         ∀ q, tree fs1 !! q = if decide (q ∈ l) then None else tree fs !! q.
Proof.
  induction l as [|it l IH]; intros fs Hnd Hl.
  - exists fs. by split_and!.
  - apply NoDup_cons in Hnd as [Hit Hnd].
    destruct (Hl it) as (n & nd & -> & Hnd_it & Hnodir); [by left|].
    simpl. unfold os_unlink. rewrite Hnd_it.
    set (fs' := with_tree fs (delete (n :: e) (tree fs))).
    destruct (IH fs' Hnd) as (fs1 & Hrun & Ho & Hm & Ht).
    { intros it Hin. destruct (Hl it) as (m & nd' & -> & Hm & Hnodir'); [by right|].
      exists m, nd'. split; [done|]. split; [|done]. rewrite <- Hm.
      apply lstat_frame. intros q Hq. simpl.
      apply lookup_delete_ne. intros <-.
      rewrite (suffix_sibling e n m _ Hq eq_refl) in Hit. done. }
    exists fs1. split; [by destruct nd|]. split; [done|]. split; [done|].
    intros q. rewrite Ht. simpl.
    destruct (decide (q ∈ l)) as [Hin|Hout].
    + rewrite decide_True; [done|by right].
    + destruct (decide (q = n :: e)) as [->|Hne].
      * rewrite decide_True by by left. apply lookup_delete_eq.
      * rewrite decide_False; [by apply lookup_delete_ne|].
        intros [?|?]%elem_of_cons; done.
Qed.

(** X22.  The entry under the cursor is a directory itself, not a link
    to one.  If it is not empty, holds no sub-directory and only files
    with more than one link, its entries are unlinked and the directory
    removed: these names leave the tree, every other name stays, and the
    listing is reloaded.  (The entry has a name: a listing never shows
    the root.)  If it holds a sub-directory or a file with at most one
    link, the file system and the browser state stay as they were. *)
Theorem delete_directory pf fs st entry items_inside :
  within_limits fs →
  (cursor_index st < Z.of_nat (length (items st)))%Z →
  py_index (items st) (cursor_index st) = Some entry →
  entry ≠ [] →
  is_symlink fs entry = false →
  is_file fs entry = false →
  is_dir fs entry = true →
  iterdir pf fs entry = Ok items_inside →
  (items_inside ≠ [] →
   (∀ it, it ∈ items_inside →
          is_dir fs it = false ∧ ∃ n, st_nlink fs it = Ok n ∧ 1 < n) →
   ∃ fs',
     action_delete_link pf fs st
       = (fs', load_directory pf fs' st (current_dir st) (Some (index_after_delete st)),
          false) ∧
     (∀ q, tree fs' !! q
           = if decide (q = entry ∨ q ∈ items_inside) then None else tree fs !! q) ∧
     owner fs' = owner fs ∧ mode fs' = mode fs) ∧
  ((∃ it, it ∈ items_inside ∧
          (is_dir fs it = true ∨ ∃ n, st_nlink fs it = Ok n ∧ n ≤ 1)) →
   ∃ bell, action_delete_link pf fs st = (fs, st, bell)).
Proof.
  intros _ Hcur Hentry Hnamed _ Hnofile Hdir Hiter.
  assert (items st ≠ []) as Hitems.
  { intros E. rewrite E in Hentry. unfold py_index in Hentry. simpl in Hentry.
    repeat case_match; done. }
  assert (action_delete_link pf fs st =
            match only_hardlinks fs items_inside with
            | Err _ => (fs, st, true)
            | Ok only =>
                if negb (bool_decide (items_inside = [])) && only then
                  match unlink_all fs items_inside with
                  | (fs1, true) =>
                      match os_rmdir fs1 entry with
                      | Ok fs2 =>
                          (fs2, load_directory pf fs2 st (current_dir st)
                                  (Some (index_after_delete st)), false)
                      | Err _ => (fs1, st, true)
                      end
                  | (fs1, false) => (fs1, st, true)
                  end
                else if negb (negb (bool_decide (items_inside = []))) then
                  match os_rmdir fs entry with
                  | Ok fs' =>
                      (fs', load_directory pf fs' st (current_dir st)
                              (Some (index_after_delete st)), false)
                  | Err _ => (fs, st, true)
                  end
                else (fs, st, false)
            end) as Hunfold.
  { unfold action_delete_link.
    rewrite bool_decide_eq_false_2 by done.
    rewrite (proj2 (Z.leb_gt _ _)) by lia. simpl.
    rewrite Hentry, Hnofile, Hdir, Hiter. done. }
  split.
  - intros Hne Hall.
    destruct items_inside as [|it0 rest] eqn:Eitems; [done|]. rewrite <- Eitems in *.
    destruct (Hall it0) as (_ & n0 & Hn0 & _); [rewrite Eitems; by left|].
    destruct (iterdir_names _ _ _ _ it0 Hiter) as [m0 ->]; [rewrite Eitems; by left|].
    apply st_nlink_lstat in Hn0 as [nd0 Hnd0].
    pose proof (lstat_parent _ _ _ _ Hnd0) as He.
    pose proof (iterdir_dir _ _ _ _ He Hiter) as Hnames.
    destruct (unlink_all_siblings entry items_inside fs) as (fs1 & Hrun & Ho & Hm & Ht).
    { rewrite Hnames. apply NoDup_fmap_2; [by intros ?? [=]|apply NoDup_child_names]. }
    { intros it Hin. destruct (iterdir_names _ _ _ _ it Hiter Hin) as [m ->].
      destruct (Hall _ Hin) as (Hnd & n & Hn & _).
      apply st_nlink_lstat in Hn as [nd Hl]. exists m, nd.
      split; [done|]. split; [done|]. by eapply not_dir_lstat. }
    assert (lstat fs1 entry = Ok Dir) as He1.
    { rewrite <- He. apply lstat_frame. intros q Hq. rewrite Ht.
      rewrite decide_False; [done|]. intros Hin.
      destruct (iterdir_names _ _ _ _ q Hiter Hin) as [m ->].
      by apply suffix_cons_not in Hq. }
    assert (child_names fs1 entry = []) as Hempty.
    { apply elem_of_nil_inv. intros m [nd Hm']%elem_of_child_names.
      rewrite Ht in Hm'. case_decide as Hin; [done|]. apply Hin.
      rewrite Hnames. apply (list_elem_of_fmap_2 (λ n : string, n :: entry)).
      apply elem_of_child_names. by exists nd. }
    exists (with_tree fs1 (delete entry (tree fs1))).
    split.
    + rewrite Hunfold.
      rewrite (only_hardlinks_true _ _ Hall), bool_decide_eq_false_2 by done.
      simpl. rewrite Hrun. unfold os_rmdir. rewrite He1, Hempty.
      by destruct entry.
    + split; [|done]. intros q. simpl.
      destruct (decide (q = entry)) as [->|Hq].
      * rewrite decide_True by by left. apply lookup_delete_eq.
      * rewrite lookup_delete_ne by done. rewrite Ht.
        destruct (decide (q ∈ items_inside)).
        -- rewrite decide_True; [done|by right].
        -- rewrite decide_False; [done|]. by intros [?|?].
  - intros (it & Hin & Hbad). rewrite Hunfold.
    pose proof (only_hardlinks_refuses _ _ _ Hin Hbad) as Hno.
    destruct (only_hardlinks fs items_inside) as [[]|]; [done| |by eexists].
    rewrite andb_false_r.
    rewrite bool_decide_eq_false_2; [by eexists|].
    intros ->. by apply elem_of_nil in Hin.
Qed.

Lemma delete_directory_witness :
  (∃ fs', (action_delete_link Sample.pf Sample.fs1 Sample.browsing_dst).1.1 = fs' ∧
          tree fs' !! Path.of_parts ["dst"; "shell"] = None ∧
          tree fs' !! Path.of_parts ["dst"; "shell"; "t1.flac"] = None ∧
          tree fs' !! Path.of_parts ["src"; "album"; "t1.flac"] = Some (File 2)) ∧
  (∃ bell, action_delete_link Sample.pf Sample.fs1 Sample.browsing_src
           = (Sample.fs1, Sample.browsing_src, bell)).
Proof.
  split.
  - destruct (proj1 (delete_directory Sample.pf Sample.fs1 Sample.browsing_dst
                       (Path.of_parts ["dst"; "shell"])
                       [Path.of_parts ["dst"; "shell"; "t2.flac"];
                        Path.of_parts ["dst"; "shell"; "t1.flac"]]
                       ltac:(apply within_limits_check_ok; vm_compute; reflexivity)
                       ltac:(vm_compute; reflexivity) ltac:(vm_compute; reflexivity)
                       ltac:(vm_compute; discriminate) ltac:(vm_compute; reflexivity)
                       ltac:(vm_compute; reflexivity)
                       ltac:(vm_compute; reflexivity) ltac:(vm_compute; reflexivity)))
      as (fs' & Hrun & Ht & _).
    + discriminate.
    + intros it Hin. apply elem_of_cons in Hin as [->|Hin];
        [|apply elem_of_cons in Hin as [->|Hin]; [|by apply elem_of_nil in Hin]];
        (split; [vm_compute; reflexivity|]); exists 2; (split; [vm_compute; reflexivity|lia]).
    + exists fs'. split; [rewrite Hrun; reflexivity|].
      split; [rewrite Ht; vm_compute; reflexivity|].
      split; rewrite Ht; vm_compute; reflexivity.
  - apply (proj2 (delete_directory Sample.pf Sample.fs1 Sample.browsing_src
                    (Path.of_parts ["src"; "album"])
                    [Path.of_parts ["src"; "album"; "art"];
                     Path.of_parts ["src"; "album"; "t2.flac"];
                     Path.of_parts ["src"; "album"; "t1.flac"]]
                    ltac:(apply within_limits_check_ok; vm_compute; reflexivity)
                    ltac:(vm_compute; reflexivity) ltac:(vm_compute; reflexivity)
                    ltac:(vm_compute; discriminate) ltac:(vm_compute; reflexivity)
                    ltac:(vm_compute; reflexivity)
                    ltac:(vm_compute; reflexivity) ltac:(vm_compute; reflexivity))).
    exists (Path.of_parts ["src"; "album"; "art"]). split.
    + apply elem_of_cons. by left.
    + left. vm_compute. reflexivity.
Defined.

(** ** Creating directories *)

Lemma is_dir_lstat_err fs p e : lstat fs p = Err e → is_dir fs p = false.
Proof. intros E. unfold is_dir, stat. by rewrite follow_unfold, E. Qed.

Lemma is_dir_under_non_dir fs n par :
  lstat fs par ≠ Ok Dir → is_dir fs (n :: par) = false.
Proof.
  intros H. destruct (lstat fs (n :: par)) as [nd|e] eqn:E.
  - by apply lstat_parent in E.
  - by eapply is_dir_lstat_err.
Qed.

(** In a well-formed tree every entry can be reached. *)
Lemma wf_lstat fs p nd : wf fs → tree fs !! p = Some nd → lstat fs p = Ok nd.
Proof.
  intros Hwf. revert nd. induction p as [|n par IH]; intros nd Hp.
  - by apply (map_Forall_lookup_1 _ _ _ _ Hwf) in Hp.
  - rewrite lstat_cons, Hp.
    apply (map_Forall_lookup_1 _ _ _ _ Hwf) in Hp as [->|Hpar]; [done|].
    by rewrite (IH _ Hpar).
Qed.

Section mkdir.
Context (pf : platform).

Lemma creatable_enoent fs n par :
  creatable pf fs (n :: par) = Err ENOENT → lstat fs par = Err ENOENT.
Proof.
  unfold creatable. destruct (path_max pf <? length (n :: par)); [done|].
  destruct (lstat fs par) as [[]|e]; try done.
  - by destruct (tree fs !! (n :: par)).
  - by intros [= ->].
Qed.

Lemma os_mkdir_made fs fs' n par :
  os_mkdir pf fs (n :: par) = Ok fs' →
  lstat fs par = Ok Dir ∧ tree fs !! (n :: par) = None ∧
  fs' = with_tree fs (<[n :: par := Dir]> (tree fs)).
Proof.
  unfold os_mkdir, creatable. destruct (path_max pf <? length (n :: par)); [done|].
  destruct (lstat fs par) as [[]|]; try done.
  destruct (tree fs !! (n :: par)); [done|]. by intros [= <-].
Qed.

Lemma lstat_after_insert fs n par nd :
  lstat fs par = Ok Dir →
  lstat (with_tree fs (<[n :: par := nd]> (tree fs))) (n :: par) = Ok nd.
Proof.
  intros Hpar. rewrite lstat_cons.
  rewrite (lstat_frame fs); [|].
  - rewrite Hpar. simpl. by rewrite lookup_insert_eq.
  - intros q Hq. simpl. apply lookup_insert_ne. intros <-.
    by apply suffix_cons_not in Hq.
Qed.

Lemma mkdir_parents_cons fs n par :
  mkdir_parents pf fs (n :: par) =
    match os_mkdir pf fs (n :: par) with
    | Ok fs' => (fs', true)
    | Err ENOENT =>
        let '(fs1, ok) := mkdir_parents pf fs par in
        if ok then mkdir_exist_ok pf fs1 (n :: par) else (fs1, false)
    | Err _ => (fs, is_dir fs (n :: par))
    end.
Proof. reflexivity. Qed.

(** A directory that is already there is accepted as it is. *)
Lemma mkdir_parents_existing fs p :
  lstat fs p = Ok Dir → mkdir_parents pf fs p = (fs, true).
Proof.
  intros Hp. pose proof (is_dir_lstat _ _ Hp) as Hd.
  destruct p as [|n par]; simpl; unfold os_mkdir, creatable.
  - destruct (path_max pf <? length (@nil string)); simpl; by rewrite ?Hd.
  - destruct (path_max pf <? length (n :: par)); [by rewrite Hd|].
    rewrite (lstat_parent _ _ _ _ Hp), (lstat_lookup _ _ _ _ Hp). by rewrite Hd.
Qed.

(** On a well-formed tree [mkdir(parents=True)] either fails before
    creating anything, or makes the missing directories and touches
    nothing outside the path. *)
Lemma mkdir_parents_spec fs : wf fs → ∀ p fs1 ok,
  mkdir_parents pf fs p = (fs1, ok) →
  (ok = false → fs1 = fs) ∧
  (ok = true → lstat fs p = Err ENOENT →
     lstat fs1 p = Ok Dir ∧
     ∀ q, ¬ q `suffix_of` p → tree fs1 !! q = tree fs !! q).
Proof.
  intros Hwf. induction p as [|n par IH]; intros fs1 ok.
  - simpl. unfold os_mkdir, creatable.
    destruct (path_max pf <? length (@nil string)); simpl; intros [= <- <-]; done.
  - rewrite mkdir_parents_cons.
    destruct (os_mkdir pf fs (n :: par)) as [fs'|e] eqn:Emk.
    + intros [= <- <-]. split; [done|]. intros _ _.
      apply os_mkdir_made in Emk as (Hpar & Hfree & ->).
      split; [by apply lstat_after_insert|].
      intros q Hq. simpl. apply lookup_insert_ne. intros <-. by apply Hq.
    + destruct (decide (e = ENOENT)) as [->|Hne].
      2: { destruct e; try done; intros [= <- <-]; (split; [done|]);
             intros Hd Herr; by rewrite (is_dir_lstat_err _ _ _ Herr) in Hd. }
      unfold os_mkdir in Emk.
      destruct (creatable pf fs (n :: par)) as [|e] eqn:Ec; [done|].
      injection Emk as ->.
      pose proof (creatable_enoent _ _ _ Ec) as Hpar.
      destruct (mkdir_parents pf fs par) as [fs0 ok0] eqn:Epar.
      destruct (IH fs0 ok0 eq_refl) as [Hfail Hmade].
      destruct ok0; [|intros [= <- <-]; split; [auto|done]].
      destruct (Hmade eq_refl Hpar) as [Hpar0 Hframe].
      assert (tree fs !! (n :: par) = None) as Hfree.
      { destruct (tree fs !! (n :: par)) as [nd|] eqn:E; [|done].
        apply (wf_lstat _ _ _ Hwf), lstat_parent in E. congruence. }
      assert (tree fs0 !! (n :: par) = None) as Hfree0.
      { rewrite Hframe; [done|]. apply suffix_cons_not. }
      assert (creatable pf fs0 (n :: par) = Ok ()) as Hc0.
      { revert Ec. unfold creatable.
        destruct (path_max pf <? length (n :: par)); [done|]. intros _.
        by rewrite Hpar0, Hfree0. }
      unfold mkdir_exist_ok, os_mkdir. rewrite Hc0. intros [= <- <-].
      split; [done|]. intros _ _. split; [by apply lstat_after_insert|].
      intros q Hq. simpl. rewrite lookup_insert_ne.
      * apply Hframe. intros Hq'. apply Hq. by apply suffix_cons_r.
      * intros <-. by apply Hq.
Qed.

Lemma mkdir_parents_fail_unchanged fs p fs1 :
  wf fs → mkdir_parents pf fs p = (fs1, false) → fs1 = fs.
Proof. intros Hwf H. by apply (mkdir_parents_spec fs Hwf p fs1 false H). Qed.

(** What cannot be made cannot have anything made under it. *)
Lemma mkdir_parents_blocked_child fs p fs1 n :
  wf fs →
  mkdir_parents pf fs p = (fs1, false) →
  mkdir_parents pf fs (n :: p) = (fs, false).
Proof.
  intros Hwf Hp.
  assert (lstat fs p ≠ Ok Dir) as Hnd.
  { intros E. rewrite (mkdir_parents_existing _ _ E) in Hp. done. }
  pose proof (is_dir_under_non_dir _ n _ Hnd) as Hd.
  pose proof (mkdir_parents_fail_unchanged _ _ _ Hwf Hp) as ->.
  rewrite mkdir_parents_cons, Hp.
  destruct (os_mkdir pf fs (n :: p)) as [fs'|e] eqn:Emk.
  - by apply os_mkdir_made in Emk as (? & _).
  - destruct e; by rewrite ?Hd.
Qed.

End mkdir.

(** ** The walk *)

Lemma dest_root_of_child source target top d :
  source `suffix_of` top →
  dest_root_of source target (d :: top) = d :: dest_root_of source target top.
Proof.
  intros Hs%suffix_length. unfold dest_root_of, Path.relative_to, Path.join_rel.
  simpl length. rewrite Nat.sub_succ_l by done. done.
Qed.

Lemma walk_S env conflict_strategy source target_dir_path depth top st :
  walk (S depth) env conflict_strategy source target_dir_path top st =
    match scandir (plat env) st.1 top with
    | Err _ => st
    | Ok (dirs, files) =>
        descend (walk depth env conflict_strategy source target_dir_path) top
                (visit env conflict_strategy source target_dir_path top files st) dirs
    end.
Proof. reflexivity. Qed.

(** ** Well-formed trees stay well-formed *)

Lemma wf_tree fs fs' : tree fs' = tree fs → wf fs → wf fs'.
Proof. unfold wf. by intros ->. Qed.

Lemma lstat_dir_lookup fs p :
  lstat fs p = Ok Dir → p = [] ∨ tree fs !! p = Some Dir.
Proof. destruct p as [|n par]; [by left|]. right. by eapply lstat_lookup. Qed.

Lemma wf_insert fs n par nd :
  wf fs → lstat fs par = Ok Dir → tree fs !! (n :: par) = None →
  wf (with_tree fs (<[n :: par := nd]> (tree fs))).
Proof.
  intros Hwf Hpar Hfree p x. simpl. intros Hp.
  assert (∀ q, q = [] ∨ tree fs !! q = Some Dir →
               q = [] ∨ <[n :: par := nd]> (tree fs) !! q = Some Dir) as Hkeep.
  { intros q [->|Hq]; [by left|]. right.
    rewrite lookup_insert_ne; [done|]. intros <-. congruence. }
  destruct (decide (p = n :: par)) as [->|Hne].
  - apply Hkeep. by apply lstat_dir_lookup.
  - rewrite lookup_insert_ne in Hp by done.
    pose proof (map_Forall_lookup_1 _ _ _ _ Hwf Hp) as H.
    destruct p as [|m q]; [done|]. by apply Hkeep.
Qed.

Lemma wf_delete fs p :
  wf fs → (∀ m, tree fs !! (m :: p) = None) →
  wf (with_tree fs (delete p (tree fs))).
Proof.
  intros Hwf Hleaf q x. simpl. intros Hq.
  apply lookup_delete_Some in Hq as [Hne Hq].
  pose proof (map_Forall_lookup_1 _ _ _ _ Hwf Hq) as H.
  destruct q as [|m par]; [done|]. destruct H as [->|Hpar]; [by left|]. right.
  rewrite lookup_delete_ne; [done|]. intros <-. by rewrite Hleaf in Hq.
Qed.

Lemma wf_no_children fs p nd :
  wf fs → lstat fs p = Ok nd → nd ≠ Dir → ∀ m, tree fs !! (m :: p) = None.
Proof.
  intros Hwf Hp Hnd m.
  destruct (tree fs !! (m :: p)) as [x|] eqn:E; [|done].
  apply (wf_lstat _ _ _ Hwf), lstat_parent in E. congruence.
Qed.

Lemma wf_os_unlink fs p fs' : wf fs → os_unlink fs p = Ok fs' → wf fs'.
Proof.
  intros Hwf. unfold os_unlink. destruct (lstat fs p) as [nd|] eqn:E; [|done].
  destruct nd; try done; intros [= <-];
    apply wf_delete; try done; by eapply wf_no_children.
Qed.

Lemma wf_os_rmdir fs p fs' : wf fs → os_rmdir fs p = Ok fs' → wf fs'.
Proof.
  intros Hwf. unfold os_rmdir. destruct p as [|n par]; [done|].
  destruct (lstat fs (n :: par)) as [[]|]; try done.
  destruct (child_names fs (n :: par)) eqn:E; [|done]. intros [= <-].
  apply wf_delete; [done|]. intros m.
  destruct (tree fs !! (m :: n :: par)) as [x|] eqn:Em; [|done].
  assert (m ∈ child_names fs (n :: par)) as Hin by (apply elem_of_child_names; eauto).
  rewrite E in Hin. by apply elem_of_nil in Hin.
Qed.

Lemma wf_rmtree fs p fs' : wf fs → rmtree fs p = Ok fs' → wf fs'.
Proof.
  intros Hwf. unfold rmtree. destruct p as [|n par]; [done|].
  destruct (lstat fs (n :: par)) as [[]|]; try done. intros [= <-].
  intros q x. simpl. intros [Hq Hout]%map_lookup_filter_Some. simpl in Hout.
  pose proof (map_Forall_lookup_1 _ _ _ _ Hwf Hq) as H.
  destruct q as [|m q]; [done|]. destruct H as [->|Hpar]; [by left|]. right.
  apply map_lookup_filter_Some. split; [done|]. simpl.
  intros Hs. apply Hout. by apply suffix_cons_r.
Qed.

Section wf_operations.
Context (env : Env).

Lemma wf_os_mkdir fs p fs' : wf fs → os_mkdir (plat env) fs p = Ok fs' → wf fs'.
Proof.
  intros Hwf H. destruct p as [|n par].
  - revert H. unfold os_mkdir, creatable.
    by destruct (path_max (plat env) <? length (@nil string)).
  - apply os_mkdir_made in H as (Hpar & Hfree & ->). by apply wf_insert.
Qed.

Lemma wf_mkdir_exist_ok fs p : wf fs → wf (mkdir_exist_ok (plat env) fs p).1.
Proof.
  intros Hwf. unfold mkdir_exist_ok.
  destruct (os_mkdir (plat env) fs p) as [fs'|e] eqn:E; [exact (wf_os_mkdir _ _ _ Hwf E)|].
  by destruct e.
Qed.

Lemma wf_mkdir_parents fs p : wf fs → wf (mkdir_parents (plat env) fs p).1.
Proof.
  intros Hwf. induction p as [|n par IH].
  - cbn [mkdir_parents].
    destruct (os_mkdir (plat env) fs []) as [fs'|e] eqn:E; [exact (wf_os_mkdir _ _ _ Hwf E)|].
    by destruct e.
  - rewrite mkdir_parents_cons.
    destruct (os_mkdir (plat env) fs (n :: par)) as [fs'|e] eqn:E;
      [exact (wf_os_mkdir _ _ _ Hwf E)|].
    destruct e; try done.
    destruct (mkdir_parents (plat env) fs par) as [fs1 []]; [|done].
    by apply wf_mkdir_exist_ok.
Qed.

Lemma wf_os_link fs src dst fs' : wf fs → os_link (plat env) fs src dst = Ok fs' → wf fs'.
Proof.
  intros Hwf. unfold os_link. destruct (lstat fs src) as [nd|]; [|done].
  assert (∀ nd', match creatable (plat env) fs dst with
                 | Ok _ => Ok (with_tree fs (<[dst := nd']> (tree fs)))
                 | Err e => Err e
                 end = Ok fs' → wf fs') as H.
  { intros nd'. unfold creatable.
    destruct (path_max (plat env) <? length dst); [done|].
    destruct dst as [|n par]; [done|].
    destruct (lstat fs par) as [[]|] eqn:Epar; try done.
    destruct (tree fs !! (n :: par)) eqn:Efree; [done|]. intros [= <-].
    by apply wf_insert. }
  destruct nd; [apply H|done|apply H].
Qed.

Lemma wf_apply_permissions fs p : wf fs → wf (apply_permissions env fs p).
Proof. apply wf_tree, tree_apply_permissions. Qed.

Lemma wf_remove_existing fs p fs' : wf fs → remove_existing fs p = Ok fs' → wf fs'.
Proof.
  intros Hwf. unfold remove_existing.
  destruct (is_dir fs p && negb (is_symlink fs p));
    [by apply wf_rmtree|by apply wf_os_unlink].
Qed.

Context (conflict_strategy : string) (source target_dir_path : path).

Lemma wf_link_file root dest_root st file :
  wf st.1 → wf (link_file env conflict_strategy root dest_root st file).1.
Proof.
  destruct st as [fs all_success]. simpl. intros Hwf.
  assert (∀ fs1 dest_file flag, wf fs1 →
            wf (match os_link (plat env) fs1 (file :: root) dest_file with
                | Ok fs2 => (apply_permissions env fs2 dest_file, flag)
                | Err _ => (fs1, false)
                end).1) as Hlink.
  { intros fs1 dest_file flag Hwf1.
    destruct (os_link (plat env) fs1 (file :: root) dest_file) eqn:E; [|done].
    simpl. apply wf_apply_permissions. by eapply wf_os_link. }
  unfold link_file, plan_file.
  destruct (present fs (file :: dest_root)); [|by apply Hlink].
  repeat case_decide; try done; try by apply Hlink.
  - destruct (remove_existing fs (file :: dest_root)) eqn:E; [|done].
    apply Hlink. by eapply wf_remove_existing.
  - destruct (walk_find_name _ _ _ _ _ _ _ _). by apply Hlink.
Qed.

Lemma wf_visit top files st :
  wf st.1 → wf (visit env conflict_strategy source target_dir_path top files st).1.
Proof.
  destruct st as [fs all_success]. simpl. intros Hwf. unfold visit.
  pose proof (wf_mkdir_parents fs (dest_root_of source target_dir_path top) Hwf) as Hmk.
  destruct (mkdir_parents _ _ _) as [fs1 []]; [|done]. simpl in Hmk.
  assert (∀ st', wf st'.1 →
            wf (foldl (link_file env conflict_strategy top
                         (dest_root_of source target_dir_path top)) st' files).1) as H.
  { induction files as [|f files IH]; intros st' Hst'; [done|].
    simpl. apply IH. by apply wf_link_file. }
  apply H. simpl. by apply wf_apply_permissions.
Qed.

Lemma wf_descend (walk_from : path → filesystem * bool → filesystem * bool) top dirs :
  (∀ p st, wf st.1 → wf (walk_from p st).1) →
  ∀ st, wf st.1 → wf (descend walk_from top st dirs).1.
Proof.
  intros Hw. unfold descend. induction dirs as [|d dirs IH]; intros st Hst; [done|].
  simpl. apply IH. destruct (is_symlink st.1 (d :: top)); [done|by apply Hw].
Qed.

(** The walk keeps the tree well-formed. *)
Lemma wf_walk depth : ∀ top st,
  wf st.1 → wf (walk depth env conflict_strategy source target_dir_path top st).1.
Proof.
  induction depth as [|depth IH]; intros top st Hst; [done|].
  rewrite walk_S. destruct (scandir (plat env) st.1 top) as [[dirs files]|]; [|done].
  apply wf_descend; [done|]. by apply wf_visit.
Qed.

End wf_operations.

(** [create_hardlink] keeps the tree well-formed. *)
Lemma wf_create_hardlink env fs source destination_dir name conflict_strategy :
  wf fs →
  wf (create_hardlink env fs source destination_dir name conflict_strategy).1.
Proof.
  intros Hwf. unfold create_hardlink.
  destruct (negb (exists_ fs source)); [done|].
  destruct (negb (is_dir fs destination_dir)); [done|].
  destruct (is_dir fs source).
  - unfold top_level_conflict.
    destruct (exists_ fs _); [|by apply wf_walk].
    repeat case_decide; try done; try by apply wf_walk.
    destruct (if is_symlink fs _ then _ else _) as [fs'|] eqn:E; [|done].
    apply wf_walk. simpl.
    destruct (is_symlink fs _); [by eapply wf_os_unlink|].
    destruct (is_dir fs _); [by eapply wf_rmtree|by eapply wf_os_unlink].
  - destruct (is_file fs source); [|done].
    unfold file_conflict.
    assert (∀ fs1 p, wf fs1 →
              wf (match os_link (plat env) fs1 source p with
                  | Ok fs2 => (apply_permissions env fs2 p, true)
                  | Err _ => (fs1, false)
                  end).1) as Hlink.
    { intros fs1 p Hwf1. destruct (os_link (plat env) fs1 source p) eqn:E; [|done].
      simpl. apply wf_apply_permissions. by eapply wf_os_link. }
    destruct (present fs _); [|by apply Hlink].
    repeat case_decide; try done.
    + destruct (remove_existing fs _) eqn:E; [|done].
      apply Hlink. by eapply wf_remove_existing.
    + destruct (find_name _ _ _ _ _ _ _); [by apply Hlink|done].
Qed.

(** ** What a failed directory costs the walk *)

Section walk.
Context (env : Env) (conflict_strategy : string) (source target_dir_path : path).

Let walk_from (depth : nat) := walk depth env conflict_strategy source target_dir_path.

Lemma visit_blocked top files fs all_success fs1 :
  mkdir_parents (plat env) fs (dest_root_of source target_dir_path top) = (fs1, false) →
  visit env conflict_strategy source target_dir_path top files (fs, all_success)
    = (fs1, false).
Proof. intros H. unfold visit. by rewrite H. Qed.

(** Under a directory that cannot be made at the destination the walk
    changes nothing, and it reports a failure once it has read the
    source directory. *)
Lemma walk_blocked : ∀ depth top fs all_success fs1,
  wf fs →
  source `suffix_of` top →
  mkdir_parents (plat env) fs (dest_root_of source target_dir_path top) = (fs1, false) →
  ∃ all_success',
    walk_from depth top (fs, all_success) = (fs, all_success') ∧
    (all_success = false → all_success' = false) ∧
    (depth ≠ 0 → (∃ r, scandir (plat env) fs top = Ok r) → all_success' = false).
Proof.
  induction depth as [|depth IH]; intros top fs all_success fs1 Hwf Hsrc Hmk.
  - exists all_success. by split_and!.
  - unfold walk_from. rewrite walk_S. cbn [fst]. fold (walk_from depth).
    destruct (scandir (plat env) fs top) as [[dirs files]|e] eqn:Escan.
    2: { exists all_success. split_and!; try done. by intros _ [r ?]. }
    rewrite (visit_blocked _ _ _ _ _ Hmk).
    pose proof (mkdir_parents_fail_unchanged _ _ _ _ Hwf Hmk) as ->.
    exists false. split_and!; try done.
    clear Escan. induction dirs as [|d dirs IHd]; [done|].
    simpl. destruct (is_symlink fs (d :: top)); [done|].
    destruct (IH (d :: top) fs false fs) as (flag & -> & Hflag & _);
      [done|by apply suffix_cons_r| |by rewrite Hflag].
    rewrite dest_root_of_child by done.
    by eapply mkdir_parents_blocked_child.
Qed.

(** While the walk goes through the sub-directories [before ++ d ::
    after] of [top], starting from a well-formed tree: if, when it comes
    to [d], the directory for [d] cannot be made at the destination,
    then walking [d] leaves the file system exactly as it was and
    records the failure, and the walk goes on with [after] from that
    same file system. *)
Lemma failed_subdirectory_unchanged depth top st before d after :
  let st1 := descend (walk_from depth) top st before in
  wf st.1 →
  source `suffix_of` top →
  is_symlink st1.1 (d :: top) = false →
  (mkdir_parents (plat env) st1.1
     (dest_root_of source target_dir_path (d :: top))).2 = false →
  ∃ all_success',
    walk_from depth (d :: top) st1 = (st1.1, all_success') ∧
    (depth ≠ 0 → (∃ r, scandir (plat env) st1.1 (d :: top) = Ok r) →
       all_success' = false) ∧
    descend (walk_from depth) top st (before ++ d :: after)
      = descend (walk_from depth) top (st1.1, all_success') after.
Proof.
  intros st1 Hwf0 Hsrc Hlink Hmk.
  assert (wf st1.1) as Hwf.
  { apply wf_descend; [|done]. intros p st'. apply wf_walk. }
  assert (descend (walk_from depth) top st (before ++ d :: after)
          = descend (walk_from depth) top
              (if is_symlink st1.1 (d :: top) then st1
               else walk_from depth (d :: top) st1) after) as Hdesc.
  { unfold descend. by rewrite foldl_app. }
  rewrite Hlink in Hdesc. rewrite Hdesc.
  clearbody st1. destruct st1 as [fs all_success]. cbn [fst] in *.
  destruct (mkdir_parents (plat env) fs
              (dest_root_of source target_dir_path (d :: top))) as [fs1 ok] eqn:E.
  cbn [snd] in Hmk. subst ok.
  destruct (walk_blocked depth (d :: top) fs all_success fs1)
    as (flag & Hwalk & _ & Hflag); [done|by apply suffix_cons_r|done|].
  exists flag. rewrite Hwalk. done.
Qed.

End walk.

Lemma wf_check_ok fs : wf_check fs = true → wf fs.
Proof.
  unfold wf_check, wf. rewrite forallb_forall. intros H p nd Hp.
  assert (In (p, nd) (map_to_list (tree fs))) as Hin
    by by apply list_elem_of_In, elem_of_map_to_list.
  specialize (H (p, nd) Hin). simpl in H.
  destruct p as [|n par]; [done|].
  destruct (decide (par = [])) as [->|Hne]; [by left|]. right.
  rewrite bool_decide_eq_false_2 in H by done. simpl in H.
  by apply bool_decide_eq_true in H.
Qed.


(** ** The bounds of the model are never met *)

Lemma string_length_app (s r : string) :
  String.length (s +:+ r) = String.length s + String.length r.
Proof. induction s as [|c s IH]; simpl; [done|]. by rewrite IH. Qed.

Lemma string_app_inj_r (r s1 s2 : string) : s1 +:+ r = s2 +:+ r → s1 = s2.
Proof.
  revert s2. induction s1 as [|c s1 IH]; intros [|c2 s2] E.
  - done.
  - apply (f_equal String.length) in E.
    rewrite !string_length_app in E. simpl in E. lia.
  - apply (f_equal String.length) in E.
    rewrite !string_length_app in E. simpl in E. lia.
  - simpl in E. injection E as -> E. by rewrite (IH _ E).
Qed.

Lemma renamed_inj stem suffix k1 k2 :
  renamed stem suffix k1 = renamed stem suffix k2 → k1 = k2.
Proof.
  unfold renamed. intros E.
  apply (inj (String.app stem)), (inj (String.app " (")) in E.
  by apply string_app_inj_r, (inj pretty) in E.
Qed.

Section walk_rename_total.
Context (fs : filesystem) (dir : path) (stem suffix : string).

Let cand (k : nat) : path := dir // renamed stem suffix k.

(** Among more candidates than the tree has entries one is free. *)
Lemma free_candidate :
  ∃ N, 1 ≤ N ≤ S (size (tree fs)) ∧ present fs (cand N) = false.
Proof.
  set (n := S (size (tree fs))).
  destruct (decide (Exists (λ k, present fs (cand k) = false) (seq 1 n)))
    as [(N & HN%elem_of_seq & Hfree)%Exists_exists|Hall].
  { exists N. split; [lia|done]. }
  exfalso. apply not_Exists_Forall in Hall; [|apply _].
  rewrite Forall_forall in Hall.
  assert (length (cand <$> seq 1 n) ≤ length (map_to_list (tree fs)).*1) as Hlen.
  { apply submseteq_length, NoDup_submseteq.
    - apply NoDup_fmap_2_strong; [|apply NoDup_seq].
      intros k1 k2 _ _. unfold cand. rewrite !join_renamed.
      intros [= E]. by apply renamed_inj in E.
    - intros p (k & -> & Hk)%list_elem_of_fmap.
      specialize (Hall k Hk). simpl in Hall.
      apply not_false_is_true, present_lstat in Hall as [nd Hnd].
      unfold cand in *. rewrite join_renamed in *.
      apply lstat_lookup in Hnd.
      apply list_elem_of_fmap. exists (renamed stem suffix k :: dir, nd).
      split; [done|]. by apply elem_of_map_to_list. }
  rewrite !length_fmap, length_seq, length_map_to_list in Hlen. unfold n in Hlen. lia.
Qed.

Lemma walk_find_name_reaches N : ∀ fuel counter dest_file all_success,
  counter ≤ N → N - counter < fuel →
  present fs (cand N) = false →
  present fs (walk_find_name fuel fs dir stem suffix dest_file counter all_success).1
    = false.
Proof.
  induction fuel as [|fuel IH]; intros counter dest_file all_success Hc Hf HN; [lia|].
  simpl. destruct (present fs dest_file) eqn:Hp; [|done].
  destruct (decide (counter = N)) as [->|Hne].
  - fold (cand N). destruct fuel; simpl; by rewrite HN.
  - apply IH; [lia..|done].
Qed.

(** The loop of the walk always ends on a free name: its fuel never
    runs out. *)
Lemma walk_find_name_free dest_file all_success :
  present fs (walk_find_name (walk_rename_fuel fs) fs dir stem suffix
                             dest_file 1 all_success).1 = false.
Proof.
  destruct free_candidate as (N & HN & Hfree).
  apply (walk_find_name_reaches N); [lia| |done].
  unfold walk_rename_fuel. lia.
Qed.

End walk_rename_total.

Section walk_depth.
Context (env : Env) (conflict_strategy : string) (source target_dir_path : path).

Lemma descend_ext (f g : path → filesystem * bool → filesystem * bool) top dirs :
  (∀ d st, f (d :: top) st = g (d :: top) st) →
  ∀ st, descend f top st dirs = descend g top st dirs.
Proof.
  intros Hfg. unfold descend. induction dirs as [|d dirs IH]; intros st; simpl; [done|].
  rewrite Hfg. apply IH.
Qed.

(** A walk deep enough to pass the longest path the platform accepts
    gains nothing from going deeper: [listdir] refuses the path first. *)
Lemma walk_depth_enough : ∀ depth top st,
  path_max (plat env) < depth + length top →
  walk (S depth) env conflict_strategy source target_dir_path top st
    = walk depth env conflict_strategy source target_dir_path top st.
Proof.
  induction depth as [|depth IH]; intros top st Hlen.
  - simpl. unfold scandir, listdir.
    destruct (Nat.ltb_spec (path_max (plat env)) (length top)); [done|]. simpl in Hlen. lia.
  - rewrite !walk_S.
    destruct (scandir (plat env) st.1 top) as [[dirs files]|]; [|done].
    apply descend_ext. intros d st'. apply IH. simpl. lia.
Qed.

(** So the depth [create_hardlink] gives the walk is all it needs. *)
Lemma walk_depth_stable extra st :
  walk (walk_depth (plat env) source + extra) env conflict_strategy
       source target_dir_path source st
    = walk (walk_depth (plat env) source) env conflict_strategy
           source target_dir_path source st.
Proof.
  induction extra as [|extra IH]; [by rewrite Nat.add_0_r|].
  rewrite Nat.add_succ_r, walk_depth_enough; [done|].
  unfold walk_depth. lia.
Qed.

End walk_depth.

(** Inside the walk the cap does not stop the renaming: with 999
    collisions the file is linked at ["a (999).txt"] all the same, and
    only [all_success] records that the cap was passed. *)
Example walk_rename_past_cap :
  let r := link_file Sample.env "rename" (Path.of_parts ["src"]) Sample.dst
             (Sample.crowded 998, true) "a.txt" in
  present r.1 (Sample.a_numbered 999) = true ∧ r.2 = false.
Proof. vm_compute. done. Qed.

(** ** A run of the whole engine *)

(** Mirroring ["/src/album"] into the empty directory ["/dst/album"]:
    the call answers [True], the sub-directory is made, and every file is
    a second name of its source. *)
Example mirror_album :
  let r := create_hardlink Sample.env Sample.fs0 Sample.album Sample.dst_album
             None "rename" in
  r.2 = true ∧
  tree r.1 !! Path.of_parts ["dst"; "album"; "album"; "t1.flac"] = Some (File 2) ∧
  tree r.1 !! Path.of_parts ["dst"; "album"; "album"; "art"] = Some Dir ∧
  tree r.1 !! Path.of_parts ["dst"; "album"; "album"; "art"; "c.jpg"] = Some (File 3) ∧
  st_nlink r.1 (Path.of_parts ["src"; "album"; "art"; "c.jpg"]) = Ok 2 ∧
  size (tree r.1) = size (tree Sample.fs0) + 5.
Proof. vm_compute. done. Qed.

(** * More of the engine *)

(** ** Trees that only grow *)

Section growth.
Context (fs fs' : filesystem) (Hsub : tree fs ⊆ tree fs').

Lemma lstat_grows p nd : lstat fs p = Ok nd → lstat fs' p = Ok nd.
Proof.
  revert nd. induction p as [|n par IH]; intros nd; [done|].
  rewrite !lstat_cons. destruct (lstat fs par) as [[]|] eqn:E; try done.
  rewrite (IH Dir eq_refl).
  destruct (tree fs !! (n :: par)) as [x|] eqn:Ex; [|done].
  intros [= <-]. by rewrite (lookup_weaken _ _ _ _ Ex Hsub).
Qed.

Lemma follow_grows hops p r : follow hops fs p = Ok r → follow hops fs' p = Ok r.
Proof.
  revert p. induction hops as [|h IH]; intros p; rewrite !follow_unfold;
    destruct (lstat fs p) as [nd|] eqn:E; try done;
    rewrite (lstat_grows _ _ E); destruct nd; try done. apply IH.
Qed.

Lemma is_dir_grows p : is_dir fs p = true → is_dir fs' p = true.
Proof.
  unfold is_dir, stat. destruct (follow MAXSYMLINKS fs p) as [[d nd]|] eqn:E; [|done].
  by rewrite (follow_grows _ _ _ E).
Qed.

Lemma is_file_grows p : is_file fs p = true → is_file fs' p = true.
Proof.
  unfold is_file, stat. destruct (follow MAXSYMLINKS fs p) as [[d nd]|] eqn:E; [|done].
  by rewrite (follow_grows _ _ _ E).
Qed.

Lemma present_grows p : present fs p = true → present fs' p = true.
Proof.
  rewrite !present_lstat. intros [nd H]. exists nd. by apply lstat_grows.
Qed.

End growth.

Lemma insert_fresh_grows fs k nd :
  tree fs !! k = None → tree fs ⊆ tree (with_tree fs (<[k := nd]> (tree fs))).
Proof. intros H. simpl. by apply insert_subseteq. Qed.

Lemma creatable_fresh pf fs p : creatable pf fs p = Ok () → tree fs !! p = None.
Proof.
  unfold creatable. destruct (path_max pf <? length p); [done|].
  destruct p as [|n par]; [done|].
  destruct (lstat fs par) as [[]|]; try done.
  by destruct (tree fs !! (n :: par)).
Qed.

Section never_clobbers.
Context (env : Env).

Lemma os_mkdir_grows fs p fs' : os_mkdir (plat env) fs p = Ok fs' → tree fs ⊆ tree fs'.
Proof.
  unfold os_mkdir. destruct (creatable (plat env) fs p) as [[]|] eqn:E; [|done].
  intros [= <-]. apply insert_fresh_grows. by eapply creatable_fresh.
Qed.

Lemma mkdir_exist_ok_grows fs p : tree fs ⊆ tree (mkdir_exist_ok (plat env) fs p).1.
Proof.
  unfold mkdir_exist_ok. destruct (os_mkdir (plat env) fs p) as [fs'|e] eqn:E.
  - simpl. by eapply os_mkdir_grows.
  - by destruct e.
Qed.

Lemma mkdir_parents_grows fs p : tree fs ⊆ tree (mkdir_parents (plat env) fs p).1.
Proof.
  induction p as [|n par IH].
  - cbn [mkdir_parents]. destruct (os_mkdir (plat env) fs []) as [fs'|e] eqn:E.
    + simpl. by eapply os_mkdir_grows.
    + by destruct e.
  - rewrite mkdir_parents_cons.
    destruct (os_mkdir (plat env) fs (n :: par)) as [fs'|e] eqn:E.
    + simpl. by eapply os_mkdir_grows.
    + destruct e; try done.
      destruct (mkdir_parents (plat env) fs par) as [fs1 []]; [|done].
      simpl in IH. etrans; [exact IH|apply mkdir_exist_ok_grows].
Qed.

Lemma os_link_grows fs src dst fs' :
  os_link (plat env) fs src dst = Ok fs' → tree fs ⊆ tree fs'.
Proof.
  unfold os_link. destruct (lstat fs src) as [nd|]; [|done].
  destruct (creatable (plat env) fs dst) as [[]|] eqn:E; [|by destruct nd].
  apply creatable_fresh in E.
  destruct nd; try done; intros [= <-]; by apply insert_fresh_grows.
Qed.

Lemma link_then_permissions_grows fs src dst flag :
  tree fs ⊆ tree (match os_link (plat env) fs src dst with
                  | Ok fs1 => (apply_permissions env fs1 dst, flag)
                  | Err _ => (fs, false)
                  end).1.
Proof.
  destruct (os_link (plat env) fs src dst) as [fs1|] eqn:E; [|done].
  simpl. rewrite tree_apply_permissions. by eapply os_link_grows.
Qed.

Context (conflict_strategy : string) (Hno : conflict_strategy ≠ "overwrite").
Context (source target_dir_path : path).

Lemma link_file_grows root dest_root st file :
  tree st.1 ⊆ tree (link_file env conflict_strategy root dest_root st file).1.
Proof.
  destruct st as [fs all_success]. simpl. unfold link_file, plan_file.
  destruct (present fs (file :: dest_root)); [|apply link_then_permissions_grows].
  repeat case_decide; try done; try apply link_then_permissions_grows.
  destruct (walk_find_name _ _ _ _ _ _ _ _). apply link_then_permissions_grows.
Qed.

Lemma visit_grows top files st :
  tree st.1 ⊆ tree (visit env conflict_strategy source target_dir_path top files st).1.
Proof.
  destruct st as [fs all_success]. simpl. unfold visit.
  pose proof (mkdir_parents_grows fs (dest_root_of source target_dir_path top)) as Hmk.
  destruct (mkdir_parents _ _ _) as [fs1 []]; [|done]. simpl in Hmk.
  assert (∀ st', tree st'.1 ⊆
            tree (foldl (link_file env conflict_strategy top
                           (dest_root_of source target_dir_path top)) st' files).1) as H.
  { induction files as [|f files IH]; intros st'; [done|].
    simpl. etrans; [apply link_file_grows|apply IH]. }
  etrans; [exact Hmk|]. etrans; [|apply H]. simpl. by rewrite tree_apply_permissions.
Qed.

Lemma descend_grows (walk_from : path → filesystem * bool → filesystem * bool) top dirs :
  (∀ p st, tree st.1 ⊆ tree (walk_from p st).1) →
  ∀ st, tree st.1 ⊆ tree (descend walk_from top st dirs).1.
Proof.
  intros Hw. unfold descend. induction dirs as [|d dirs IH]; intros st; [done|].
  simpl. etrans; [|apply IH]. destruct (is_symlink st.1 (d :: top)); [done|apply Hw].
Qed.

Lemma walk_grows depth : ∀ top st,
  tree st.1 ⊆ tree (walk depth env conflict_strategy source target_dir_path top st).1.
Proof.
  induction depth as [|depth IH]; intros top st; [done|].
  rewrite walk_S. destruct (scandir (plat env) st.1 top) as [[dirs files]|]; [|done].
  etrans; [apply visit_grows|]. by apply descend_grows.
Qed.

End never_clobbers.

Lemma create_hardlink_grows env fs source destination_dir name
    conflict_strategy :
  conflict_strategy ≠ "overwrite" →
  tree fs ⊆ tree (create_hardlink env fs source destination_dir name conflict_strategy).1.
Proof.
  intros Hno. unfold create_hardlink.
  destruct (negb (exists_ fs source)); [done|].
  destruct (negb (is_dir fs destination_dir)); [done|].
  destruct (is_dir fs source).
  - pose proof (λ top, walk_grows env _ Hno source top (walk_depth (plat env) source)
                          source (fs, true)) as Hw.
    unfold top_level_conflict.
    destruct (exists_ fs _); [|apply Hw].
    repeat case_decide; try done; apply Hw.
  - destruct (is_file fs source); [|done].
    unfold file_conflict.
    destruct (present fs _); [|apply (link_then_permissions_grows env fs)].
    repeat case_decide; try done.
    destruct (find_name _ _ _ _ _ _ _);
      [apply (link_then_permissions_grows env fs)|done].
Qed.

(** X1.  Under every strategy but [overwrite], whatever the source and
    the outcome: each name the tree had before the call is still there
    after it, bound to the same node, and what could be looked up before
    is looked up the same way after. *)
Theorem create_hardlink_never_clobbers env fs source destination_dir name
    conflict_strategy :
  conflict_strategy ≠ "overwrite" →
  let fs' := (create_hardlink env fs source destination_dir name conflict_strategy).1 in
  tree fs ⊆ tree fs' ∧ ∀ p nd, lstat fs p = Ok nd → lstat fs' p = Ok nd.
Proof.
  intros Hno fs'.
  pose proof (create_hardlink_grows env fs source destination_dir name _ Hno) as H.
  split; [done|]. intros p nd. by apply lstat_grows.
Qed.

(** ** A file source *)

Lemma inode_links_insert_fresh fs k i :
  tree fs !! k = None →
  inode_links (with_tree fs (<[k := File i]> (tree fs))) i = S (inode_links fs i).
Proof.
  intros Hk. unfold inode_links. simpl.
  rewrite map_filter_insert_True by done.
  rewrite map_size_insert_None; [done|].
  apply map_lookup_filter_None. by left.
Qed.

Lemma inode_links_apply_permissions env fs p i :
  inode_links (apply_permissions env fs p) i = inode_links fs i.
Proof. unfold inode_links. by rewrite tree_apply_permissions. Qed.

Lemma lstat_apply_permissions env fs p q :
  lstat (apply_permissions env fs p) q = lstat fs q.
Proof. apply lstat_frame. intros. by rewrite tree_apply_permissions. Qed.

Lemma lstat_ENOENT_free fs n par :
  lstat fs par = Ok Dir → lstat fs (n :: par) = Err ENOENT → tree fs !! (n :: par) = None.
Proof.
  intros Hpar. rewrite lstat_cons, Hpar. by destruct (tree fs !! (n :: par)).
Qed.

Lemma link_name_component name source :
  is_component (link_name_of name source) = true →
  ∀ d, d // link_name_of name source = link_name_of name source :: d.
Proof.
  intros H d. unfold Path.join. case_decide as E; [|done]. by rewrite E in H.
Qed.

(** X2.  On a tree within the limits of the file system, a regular file
    linked into a real directory under a free name that is not too long
    succeeds under every strategy: the tree gains that one name, bound
    to the inode of the source, whose link count goes up by one. *)
Theorem create_hardlink_free env fs source destination_dir name conflict_strategy i :
  let link_name := link_name_of name source in
  within_limits fs →
  is_component link_name = true →
  fits (link_name :: destination_dir) = true →
  lstat fs source = Ok (File i) →
  lstat fs destination_dir = Ok Dir →
  length destination_dir < path_max (plat env) →
  lstat fs (link_name :: destination_dir) = Err ENOENT →
  ∃ fs', create_hardlink env fs source destination_dir name conflict_strategy = (fs', true)
       ∧ tree fs' = <[link_name :: destination_dir := File i]> (tree fs)
       ∧ lstat fs' (link_name :: destination_dir) = Ok (File i)
       ∧ lstat fs' source = Ok (File i)
       ∧ inode_links fs' i = S (inode_links fs i).
Proof.
  intros link_name _ Hc _ Hs Hd Hlen Hfree. subst link_name.
  pose proof (lstat_ENOENT_free _ _ _ Hd Hfree) as Hnone.
  assert (present fs (link_name_of name source :: destination_dir) = false) as Hp.
  { apply not_present_lstat. eauto. }
  unfold create_hardlink.
  assert (is_file fs source = true) as Hf.
  { unfold is_file, stat. by rewrite (follow_file _ _ _ _ Hs). }
  rewrite (is_file_exists _ _ Hf), (is_dir_lstat _ _ Hd), (is_file_not_dir _ _ Hf), Hf.
  cbn [negb]. rewrite (link_name_component _ _ Hc).
  unfold file_conflict. rewrite Hp. unfold os_link. rewrite Hs.
  rewrite (creatable_free _ _ _ _ Hlen Hd Hp).
  eexists. split; [done|]. rewrite tree_apply_permissions. split; [done|].
  rewrite !lstat_apply_permissions, inode_links_apply_permissions.
  split; [by apply lstat_after_insert|]. split.
  - apply lstat_grows with fs; [by apply insert_fresh_grows|done].
  - by apply inode_links_insert_fresh.
Qed.



(** X4.  With [overwrite], linking a file under its own name into its own
    directory removes that name and reports failure: the old entry is
    unlinked before the link is attempted. *)
Theorem create_hardlink_overwrite_self env fs n d name i :
  n ≠ "" →
  link_name_of name (n :: d) = n →
  lstat fs (n :: d) = Ok (File i) →
  create_hardlink env fs (n :: d) d name "overwrite"
  = (with_tree fs (delete (n :: d) (tree fs)), false).
Proof.
  intros Hn Hname Hs.
  assert (present fs (n :: d) = true) as Hp by (apply present_lstat; eauto).
  pose proof (lstat_parent _ _ _ _ Hs) as Hd.
  unfold create_hardlink.
  assert (is_file fs (n :: d) = true) as Hf.
  { unfold is_file, stat. by rewrite (follow_file _ _ _ _ Hs). }
  rewrite (is_file_exists _ _ Hf), (is_dir_lstat _ _ Hd), (is_file_not_dir _ _ Hf), Hf.
  cbn [negb]. rewrite Hname. unfold Path.join. rewrite decide_False by done.
  unfold file_conflict. rewrite Hp.
  rewrite decide_False by done. rewrite decide_False by done. rewrite decide_True by done.
  unfold remove_existing.
  replace (is_dir fs (n :: d)) with false by (symmetry; by apply is_file_not_dir).
  cbn [andb]. unfold os_unlink. rewrite Hs.
  assert (lstat (with_tree fs (delete (n :: d) (tree fs))) (n :: d) = Err ENOENT) as Hgone.
  { rewrite lstat_cons, (lstat_frame fs _ d); [rewrite Hd; simpl; by rewrite lookup_delete_eq|].
    intros q Hq. simpl. apply lookup_delete_ne. intros <-. by apply suffix_cons_not in Hq. }
  destruct (decide (File i = Dir)); [done|].
  unfold os_link. by rewrite Hgone.
Qed.

Lemma obj_of_file fs p i : lstat fs p = Ok (File i) → obj_of fs p = Ok (ObjFile i).
Proof. intros H. unfold obj_of. by rewrite (follow_file _ _ _ _ H). Qed.

Lemma set_file_ownership_file pf fs p i r uid gid m :
  lstat fs p = Ok (File i) →
  getpwnam pf (rule_user r) = Some uid →
  getgrnam pf (rule_group r) = Some gid →
  int8 pf (rule_permissions r) = Some m →
  let fs' := set_file_ownership_and_permissions pf fs p r in
  owner fs' = <[ObjFile i := (uid, gid)]> (owner fs) ∧
  mode fs' = <[ObjFile i := m]> (mode fs).
Proof.
  intros Hl Hu Hg Hm. simpl. unfold set_file_ownership_and_permissions.
  rewrite Hu, Hg. unfold os_chown. rewrite (obj_of_file _ _ _ Hl). rewrite Hm.
  unfold os_chmod. rewrite (obj_of_file _ p i); [done|].
  rewrite <- Hl. by apply lstat_frame.
Qed.

(** X5.  Ownership and mode belong to the file, not to the name: when a
    file is linked under a free name within the limits of the file
    system and the policy has a rule for the new link, the owner, group
    and mode it sets are those of the source file as well. *)
Theorem create_hardlink_ownership_shared env fs source destination_dir name
    conflict_strategy i r uid gid m :
  let link_path := link_name_of name source :: destination_dir in
  within_limits fs →
  is_component (link_name_of name source) = true →
  fits link_path = true →
  lstat fs source = Ok (File i) →
  lstat fs destination_dir = Ok Dir →
  length destination_dir < path_max (plat env) →
  lstat fs link_path = Err ENOENT →
  get_app_permissions_for_path (config env) link_path = Some r →
  getpwnam (plat env) (rule_user r) = Some uid →
  getgrnam (plat env) (rule_group r) = Some gid →
  int8 (plat env) (rule_permissions r) = Some m →
  let fs' := (create_hardlink env fs source destination_dir name conflict_strategy).1 in
  obj_of fs' source = Ok (ObjFile i) ∧
  obj_of fs' link_path = Ok (ObjFile i) ∧
  owner fs' !! ObjFile i = Some (uid, gid) ∧
  mode fs' !! ObjFile i = Some m.
Proof.
  intros link_path _ Hc _ Hs Hd Hlen Hfree Hr Hu Hg Hm. subst link_path.
  pose proof (lstat_ENOENT_free _ _ _ Hd Hfree) as Hnone.
  assert (present fs (link_name_of name source :: destination_dir) = false) as Hp.
  { apply not_present_lstat. eauto. }
  unfold create_hardlink.
  assert (is_file fs source = true) as Hf.
  { unfold is_file, stat. by rewrite (follow_file _ _ _ _ Hs). }
  rewrite (is_file_exists _ _ Hf), (is_dir_lstat _ _ Hd), (is_file_not_dir _ _ Hf), Hf.
  cbn [negb]. rewrite (link_name_component _ _ Hc).
  unfold file_conflict. rewrite Hp. unfold os_link. rewrite Hs.
  rewrite (creatable_free _ _ _ _ Hlen Hd Hp). cbn [fst].
  set (fs1 := with_tree fs _).
  assert (lstat fs1 (link_name_of name source :: destination_dir) = Ok (File i)) as Hl1
    by (by apply lstat_after_insert).
  assert (lstat fs1 source = Ok (File i)) as Hs1.
  { apply lstat_grows with fs; [by apply insert_fresh_grows|done]. }
  unfold apply_permissions. rewrite Hr.
  destruct (set_file_ownership_file (plat env) fs1 _ i r uid gid m Hl1 Hu Hg Hm) as [Ho Hmo].
  rewrite Ho, Hmo, !lookup_insert_eq.
  split; [|split]; [| |done]; apply obj_of_file;
    (etrans; [apply lstat_frame; intros; by rewrite tree_set_file_ownership|done]).
Qed.

(** ** More of the policy lookup *)

(** X6.  Whatever the document: the lookup answers with the rule of the
    first prefix that matches and whose application carries user, group
    and permissions; a matching prefix of an application that lacks one
    of the three is passed over. *)
Theorem permissions_skips_incomplete (mounts : policy) (dest_path : path) (r : rule) :
  get_app_permissions_for_path (Some mounts) dest_path = Some r ↔
  ∃ before pre a after,
    rule_entries mounts = before ++ (pre, a) :: after ∧
    Forall (λ e, startswith (Path.str dest_path) e.1 = false ∨ rule_of e.2 = None) before ∧
    startswith (Path.str dest_path) pre = true ∧
    rule_of a = Some r.
Proof.
  assert (∀ e : string * app_info,
            answer_at (Path.str dest_path) e = None ↔
            startswith (Path.str dest_path) e.1 = false ∨ rule_of e.2 = None) as Hnone.
  { intros e. unfold answer_at.
    destruct (startswith (Path.str dest_path) e.1); [|by split; [left|]].
    split; [by right|by intros [|]]. }
  unfold get_app_permissions_for_path. rewrite match_mounts_entries, head_omap_Some. split.
  - intros (l1 & [pre a] & l2 & E & Hl1 & Hx). exists l1, pre, a, l2.
    split; [done|]. split.
    + eapply Forall_impl; [exact Hl1|]. intros e. apply Hnone.
    + unfold answer_at in Hx. cbn [fst snd] in Hx.
      destruct (startswith (Path.str dest_path) pre); [by split|done].
  - intros (l1 & pre & a & l2 & E & Hl1 & Hpre & Hr). exists l1, (pre, a), l2.
    split; [done|]. split.
    + eapply Forall_impl; [exact Hl1|]. intros e. apply Hnone.
    + unfold answer_at. cbn [fst snd]. by rewrite Hpre.
Qed.

Lemma string_app_assoc (a b c : string) : (a +:+ b) +:+ c = a +:+ (b +:+ c).
Proof.
  induction a as [|x a IH]; [done|].
  change (String x ((a +:+ b) +:+ c) = String x (a +:+ (b +:+ c))). by f_equal.
Qed.

Lemma concat_app_prefix (sep : string) (l1 l2 : list string) :
  ∃ rest, String.concat sep (l1 ++ l2) = String.concat sep l1 +:+ rest.
Proof.
  induction l1 as [|x l1 IH]; [by eexists|].
  destruct l1 as [|y l1].
  - destruct l2 as [|z l2]; simpl.
    + exists "". clear. induction x as [|c x IH]; [done|].
      change (String c x = String c (x +:+ "")). by f_equal.
    + by eexists.
  - destruct IH as [rest IH]. exists rest.
    change (String.concat sep ((x :: y :: l1) ++ l2))
      with (x +:+ sep +:+ String.concat sep ((y :: l1) ++ l2)).
    change (String.concat sep (x :: y :: l1))
      with (x +:+ sep +:+ String.concat sep (y :: l1)).
    rewrite IH. by rewrite !string_app_assoc.
Qed.

Lemma str_beneath (p rel : path) :
  ∃ rest, Path.str (Path.join_rel p rel) = Path.str p +:+ rest.
Proof.
  unfold Path.str, Path.join_rel. rewrite reverse_app.
  destruct (concat_app_prefix "/" (reverse p) (reverse rel)) as [rest ->].
  exists rest. by rewrite string_app_assoc.
Qed.

Lemma startswith_trans (s t pre : string) :
  startswith t pre = true → startswith s t = true → startswith s pre = true.
Proof.
  rewrite !startswith_spec. intros [r1 ->] [r2 ->]. exists (r1 +:+ r2).
  apply string_app_assoc.
Qed.

(** X7.  The policy covers whole subtrees: when the lookup has a rule for
    a path, it has one for every path beneath it. *)
Theorem permissions_cover_subtree (config : option policy) (p rel : path) :
  is_Some (get_app_permissions_for_path config p) →
  is_Some (get_app_permissions_for_path config (Path.join_rel p rel)).
Proof.
  destruct config as [mounts|]; [|by intros [? ?]].
  unfold get_app_permissions_for_path. rewrite !match_mounts_entries.
  intros [r Hr]. apply head_omap_Some in Hr as (l1 & e & l2 & E & _ & He).
  destruct (head (omap (answer_at (Path.str (Path.join_rel p rel))) (rule_entries mounts)))
    as [r'|] eqn:Hnone; [by eexists|].
  apply head_omap_None in Hnone. rewrite E in Hnone.
  apply Forall_app in Hnone as [_ Hnone]. apply Forall_cons in Hnone as [Hnone _].
  unfold answer_at in He, Hnone.
  destruct (startswith (Path.str p) e.1) eqn:Hpre; [|done].
  rewrite (startswith_trans _ (Path.str p) e.1) in Hnone; [congruence|done|].
  apply startswith_spec, str_beneath.
Qed.

(** ** More of the browser *)

Lemma deploy_item_grows env destination_dir acc x :
  tree acc.1.1 ⊆ tree (deploy_item env destination_dir acc x).1.1.
Proof.
  destruct acc as [[fs s] f]. unfold deploy_item. cbn [fst].
  destruct (negb (exists_ fs x)); [done|].
  pose proof (create_hardlink_grows env fs x destination_dir None "rename") as H.
  destruct (create_hardlink env fs x destination_dir None "rename") as [fs' []];
    apply H; done.
Qed.

Lemma deploy_item_wf env destination_dir acc x :
  wf acc.1.1 → wf (deploy_item env destination_dir acc x).1.1.
Proof.
  destruct acc as [[fs s] f]. unfold deploy_item. cbn [fst]. intros Hwf.
  destruct (negb (exists_ fs x)); [done|].
  pose proof (wf_create_hardlink env fs x destination_dir None "rename" Hwf) as H.
  by destruct (create_hardlink env fs x destination_dir None "rename") as [fs' []].
Qed.

(** X8.  Deploying the selection only adds to the tree: every name that
    was there is still there, bound to what it was bound to, and a
    well-formed tree stays well formed. *)
Theorem action_deploy_only_adds env fs st :
  wf fs →
  let fs' := (action_deploy env fs st).1.1 in
  tree fs ⊆ tree fs' ∧ wf fs'.
Proof.
  intros Hwf. unfold action_deploy. destruct (bool_decide (selected st = ∅)); [done|].
  generalize (elements (selected st)). intros l.
  assert (∀ acc, wf acc.1.1 →
            let r := foldl (deploy_item env (resolve fs (current_dir st))) acc l in
            tree acc.1.1 ⊆ tree r.1.1 ∧ wf r.1.1) as H.
  { induction l as [|x l IH]; intros acc Hacc; [done|]. simpl.
    destruct (IH (deploy_item env (resolve fs (current_dir st)) acc x)) as [H1 H2].
    - by apply deploy_item_wf.
    - split; [|done]. etrans; [apply deploy_item_grows|exact H1]. }
  specialize (H (fs, 0, 0) Hwf). simpl in H.
  by destruct (foldl _ _ _) as [[fs' s] f].
Qed.

(** ** The order of the listing *)








(** ** Moving through directories *)

Lemma cons_neq {A} (x : A) (l : list A) : l ≠ x :: l.
Proof. intros E. apply (f_equal length) in E. simpl in E. lia. Qed.

Lemma py_index_guard {A} (l : list A) (i : Z) (x : A) :
  py_index l i = Some x →
  bool_decide (l = []) || (Z.of_nat (length l) <=? i)%Z = false.
Proof.
  unfold py_index. intros H. apply orb_false_iff. split.
  - apply bool_decide_eq_false. intros ->. simpl in H.
    repeat case_match; done.
  - apply Z.leb_gt. destruct (0 <=? i)%Z eqn:E.
    + apply lookup_lt_Some in H. lia.
    + apply Z.leb_gt in E. lia.
Qed.

Lemma py_index_nonempty {A} (l : list A) (i : Z) (x : A) :
  py_index l i = Some x → bool_decide (l = []) = false.
Proof. intros H. apply py_index_guard in H. by apply orb_false_iff in H as [? _]. Qed.

(** X10.  Entering the directory under the cursor and going up again
    leads back: the browser shows the directory it started from, with
    the selection it had.  (For a real directory: a link to a directory
    is entered at its target, and going up leaves from there.) *)
Theorem enter_dir_then_go_up pf fs st n :
  py_index (items st) (cursor_index st) = Some (n :: current_dir st) →
  lstat fs (n :: current_dir st) = Ok Dir →
  let inside := action_enter_dir pf fs st in
  let back := action_go_up pf fs inside in
  current_dir inside = n :: current_dir st ∧
  items inside = listing pf fs (n :: current_dir st) ∧
  current_dir back = current_dir st ∧
  items back = listing pf fs (current_dir st) ∧
  selected back = selected st.
Proof.
  intros Hentry Hdir. simpl.
  pose proof (lstat_parent _ _ _ _ Hdir) as Hcur.
  unfold action_enter_dir.
  rewrite (py_index_nonempty _ _ _ Hentry), Hentry, (is_dir_lstat _ _ Hdir).
  unfold action_go_up, load_directory. cbn [current_dir items selected].
  rewrite (resolve_dir _ _ Hdir). cbn [Path.parent tail].
  rewrite decide_True by apply cons_neq. cbn [current_dir items selected].
  by rewrite (resolve_dir _ _ Hcur).
Qed.

(** X11.  A link to a directory is entered at the place it leads to, so
    going up afterwards shows the parent of that place, not the
    directory the link is in. *)
Theorem enter_link_then_go_up pf fs st entry t target_parent :
  py_index (items st) (cursor_index st) = Some entry →
  lstat fs entry = Ok (Symlink (t :: target_parent)) →
  lstat fs (t :: target_parent) = Ok Dir →
  let inside := action_enter_dir pf fs st in
  current_dir inside = t :: target_parent ∧
  current_dir (action_go_up pf fs inside) = target_parent.
Proof.
  intros Hentry Hlink Hdir. simpl.
  pose proof (lstat_parent _ _ _ _ Hdir) as Hpar.
  assert (resolve fs entry = t :: target_parent) as Hres.
  { unfold resolve, MAXSYMLINKS. simpl. by rewrite Hlink, Hdir. }
  assert (is_dir fs entry = true) as Hisdir.
  { unfold is_dir, stat, MAXSYMLINKS. rewrite follow_unfold, Hlink.
    by rewrite (follow_dir _ _ _ Hdir). }
  unfold action_enter_dir.
  rewrite (py_index_nonempty _ _ _ Hentry), Hentry, Hisdir.
  unfold action_go_up, load_directory. cbn [current_dir]. rewrite Hres.
  cbn [Path.parent tail]. rewrite decide_True by apply cons_neq.
  cbn [current_dir]. by rewrite (resolve_dir _ _ Hpar).
Qed.

(** ** Making and removing entries *)

Lemma listing_dir pf fs d :
  lstat fs d = Ok Dir → length d ≤ path_max pf →
  listing pf fs d ≡ₚ (λ n, n :: d) <$> child_names fs d.
Proof.
  intros Hd Hlen. unfold listing, iterdir, listdir.
  replace (path_max pf <? length d) with false by (symmetry; apply Nat.ltb_ge; lia).
  rewrite (follow_dir _ _ _ Hd). apply merge_sort_Permutation.
Qed.

Lemma elem_of_listing pf fs d n :
  lstat fs d = Ok Dir → length d ≤ path_max pf →
  n :: d ∈ listing pf fs d ↔ is_Some (tree fs !! (n :: d)).
Proof.
  intros Hd Hlen. rewrite (listing_dir _ _ _ Hd Hlen), <- elem_of_child_names.
  rewrite list_elem_of_fmap. split; [by intros (m & [= ->] & ?)|by exists n].
Qed.

Lemma with_tree_same fs : with_tree fs (tree fs) = fs.
Proof. by destruct fs. Qed.

Lemma with_tree_twice fs t1 t2 : with_tree (with_tree fs t1) t2 = with_tree fs t2.
Proof. done. Qed.

(** X12.  Making a directory from the browser, in a real directory and
    under a name of one component that is not too long for the file
    system.  Under a free name the tree gains
    exactly the new directory, and the reloaded listing shows it; when
    something has the name already, a dangling link included, the bell
    rings and nothing changes. *)
Theorem do_create_dir_spec pf fs st new_dir_name :
  within_limits fs →
  is_component new_dir_name = true →
  fits (new_dir_name :: current_dir st) = true →
  lstat fs (current_dir st) = Ok Dir →
  length (current_dir st) < path_max pf →
  let new_path := new_dir_name :: current_dir st in
  (lstat fs new_path = Err ENOENT →
   ∃ fs' st', do_create_dir pf fs st new_dir_name = (fs', st', false)
     ∧ tree fs' = <[new_path := Dir]> (tree fs)
     ∧ owner fs' = owner fs ∧ mode fs' = mode fs
     ∧ current_dir st' = current_dir st
     ∧ selected st' = selected st
     ∧ (∀ n, n :: current_dir st ∈ items st'
             ↔ n = new_dir_name ∨ is_Some (tree fs !! (n :: current_dir st)))) ∧
  ((∃ nd, lstat fs new_path = Ok nd) → do_create_dir pf fs st new_dir_name = (fs, st, true)).
Proof.
  intros _ Hc _ Hcur Hlen new_path. subst new_path. unfold do_create_dir.
  assert (current_dir st // new_dir_name = new_dir_name :: current_dir st) as ->.
  { unfold Path.join. case_decide as E; [|done]. by rewrite E in Hc. }
  split.
  - intros Hfree.
    rewrite lstat_cons, Hcur in Hfree.
    destruct (tree fs !! (new_dir_name :: current_dir st)) eqn:Hnone; [done|].
    assert (present fs (new_dir_name :: current_dir st) = false) as Hp.
    { apply not_present_lstat. rewrite lstat_cons, Hcur, Hnone. eauto. }
    assert (exists_ fs (new_dir_name :: current_dir st) = false) as ->.
    { unfold present in Hp. by apply orb_false_iff in Hp as [? _]. }
    unfold os_mkdir. rewrite (creatable_free _ _ _ _ Hlen Hcur Hp).
    set (fs' := with_tree fs _).
    assert (lstat fs' (current_dir st) = Ok Dir) as Hcur'.
    { apply lstat_grows with fs; [by apply insert_fresh_grows|done]. }
    eexists _, _. split; [done|]. split; [done|]. split; [done|]. split; [done|].
    unfold load_directory. cbn [current_dir selected items].
    rewrite (resolve_dir _ _ Hcur'). split; [done|]. split; [done|].
    intros n. rewrite elem_of_listing; [|done|lia]. simpl.
    destruct (decide (n = new_dir_name)) as [->|Hn].
    + rewrite lookup_insert_eq. split; [by left|by eexists].
    + rewrite lookup_insert_ne by congruence. split; [by right|by intros [|]].
  - intros [nd Hnd]. destruct (exists_ fs (new_dir_name :: current_dir st)); [done|].
    unfold os_mkdir, creatable.
    destruct (path_max pf <? length (new_dir_name :: current_dir st)); [done|].
    rewrite Hcur. by rewrite (lstat_lookup _ _ _ _ Hnd).
Qed.

Lemma is_file_of_dir fs p : lstat fs p = Ok Dir → is_file fs p = false.
Proof. intros H. unfold is_file, stat. by rewrite (follow_dir _ _ _ H). Qed.

Lemma child_names_fresh_dir fs n par :
  wf fs → tree fs !! (n :: par) = None →
  child_names (with_tree fs (<[n :: par := Dir]> (tree fs))) (n :: par) = [].
Proof.
  intros Hwf Hnone. apply elem_of_nil_inv. intros m [x Hx]%elem_of_child_names.
  simpl in Hx. rewrite lookup_insert_ne in Hx by apply cons_neq.
  apply (wf_lstat _ _ _ Hwf), lstat_parent, lstat_lookup in Hx. congruence.
Qed.

(** X13.  A directory made from the browser and deleted again, with
    nothing done in between, leaves the file system as it was before it
    was made. *)
Theorem create_dir_then_delete pf fs st new_dir_name fs1 st1 st2 :
  wf fs →
  is_component new_dir_name = true →
  do_create_dir pf fs st new_dir_name = (fs1, st1, false) →
  py_index (items st2) (cursor_index st2) = Some (new_dir_name :: current_dir st) →
  ∃ st3, action_delete_link pf fs1 st2 = (fs, st3, false).
Proof.
  intros Hwf Hc Hmade Hentry. unfold do_create_dir in Hmade.
  assert (current_dir st // new_dir_name = new_dir_name :: current_dir st) as Hjoin.
  { unfold Path.join. case_decide as E; [|done]. by rewrite E in Hc. }
  rewrite Hjoin in Hmade.
  destruct (exists_ fs (new_dir_name :: current_dir st)); [done|].
  destruct (os_mkdir pf fs (new_dir_name :: current_dir st)) as [fs'|] eqn:Hmk; [|done].
  injection Hmade as <- _.
  assert ((path_max pf <? length (new_dir_name :: current_dir st)) = false) as Hlen.
  { revert Hmk. unfold os_mkdir, creatable.
    by destruct (path_max pf <? length (new_dir_name :: current_dir st)). }
  apply os_mkdir_made in Hmk as (Hcur & Hnone & ->).
  pose proof (lstat_after_insert fs new_dir_name (current_dir st) Dir Hcur) as Hdir.
  pose proof (child_names_fresh_dir _ _ _ Hwf Hnone) as Hempty.
  unfold action_delete_link.
  rewrite (py_index_guard _ _ _ Hentry), Hentry.
  rewrite (is_file_of_dir _ _ Hdir), (is_dir_lstat _ _ Hdir).
  unfold iterdir, listdir. rewrite Hlen, (follow_dir _ _ _ Hdir), Hempty.
  cbn [fmap list_fmap only_hardlinks].
  rewrite bool_decide_eq_true_2 by done. cbn [negb andb].
  unfold os_rmdir. rewrite Hdir, Hempty, with_tree_twice. cbn [tree with_tree].
  rewrite delete_insert_id by done. rewrite with_tree_same. by eexists.
Qed.

(** X14.  A hard link just created, under a free name within the limits
    of the file system, and deleted again from the browser leaves every
    name of the tree as it was: the source keeps its file. *)
Theorem link_then_delete env fs source destination_dir name conflict_strategy i st :
  let link_path := link_name_of name source :: destination_dir in
  within_limits fs →
  is_component (link_name_of name source) = true →
  fits link_path = true →
  lstat fs source = Ok (File i) →
  lstat fs destination_dir = Ok Dir →
  length destination_dir < path_max (plat env) →
  lstat fs link_path = Err ENOENT →
  py_index (items st) (cursor_index st) = Some link_path →
  let fs1 := (create_hardlink env fs source destination_dir name conflict_strategy).1 in
  ∃ fs2 st', action_delete_link (plat env) fs1 st = (fs2, st', false)
           ∧ tree fs2 = tree fs
           ∧ lstat fs2 source = Ok (File i).
Proof.
  intros link_path _ Hc _ Hs Hd Hlen Hfree Hentry. subst link_path.
  pose proof (lstat_ENOENT_free _ _ _ Hd Hfree) as Hnone.
  assert (present fs (link_name_of name source :: destination_dir) = false) as Hp.
  { apply not_present_lstat. eauto. }
  unfold create_hardlink.
  assert (is_file fs source = true) as Hf.
  { unfold is_file, stat. by rewrite (follow_file _ _ _ _ Hs). }
  rewrite (is_file_exists _ _ Hf), (is_dir_lstat _ _ Hd), (is_file_not_dir _ _ Hf), Hf.
  cbn [negb]. rewrite (link_name_component _ _ Hc).
  unfold file_conflict. rewrite Hp. unfold os_link. rewrite Hs.
  rewrite (creatable_free _ _ _ _ Hlen Hd Hp). cbn [fst].
  revert Hc Hentry Hnone Hp. generalize (link_name_of name source).
  intros ln Hc Hentry Hnone Hp.
  set (fs1 := apply_permissions env _ (ln :: destination_dir)).
  assert (tree fs1 = <[ln :: destination_dir := File i]> (tree fs)) as Ht
    by (unfold fs1; by rewrite tree_apply_permissions).
  assert (lstat fs1 (ln :: destination_dir) = Ok (File i)) as Hl.
  { unfold fs1. rewrite lstat_apply_permissions. by apply lstat_after_insert. }
  clearbody fs1. unfold action_delete_link.
  rewrite (py_index_guard _ _ _ Hentry), Hentry.
  assert (is_file fs1 (ln :: destination_dir) = true) as ->.
  { unfold is_file, stat. by rewrite (follow_file _ _ _ _ Hl). }
  unfold os_unlink. rewrite Hl.
  eexists _, _. split; [done|]. cbn [tree with_tree]. rewrite Ht.
  rewrite delete_insert_id by done. split; [done|].
  rewrite <- Hs. by apply lstat_frame.
Qed.

(** ** Renaming a directory *)

Lemma NoDup_omap_inj_on {A B} (f : A → option B) (l : list A) :
  (∀ x y z, x ∈ l → y ∈ l → f x = Some z → f y = Some z → x = y) →
  NoDup l → NoDup (omap f l).
Proof.
  intros Hinj Hl. induction Hl as [|a l Ha Hl IH]; simpl; [constructor|].
  assert (NoDup (omap f l)) as IH'.
  { apply IH. intros x y z Hx Hy. apply Hinj; by right. }
  destruct (f a) as [b|] eqn:Ea; [|done]. constructor; [|done].
  intros (x & Hx & Efx)%list_elem_of_omap.
  assert (a = x) as -> by (apply (Hinj a x b); [by left|by right|done..]). done.
Qed.

Section rekey.
Context `{Countable K} {V : Type} (f : K → option K) (m : gmap K V).
Context (Hinj : ∀ k1 k2 k', f k1 = Some k' → f k2 = Some k' → k1 = k2).

Lemma lookup_rekey_Some k' v :
  rekey f m !! k' = Some v ↔ ∃ k, f k = Some k' ∧ m !! k = Some v.
Proof.
  unfold rekey. rewrite <- elem_of_list_to_map.
  - rewrite list_elem_of_omap. split.
    + intros ([k v0] & Hin & Hf). apply elem_of_map_to_list in Hin.
      simpl in Hf. destruct (f k) as [k0|] eqn:Ek; [|done].
      simpl in Hf. injection Hf as -> ->. by exists k.
    + intros (k & Ek & Hk). exists (k, v). split; [by apply elem_of_map_to_list|].
      simpl. by rewrite Ek.
  - assert (∀ l : list (K * V),
              (omap (λ kv : K * V, (λ k, (k, kv.2)) <$> f kv.1) l).*1
              = omap (λ kv : K * V, f kv.1) l) as ->.
    { induction l as [|[k v0] l IH]; [done|]. csimpl.
      destruct (f k); csimpl; by rewrite IH. }
    apply NoDup_omap_inj_on; [|apply NoDup_map_to_list].
    intros [k1 v1] [k2 v2] z H1 H2 E1 E2. simpl in E1, E2.
    pose proof (Hinj _ _ _ E1 E2) as ->.
    apply elem_of_map_to_list in H1, H2. congruence.
Qed.

Lemma lookup_rekey_None k' :
  (∀ k, f k = Some k' → m !! k = None) → rekey f m !! k' = None.
Proof.
  intros Hk. destruct (rekey f m !! k') as [v|] eqn:E; [|done].
  apply lookup_rekey_Some in E as (k & Ek & Hm). rewrite (Hk k Ek) in Hm. done.
Qed.

End rekey.

Lemma retarget_under (src dst rel : path) : retarget src dst (rel ++ src) = rel ++ dst.
Proof.
  unfold retarget. rewrite length_app.
  replace (length rel + length src - length src) with (length rel) by lia.
  by rewrite take_app_length.
Qed.

Lemma moved_key_inj (src dst k1 k2 k' : path) :
  moved_key src dst k1 = Some k' → moved_key src dst k2 = Some k' → k1 = k2.
Proof.
  unfold moved_key. intros H1 H2.
  destruct (decide (src `suffix_of` k1)) as [[r1 ->]|N1];
    destruct (decide (src `suffix_of` k2)) as [[r2 ->]|N2].
  - rewrite retarget_under in H1, H2. simplify_eq. by simplify_list_eq.
  - rewrite retarget_under in H1. destruct (decide (dst `suffix_of` k2)) as [|N]; [done|].
    simplify_eq. destruct N. by exists r1.
  - rewrite retarget_under in H2. destruct (decide (dst `suffix_of` k1)) as [|N]; [done|].
    simplify_eq. destruct N. by exists r2.
  - repeat case_decide; congruence.
Qed.

Section siblings.
Context (fs : filesystem) (n m : string) (d : path) (Hnm : n ≠ m).

Lemma siblings_apart (k : path) : (n :: d) `suffix_of` k → (m :: d) `suffix_of` k → False.
Proof.
  intros [r1 ->] [r2 E]. apply (f_equal reverse) in E.
  rewrite !reverse_app, !reverse_cons in E.
  rewrite <- !(assoc_L (++)) in E. apply app_inv_head in E. simpl in E. congruence.
Qed.

Lemma moved_tree_under rel :
  tree (moved fs (n :: d) (m :: d)) !! (rel ++ m :: d) = tree fs !! (rel ++ n :: d).
Proof.
  simpl. apply option_eq. intros v.
  rewrite (lookup_rekey_Some _ _ (moved_key_inj (n :: d) (m :: d))). split.
  - intros (k & Ek & Hk). unfold moved_key in Ek.
    destruct (decide ((n :: d) `suffix_of` k)) as [[r ->]|N].
    + rewrite retarget_under in Ek. simplify_eq. by simplify_list_eq.
    + destruct (decide ((m :: d) `suffix_of` k)) as [|N']; [done|].
      simplify_eq. destruct N'. by exists rel.
  - intros Hk. exists (rel ++ n :: d). split; [|done]. unfold moved_key.
    rewrite decide_True by (by exists rel). by rewrite retarget_under.
Qed.

Lemma moved_tree_gone k :
  (n :: d) `suffix_of` k → tree (moved fs (n :: d) (m :: d)) !! k = None.
Proof.
  intros Hk. simpl. apply lookup_rekey_None; [apply moved_key_inj|].
  intros k0. unfold moved_key.
  destruct (decide ((n :: d) `suffix_of` k0)) as [[r ->]|N].
  - rewrite retarget_under. intros [= <-]. destruct (siblings_apart (r ++ m :: d)); [done|].
    by exists r.
  - destruct (decide ((m :: d) `suffix_of` k0)); [done|]. intros [= ->]. done.
Qed.

Lemma moved_tree_rest k :
  ¬ (n :: d) `suffix_of` k → ¬ (m :: d) `suffix_of` k →
  tree (moved fs (n :: d) (m :: d)) !! k = tree fs !! k.
Proof.
  intros N1 N2. simpl. apply option_eq. intros v.
  rewrite (lookup_rekey_Some _ _ (moved_key_inj (n :: d) (m :: d))). split.
  - intros (k0 & Ek & Hk). unfold moved_key in Ek.
    destruct (decide ((n :: d) `suffix_of` k0)) as [[r ->]|N].
    + rewrite retarget_under in Ek. simplify_eq. destruct N2. by exists r.
    + destruct (decide ((m :: d) `suffix_of` k0)); [done|]. by simplify_eq.
  - intros Hk. exists k. split; [|done]. unfold moved_key.
    rewrite decide_False by done. by rewrite decide_False.
Qed.

End siblings.

(** X15.  Renaming a directory from the browser, under a name of one
    component that is not too long for the file system.  Under a free
    name the directory and everything beneath it
    is found under the new name, nothing is left under the old one, and
    no other entry changes; when something has the name already, a
    dangling link included, the bell rings and nothing changes. *)
Theorem do_rename_spec pf fs st n d new_name :
  within_limits fs →
  is_component new_name = true →
  fits (new_name :: d) = true →
  lstat fs (n :: d) = Ok Dir →
  length d < path_max pf →
  current_dir st = d →
  (lstat fs (new_name :: d) = Err ENOENT →
   ∃ fs' st', do_rename pf fs st (n :: d) new_name = (fs', st', false)
     ∧ (∀ rel, tree fs' !! (rel ++ new_name :: d) = tree fs !! (rel ++ n :: d))
     ∧ (∀ rel, tree fs' !! (rel ++ n :: d) = None)
     ∧ (∀ k, ¬ (n :: d) `suffix_of` k → ¬ (new_name :: d) `suffix_of` k →
             tree fs' !! k = tree fs !! k)
     ∧ lstat fs' (new_name :: d) = Ok Dir
     ∧ current_dir st' = d
     ∧ (∀ x, x :: d ∈ items st'
             ↔ x = new_name ∨ (x ≠ n ∧ is_Some (tree fs !! (x :: d))))) ∧
  ((∃ nd, lstat fs (new_name :: d) = Ok nd) →
   do_rename pf fs st (n :: d) new_name = (fs, st, true)).
Proof.
  intros _ Hc _ Hold Hlen Hcur. unfold do_rename. cbn [Path.parent tail].
  assert (d // new_name = new_name :: d) as ->.
  { unfold Path.join. case_decide as E; [|done]. by rewrite E in Hc. }
  pose proof (lstat_parent _ _ _ _ Hold) as Hd.
  assert ((path_max pf <? length (new_name :: d)) = false) as Hmax.
  { apply Nat.ltb_ge. simpl. lia. }
  assert (¬ (n :: d) `suffix_of` d) as Hnot by apply suffix_cons_not.
  split.
  - intros Hfree.
    assert (n ≠ new_name) as Hnm by (intros ->; congruence).
    pose proof (lstat_ENOENT_free _ _ _ Hd Hfree) as Hnone.
    assert (exists_ fs (new_name :: d) = false) as ->.
    { assert (present fs (new_name :: d) = false) as Hp
        by (apply not_present_lstat; eauto).
      unfold present in Hp. by apply orb_false_iff in Hp as [? _]. }
    unfold os_rename. rewrite Hold, Hmax, Hd, decide_False, Hnone by done.
    pose proof (moved_tree_under fs n new_name d) as Hunder.
    pose proof (Hunder []) as Hunder0. cbn [app] in Hunder0.
    rewrite (lstat_lookup _ _ _ _ Hold) in Hunder0.
    pose proof (moved_tree_gone fs n new_name d Hnm) as Hgone.
    pose proof (moved_tree_rest fs n new_name d) as Hrest.
    assert (lstat (moved fs (n :: d) (new_name :: d)) d = Ok Dir) as Hd'.
    { rewrite <- Hd. apply lstat_frame. intros q Hq. apply Hrest.
      - intros Hq'. apply Hnot. by etrans.
      - intros Hq'. apply (suffix_cons_not new_name d). by etrans. }
    assert (lstat (moved fs (n :: d) (new_name :: d)) (new_name :: d) = Ok Dir) as Hnew.
    { by rewrite lstat_cons, Hd', Hunder0. }
    eexists _, _. split; [done|]. split; [done|]. split.
    { intros rel. apply Hgone. by exists rel. }
    split; [done|]. split; [done|].
    unfold load_directory. cbn [current_dir items]. rewrite Hcur, (resolve_dir _ _ Hd').
    split; [done|]. intros x. rewrite elem_of_listing; [|done|lia].
    destruct (decide (x = new_name)) as [->|Hx].
    + rewrite Hunder0. split; [by left|by eexists].
    + destruct (decide (x = n)) as [->|Hxn].
      * rewrite Hgone by done. split; [by intros [? ?]|]. by intros [|[? _]].
      * rewrite Hrest.
        -- split; [by right|]. by intros [|[_ ?]].
        -- intros Hs. apply suffix_cons_inv in Hs as [[=]|Hs]; [done|].
           by apply suffix_cons_not in Hs.
        -- intros Hs. apply suffix_cons_inv in Hs as [[=]|Hs]; [done|].
           by apply suffix_cons_not in Hs.
  - intros [nd Hnd]. destruct (exists_ fs (new_name :: d)) eqn:Hex; [done|].
    unfold os_rename. rewrite Hold, Hmax, Hd, decide_False by done.
    rewrite (lstat_lookup _ _ _ _ Hnd).
    destruct (decide (n :: d = new_name :: d)) as [E|_].
    + rewrite <- E, (is_dir_exists _ _ (is_dir_lstat _ _ Hold)) in Hex. done.
    + destruct nd; [done| |done].
      rewrite (is_dir_exists _ _ (is_dir_lstat _ _ Hnd)) in Hex. done.
Qed.

(** * The index of hard links *)

Lemma scandir_split pf fs top dirs files n :
  scandir pf fs top = Ok (dirs, files) →
  (n ∈ dirs → is_dir fs (n :: top) = true) ∧
  (n ∈ files → is_dir fs (n :: top) = false).
Proof.
  unfold scandir. destruct (listdir pf fs top) as [[d names]|]; [|done].
  intros [= <- <-]. rewrite !list_elem_of_filter. split; [by intros [? _]|].
  intros [Hn _]. by destruct (is_dir fs (n :: top)).
Qed.

Lemma scandir_dir pf fs top :
  lstat fs top = Ok Dir → length top ≤ path_max pf →
  scandir pf fs top
  = Ok (filter (λ n, is_dir fs (n :: top) = true) (child_names fs top),
        filter (λ n, is_dir fs (n :: top) ≠ true) (child_names fs top)).
Proof.
  intros Hd Hlen. unfold scandir, listdir.
  replace (path_max pf <? length top) with false by (symmetry; apply Nat.ltb_ge; lia).
  by rewrite (follow_dir _ _ _ Hd).
Qed.

Lemma os_walk_sound pf fs : ∀ depth top root dirs files,
  (root, dirs, files) ∈ LinkIndex.os_walk depth pf fs top →
  top `suffix_of` root ∧ scandir pf fs root = Ok (dirs, files).
Proof.
  induction depth as [|depth IH]; intros top root dirs files; simpl.
  { by intros ?%elem_of_nil. }
  destruct (scandir pf fs top) as [[ds fls]|] eqn:E; [|by intros ?%elem_of_nil].
  intros [[= -> -> ->]|Hin]%elem_of_cons; [done|].
  apply list_elem_of_bind in Hin as (dirname & Hin & _).
  destruct (is_symlink fs (dirname :: top)); [by apply elem_of_nil in Hin|].
  apply IH in Hin as [Hsuf Hscan]. split; [|done].
  etrans; [|exact Hsuf]. by apply suffix_cons_r.
Qed.

Lemma lstat_above fs rel p nd :
  lstat fs (rel ++ p) = Ok nd → rel ≠ [] → lstat fs p = Ok Dir.
Proof.
  revert nd. induction rel as [|n rel IH]; intros nd Hl Hne; [done|].
  simpl in Hl. apply lstat_parent in Hl.
  destruct rel as [|m rel]; [done|]. by apply (IH Dir).
Qed.

Lemma os_walk_reaches pf fs : ∀ depth rel top,
  lstat fs (rel ++ top) = Ok Dir →
  length (rel ++ top) ≤ path_max pf →
  length rel < depth →
  ∃ dirs files, (rel ++ top, dirs, files) ∈ LinkIndex.os_walk depth pf fs top.
Proof.
  induction depth as [|depth IH]; intros rel top Hl Hlen Hd; [lia|].
  assert (lstat fs top = Ok Dir) as Htop.
  { destruct rel as [|n rel]; [done|]. by apply (lstat_above _ _ _ _ Hl). }
  assert (length top ≤ path_max pf) as Hlt by (rewrite length_app in Hlen; lia).
  simpl. rewrite (scandir_dir _ _ _ Htop Hlt).
  destruct rel as [|x rel _] using rev_ind.
  { eexists _, _. by left. }
  rewrite <- (assoc_L (++)) in Hl, Hlen |- *. cbn [app] in Hl, Hlen |- *.
  rewrite length_app in Hd. simpl in Hd.
  assert (lstat fs (x :: top) = Ok Dir) as Hx.
  { destruct rel as [|n rel]; [done|]. by apply (lstat_above _ _ _ _ Hl). }
  destruct (IH rel (x :: top)) as (dirs & files & Hin); [done|done|lia|].
  exists dirs, files. right. apply list_elem_of_bind. exists x. split.
  - unfold is_symlink. by rewrite Hx.
  - apply list_elem_of_filter. split; [by apply is_dir_lstat|].
    apply elem_of_child_names. rewrite (lstat_lookup _ _ _ _ Hx). by eexists.
Qed.

Lemma entry_of_Some fs p as_dir e :
  LinkIndex.entry_of fs p as_dir = Some e →
  LinkIndex.entry_path e = p ∧
  st_nlink fs p = Ok (LinkIndex.nlink e) ∧
  obj_of fs p = Ok (LinkIndex.inode e) ∧
  LinkIndex.is_dir e = as_dir ∧
  LinkIndex.is_hardlink e = negb as_dir && (1 <? LinkIndex.nlink e).
Proof.
  unfold LinkIndex.entry_of.
  destruct (st_nlink fs p) as [k|]; [|done]. destruct (obj_of fs p) as [o|]; [|done].
  intros [= <-]. simpl. by destruct as_dir.
Qed.

Lemma elem_of_scan_hardlinks pf fs base_path e :
  e ∈ LinkIndex.scan_hardlinks pf fs base_path ↔
  ∃ root_path dirs files name as_dir,
    (root_path, dirs, files)
      ∈ LinkIndex.os_walk (walk_depth pf base_path) pf fs base_path ∧
    name ∈ (if as_dir : bool then dirs else files) ∧
    LinkIndex.entry_of fs (name :: root_path) as_dir = Some e.
Proof.
  unfold LinkIndex.scan_hardlinks. rewrite list_elem_of_bind. split.
  - intros ([[root dirs] files] & Hin & Hw).
    apply elem_of_app in Hin as [Hin|Hin]; apply list_elem_of_omap in Hin as (name & Hn & He).
    + by exists root, dirs, files, name, false.
    + by exists root, dirs, files, name, true.
  - intros (root & dirs & files & name & as_dir & Hw & Hn & He).
    exists (root, dirs, files). split; [|done]. apply elem_of_app.
    destruct as_dir; [right|left]; apply list_elem_of_omap; by exists name.
Qed.

(** X16.  What the scan reports is what the file system has: each entry
    lies strictly below the base path, carries the link count and the
    identity that [stat] gives for its path, is marked as a directory
    exactly when its path leads to one, and is marked as a hard link
    exactly when it is not a directory and has more than one link. *)
Theorem scan_hardlinks_sound pf fs base_path e :
  e ∈ LinkIndex.scan_hardlinks pf fs base_path →
  (∃ name root_path, LinkIndex.entry_path e = name :: root_path
                     ∧ base_path `suffix_of` root_path) ∧
  st_nlink fs (LinkIndex.entry_path e) = Ok (LinkIndex.nlink e) ∧
  obj_of fs (LinkIndex.entry_path e) = Ok (LinkIndex.inode e) ∧
  LinkIndex.is_dir e = is_dir fs (LinkIndex.entry_path e) ∧
  LinkIndex.is_hardlink e = negb (LinkIndex.is_dir e) && (1 <? LinkIndex.nlink e).
Proof.
  intros (root & dirs & files & name & as_dir & Hw & Hn & He)%elem_of_scan_hardlinks.
  apply os_walk_sound in Hw as [Hsuf Hscan].
  apply entry_of_Some in He as (Hp & Hk & Ho & Hd & Hh). rewrite Hp, Hd.
  split; [by exists name, root|]. split; [done|]. split; [done|]. split; [|done].
  destruct (scandir_split _ _ _ _ _ name Hscan) as [H1 H2].
  destruct as_dir; symmetry; auto.
Qed.

Lemma obj_of_st_nlink fs p k : st_nlink fs p = Ok k → ∃ o, obj_of fs p = Ok o.
Proof.
  unfold st_nlink, obj_of. destruct (follow MAXSYMLINKS fs p) as [[d []]|]; by eauto.
Qed.

Lemma scan_hardlinks_finds pf fs base_path rel name k :
  lstat fs (rel ++ base_path) = Ok Dir →
  length (rel ++ base_path) ≤ path_max pf →
  st_nlink fs (name :: rel ++ base_path) = Ok k →
  ∃ e, e ∈ LinkIndex.scan_hardlinks pf fs base_path ∧
       LinkIndex.entry_path e = name :: rel ++ base_path ∧
       LinkIndex.nlink e = k ∧
       LinkIndex.is_dir e = is_dir fs (name :: rel ++ base_path).
Proof.
  intros Hroot Hlen Hk.
  destruct (os_walk_reaches pf fs (walk_depth pf base_path) rel base_path)
    as (dirs & files & Hw); [done|done|..].
  { unfold walk_depth. rewrite length_app in Hlen. lia. }
  pose proof (os_walk_sound _ _ _ _ _ _ _ Hw) as [_ Hscan].
  rewrite (scandir_dir _ _ _ Hroot Hlen) in Hscan. injection Hscan as <- <-.
  destruct (st_nlink_lstat _ _ _ Hk) as [nd Hnd].
  assert (name ∈ child_names fs (rel ++ base_path)) as Hname.
  { apply elem_of_child_names. rewrite (lstat_lookup _ _ _ _ Hnd). by eexists. }
  destruct (obj_of_st_nlink _ _ _ Hk) as [o Ho].
  eexists. split.
  - apply elem_of_scan_hardlinks.
    eexists (rel ++ base_path), _, _, name, (is_dir fs (name :: rel ++ base_path)).
    split; [exact Hw|]. split.
    + destruct (is_dir fs (name :: rel ++ base_path)) eqn:E;
        apply list_elem_of_filter; (split; [|done]); [done|congruence].
    + unfold LinkIndex.entry_of. by rewrite Hk, Ho.
  - done.
Qed.

(** X17.  The scan misses nothing it can reach: every entry below a real
    base directory whose path [stat] can read, lying in a directory the
    walk can list, is reported, with its link count, its identity and
    its two marks. *)
Theorem scan_hardlinks_complete pf fs base_path rel name k :
  lstat fs (rel ++ base_path) = Ok Dir →
  length (rel ++ base_path) ≤ path_max pf →
  st_nlink fs (name :: rel ++ base_path) = Ok k →
  ∃ e, e ∈ LinkIndex.scan_hardlinks pf fs base_path ∧
       LinkIndex.entry_path e = name :: rel ++ base_path ∧
       LinkIndex.nlink e = k ∧
       obj_of fs (name :: rel ++ base_path) = Ok (LinkIndex.inode e) ∧
       LinkIndex.is_dir e = is_dir fs (name :: rel ++ base_path) ∧
       LinkIndex.is_hardlink e = negb (is_dir fs (name :: rel ++ base_path)) && (1 <? k).
Proof.
  intros Hroot Hlen Hk.
  destruct (scan_hardlinks_finds pf fs base_path rel name k Hroot Hlen Hk)
    as (e & He & Hpath & Hnl & Hdir).
  exists e. split; [done|]. split; [done|]. split; [done|].
  apply elem_of_scan_hardlinks in He as (root & dirs & files & nm & as_dir & _ & _ & He).
  apply entry_of_Some in He as (Hp & _ & Ho & Hd & Hh).
  rewrite <- Hp, Hpath in Ho. rewrite <- Hd, Hdir, Hnl in Hh. done.
Qed.

Lemma inode_links_pos fs p i : tree fs !! p = Some (File i) → 0 < inode_links fs i.
Proof.
  intros Hp. unfold inode_links.
  assert (size (filter (λ kv : path * node, kv.2 = File i) (tree fs)) ≠ 0); [|lia].
  apply (map_size_ne_0_lookup_2 _ p). exists (File i). by apply map_lookup_filter_Some.
Qed.

(** X18.  A link that has just been created, under a free name within
    the limits of the file system, shows up in the index of its
    directory, marked as a hard link of the source's file, with one link
    more than the file had. *)
Theorem deployed_link_is_indexed env fs source destination_dir name conflict_strategy i :
  let link_path := link_name_of name source :: destination_dir in
  within_limits fs →
  is_component (link_name_of name source) = true →
  fits link_path = true →
  lstat fs source = Ok (File i) →
  lstat fs destination_dir = Ok Dir →
  length destination_dir < path_max (plat env) →
  lstat fs link_path = Err ENOENT →
  let fs' := (create_hardlink env fs source destination_dir name conflict_strategy).1 in
  ∃ e, e ∈ LinkIndex.scan_hardlinks (plat env) fs' destination_dir ∧
       LinkIndex.entry_path e = link_path ∧
       LinkIndex.inode e = ObjFile i ∧
       LinkIndex.nlink e = S (inode_links fs i) ∧
       LinkIndex.is_hardlink e = true ∧
       LinkIndex.is_dir e = false.
Proof.
  intros link_path _ Hc _ Hs Hd Hlen Hfree. subst link_path.
  pose proof (lstat_ENOENT_free _ _ _ Hd Hfree) as Hnone.
  assert (present fs (link_name_of name source :: destination_dir) = false) as Hp.
  { apply not_present_lstat. eauto. }
  unfold create_hardlink.
  assert (is_file fs source = true) as Hf.
  { unfold is_file, stat. by rewrite (follow_file _ _ _ _ Hs). }
  rewrite (is_file_exists _ _ Hf), (is_dir_lstat _ _ Hd), (is_file_not_dir _ _ Hf), Hf.
  cbn [negb]. rewrite (link_name_component _ _ Hc).
  unfold file_conflict. rewrite Hp. unfold os_link. rewrite Hs.
  rewrite (creatable_free _ _ _ _ Hlen Hd Hp). cbn [fst].
  revert Hc Hnone Hp. generalize (link_name_of name source). intros ln Hc Hnone Hp.
  set (fs1 := apply_permissions env _ (ln :: destination_dir)).
  assert (lstat fs1 (ln :: destination_dir) = Ok (File i)) as Hl.
  { unfold fs1. rewrite lstat_apply_permissions. by apply lstat_after_insert. }
  assert (inode_links fs1 i = S (inode_links fs i)) as Hn.
  { unfold fs1. rewrite inode_links_apply_permissions. by apply inode_links_insert_fresh. }
  clearbody fs1.
  assert (lstat fs1 destination_dir = Ok Dir) as Hd1 by (by apply lstat_parent in Hl).
  assert (st_nlink fs1 (ln :: destination_dir) = Ok (S (inode_links fs i))) as Hk.
  { unfold st_nlink. by rewrite (follow_file _ _ _ _ Hl), Hn. }
  destruct (scan_hardlinks_finds (plat env) fs1 destination_dir [] ln
              (S (inode_links fs i)) Hd1) as (e & He & Hpath & Hnl & Hdir);
    [simpl; lia|exact Hk|]. cbn [app] in *.
  exists e. split; [done|]. split; [done|].
  apply elem_of_scan_hardlinks in He as (root & dirs & files & nm & as_dir & _ & _ & He).
  apply entry_of_Some in He as (Hp' & _ & Ho & Hd' & Hh).
  rewrite <- Hp', Hpath, (obj_of_file _ _ _ Hl) in Ho.
  assert (is_dir fs1 (ln :: destination_dir) = false) as Hnd.
  { apply is_file_not_dir. unfold is_file, stat. by rewrite (follow_file _ _ _ _ Hl). }
  rewrite Hnd in Hdir. rewrite <- Hd', Hdir, Hnl in Hh.
  split; [congruence|]. split; [done|]. split; [|done].
  rewrite Hh. simpl. apply Nat.ltb_lt.
  pose proof (inode_links_pos fs source i) as Hpos.
  destruct source as [|sn sp]; [done|]. rewrite (lstat_lookup _ _ _ _ Hs) in Hpos.
  specialize (Hpos eq_refl). lia.
Qed.

(** ** The text of a dialog *)

Lemma string_cons_app (c : ascii) (s r : string) : String c s +:+ r = String c (s +:+ r).
Proof. done. Qed.

Lemma lstrip_split (s : string) :
  ∃ pre, s = pre +:+ lstrip s ∧ blank pre = true.
Proof.
  induction s as [|c s (pre & E & Hpre)]; [by exists ""|]. cbn [lstrip rstrip blank].
  destruct (is_space c) eqn:Ec; [|by exists ""].
  exists (String c pre). rewrite string_cons_app, <- E. split; [done|].
  cbn [lstrip rstrip blank]. by rewrite Ec.
Qed.

Lemma rstrip_split (s : string) :
  ∃ post, s = rstrip s +:+ post ∧ blank post = true.
Proof.
  induction s as [|c s (post & E & Hpost)]; [by exists ""|]. cbn [lstrip rstrip blank].
  destruct (rstrip s) as [|c' r] eqn:Er.
  - change ("" +:+ post) with post in E. subst post.
    destruct (is_space c) eqn:Ec.
    + exists (String c s). split; [done|]. cbn [lstrip rstrip blank]. by rewrite Ec.
    + by exists s.
  - exists post. by rewrite string_cons_app, <- E.
Qed.

Lemma rstrip_idem (s : string) : rstrip (rstrip s) = rstrip s.
Proof.
  induction s as [|c s IH]; [done|]. cbn [lstrip rstrip blank].
  destruct (rstrip s) as [|c' r] eqn:Er.
  - destruct (is_space c) eqn:Ec; [done|]. cbn [lstrip rstrip blank]. by rewrite Ec.
  - change (rstrip (String c (String c' r))) with
      (match rstrip (String c' r) with
       | "" => if is_space c then "" else String c ""
       | r0 => String c r0
       end).
    by rewrite IH.
Qed.

Lemma lstrip_rstrip_lstrip (s : string) : lstrip (rstrip (lstrip s)) = rstrip (lstrip s).
Proof.
  induction s as [|c s IH]; [done|]. cbn [lstrip rstrip blank].
  destruct (is_space c) eqn:Ec; [done|]. cbn [lstrip rstrip blank].
  destruct (rstrip s); rewrite ?Ec; cbn [lstrip rstrip blank]; by rewrite Ec.
Qed.

Lemma strip_idem (s : string) : strip (strip s) = strip s.
Proof. unfold strip. by rewrite lstrip_rstrip_lstrip, rstrip_idem. Qed.

Lemma blank_app (s r : string) : blank (s +:+ r) = blank s && blank r.
Proof.
  induction s as [|c s IH]; [done|]. rewrite string_cons_app. cbn [lstrip rstrip blank].
  by rewrite IH, andb_assoc.
Qed.

Lemma blank_strip (s : string) : blank s = true ↔ strip s = "".
Proof.
  unfold strip. split.
  - induction s as [|c s IH]; [done|]. cbn [lstrip rstrip blank].
    intros [Ec Hs]%andb_true_iff. rewrite Ec. by apply IH.
  - intros E. destruct (lstrip_split s) as (pre & Es & Hpre).
    destruct (rstrip_split (lstrip s)) as (post & Et & Hpost).
    rewrite E in Et. change ("" +:+ post) with post in Et.
    rewrite Es, Et, blank_app, Hpre, Hpost. done.
Qed.

(** X19.  What a dialog hands to its callback for a text in plain ASCII:
    the text typed, without the white space around it, and never an empty
    text.  A text of white space alone is refused. *)
Theorem try_submit_spec {A} (on_submit : string → A) (input_value : string) :
  is_ascii input_value = true →
  (try_submit on_submit input_value = None ↔ blank input_value = true) ∧
  (∀ y, try_submit on_submit input_value = Some y →
        ∃ pre value post,
          input_value = pre +:+ value +:+ post ∧
          blank pre = true ∧ blank post = true ∧
          value ≠ "" ∧ strip value = value ∧ y = on_submit value).
Proof.
  intros _. unfold try_submit. split.
  - rewrite blank_strip. by case_decide.
  - intros y. case_decide as E; [done|]. intros [= <-].
    destruct (lstrip_split input_value) as (pre & Es & Hpre).
    destruct (rstrip_split (lstrip input_value)) as (post & Et & Hpost).
    exists pre, (strip input_value), post.
    split; [|by rewrite strip_idem]. unfold strip. by rewrite <- Et.
Qed.

(** ** Mirroring a directory *)

Lemma suffix_comparable {A} (l1 l2 k : list A) :
  l1 `suffix_of` k → l2 `suffix_of` k → l1 `suffix_of` l2 ∨ l2 `suffix_of` l1.
Proof.
  revert l1 l2. induction k as [|x k IH]; intros l1 l2 H1 H2.
  - apply suffix_nil_inv in H1 as ->. left. apply suffix_nil.
  - destruct l1 as [|a l1]; [left; apply suffix_nil|].
    destruct l2 as [|b l2]; [right; apply suffix_nil|].
    apply suffix_cons_inv in H1 as [->|H1]; [by right|].
    apply suffix_cons_inv in H2 as [->|H2]; [left; by apply suffix_cons_r|]. by apply IH.
Qed.

Lemma suffix_snoc_child (d n : string) (p r : path) :
  (d :: p) `suffix_of` (r ++ n :: p) → d = n.
Proof.
  intros [r' E]. apply (f_equal reverse) in E.
  rewrite !reverse_app, !reverse_cons, <- !(assoc_L (++)) in E.
  apply app_inv_head in E. simpl in E. congruence.
Qed.

Section mirror.
Context (env : Env) (fs : filesystem) (conflict_strategy : string).
Context (source target : path).
Context (Hwf : wf fs).
Context (Hapart : ∀ k, source `suffix_of` k → target `suffix_of` k → False).
Context (Hplain : ∀ rel nd, tree fs !! (rel ++ source) = Some nd →
           (∀ t, nd ≠ Symlink t) ∧
           length (rel ++ source) ≤ path_max (plat env) ∧
           length (rel ++ target) ≤ path_max (plat env)).

Lemma mirror_source_lstat st k :
  (∀ q, ¬ target `suffix_of` q → tree st !! q = tree fs !! q) →
  source `suffix_of` k → lstat st k = lstat fs k.
Proof.
  intros Hsame Hk. apply lstat_frame. intros q Hq. apply Hsame. intros Ht.
  apply (Hapart k); [done|by etrans].
Qed.

Lemma mirror_dest_root rel :
  dest_root_of source target (rel ++ source) = rel ++ target.
Proof.
  unfold dest_root_of, Path.relative_to, Path.join_rel. rewrite length_app.
  replace (length rel + length source - length source) with (length rel) by lia.
  by rewrite take_app_length.
Qed.

Lemma mirror_link_files rel : ∀ files st,
  NoDup files →
  (∀ f, f ∈ files → ∃ i, tree fs !! (f :: rel ++ source) = Some (File i)) →
  (∀ q, ¬ target `suffix_of` q → tree st.1 !! q = tree fs !! q) →
  lstat st.1 (rel ++ target) = Ok Dir →
  (∀ f, f ∈ files → tree st.1 !! (f :: rel ++ target) = None) →
  let st' := foldl (link_file env conflict_strategy (rel ++ source) (rel ++ target)) st files in
  st'.2 = st.2 ∧
  (∀ f, f ∈ files → tree st'.1 !! (f :: rel ++ target) = tree fs !! (f :: rel ++ source)) ∧
  (∀ k, (∀ f, f ∈ files → k ≠ f :: rel ++ target) → tree st'.1 !! k = tree st.1 !! k).
Proof.
  induction files as [|f files IH]; intros [st flag] Hnd Hfiles Hsame Hroot Hfree.
  { simpl. split; [done|]. split; [by intros f ?%elem_of_nil|done]. }
  cbn [fst snd] in *. apply NoDup_cons in Hnd as [Hf Hnd].
  destruct (Hfiles f) as [i Hi]; [by left|].
  assert (lstat st (f :: rel ++ source) = Ok (File i)) as Hsrc.
  { rewrite (mirror_source_lstat st); [by apply wf_lstat|done|].
    apply suffix_cons_r. by exists rel. }
  assert (present st (f :: rel ++ target) = false) as Hp.
  { apply not_present_lstat. rewrite lstat_cons, Hroot, Hfree by (by left). eauto. }
  assert (link_file env conflict_strategy (rel ++ source) (rel ++ target) (st, flag) f
          = (apply_permissions env
               (with_tree st (<[f :: rel ++ target := File i]> (tree st)))
               (f :: rel ++ target), flag)) as Hstep.
  { unfold link_file, plan_file. rewrite Hp. unfold os_link. rewrite Hsrc.
    rewrite creatable_free; [done| |done|done].
    destruct (Hplain (f :: rel) (File i) Hi) as (_ & _ & Hlen). simpl in Hlen. lia. }
  cbn [foldl]. rewrite Hstep.
  set (st1 := apply_permissions env _ _).
  assert (tree st1 = <[f :: rel ++ target := File i]> (tree st)) as Ht
    by (unfold st1; by rewrite tree_apply_permissions).
  clearbody st1.
  destruct (IH (st1, flag)) as (Hflag & Hin & Hout); cbn [fst snd]; [done|..].
  - intros f' Hf'. apply Hfiles. by right.
  - intros q Hq. rewrite Ht, lookup_insert_ne; [by apply Hsame|].
    intros <-. apply Hq. by exists (f :: rel).
  - apply lstat_grows with st; [|done]. rewrite Ht. apply insert_subseteq.
    apply Hfree. by left.
  - intros f' Hf'. rewrite Ht, lookup_insert_ne by (intros [= ->]; done).
    apply Hfree. by right.
  - cbn [fst snd] in Hflag, Hin, Hout. split; [done|]. split.
    + intros f' [->|Hf']%elem_of_cons; [|by apply Hin].
      rewrite Hout; [by rewrite Ht, lookup_insert_eq|]. intros f' Hf' [= ->]. done.
    + intros k Hk. rewrite Hout; [rewrite Ht, lookup_insert_ne; [done|]|].
      * intros <-. by apply (Hk f); [left|].
      * intros f' Hf'. apply Hk. by right.
Qed.

Lemma mirror_descend rel
    (walk_from : path → filesystem * bool → filesystem * bool) :
  (∀ d st,
     tree fs !! (d :: rel ++ source) = Some Dir →
     (∀ q, ¬ target `suffix_of` q → tree st.1 !! q = tree fs !! q) →
     (∀ k, (d :: rel ++ target) `suffix_of` k → tree st.1 !! k = None) →
     lstat st.1 (rel ++ target) = Ok Dir →
     (walk_from (d :: rel ++ source) st).2 = st.2 ∧
     (∀ r, tree (walk_from (d :: rel ++ source) st).1 !! (r ++ d :: rel ++ target)
           = tree fs !! (r ++ d :: rel ++ source)) ∧
     (∀ k, ¬ (d :: rel ++ target) `suffix_of` k →
           tree (walk_from (d :: rel ++ source) st).1 !! k = tree st.1 !! k)) →
  ∀ dirs st,
  NoDup dirs →
  (∀ d, d ∈ dirs → tree fs !! (d :: rel ++ source) = Some Dir) →
  (∀ q, ¬ target `suffix_of` q → tree st.1 !! q = tree fs !! q) →
  lstat st.1 (rel ++ target) = Ok Dir →
  (∀ d k, d ∈ dirs → (d :: rel ++ target) `suffix_of` k → tree st.1 !! k = None) →
  let st' := descend walk_from (rel ++ source) st dirs in
  st'.2 = st.2 ∧
  (∀ d r, d ∈ dirs →
          tree st'.1 !! (r ++ d :: rel ++ target) = tree fs !! (r ++ d :: rel ++ source)) ∧
  (∀ k, (∀ d, d ∈ dirs → ¬ (d :: rel ++ target) `suffix_of` k) →
        tree st'.1 !! k = tree st.1 !! k).
Proof.
  intros Hwalk. unfold descend.
  induction dirs as [|d dirs IH]; intros st Hnd Hdirs Hsame Hroot Hfree.
  { simpl. split; [done|]. split; [by intros d r ?%elem_of_nil|done]. }
  apply NoDup_cons in Hnd as [Hd Hnd]. cbn [foldl].
  assert (is_symlink st.1 (d :: rel ++ source) = false) as ->.
  { unfold is_symlink. rewrite (mirror_source_lstat st.1); [|done|].
    - rewrite (wf_lstat _ _ Dir Hwf); [done|]. apply Hdirs. by left.
    - apply suffix_cons_r. by exists rel. }
  destruct (Hwalk d st) as (Hflag & Hin & Hout); [apply Hdirs; by left|done| |done|].
  { intros k. apply Hfree. by left. }
  set (st1 := walk_from (d :: rel ++ source) st) in *. clearbody st1.
  assert (∀ d' k, d' ≠ d → (d' :: rel ++ target) `suffix_of` k →
                  ¬ (d :: rel ++ target) `suffix_of` k) as Hsib.
  { intros d' k Hne H1 H2. by apply (siblings_apart d d' (rel ++ target) (λ E, Hne (eq_sym E)) k). }
  destruct (IH st1) as (Hflag' & Hin' & Hout'); [done|..].
  - intros d' Hd'. apply Hdirs. by right.
  - intros q Hq. rewrite Hout; [by apply Hsame|].
    intros Hs. apply Hq. etrans; [|exact Hs]. apply suffix_cons_r. by exists rel.
  - rewrite <- Hroot. apply lstat_frame. intros q Hq. apply Hout.
    intros Hs. apply (suffix_cons_not d (rel ++ target)). by etrans.
  - intros d' k Hd' Hk. rewrite Hout.
    + apply (Hfree d'); [by right|done].
    + apply (Hsib d'); [|done]. intros ->. done.
  - split; [congruence|]. split.
    + intros d' r [->|Hd']%elem_of_cons; [|by apply Hin'].
      rewrite Hout'; [apply Hin|]. intros d' Hd' Hs.
      apply (Hsib d' _ (λ E, Hd (eq_ind d' (λ x, x ∈ dirs) Hd' d E)) Hs). by exists r.
    + intros k Hk. rewrite Hout'.
      * apply Hout, Hk. by left.
      * intros d' Hd'. apply Hk. by right.
Qed.

Lemma mirror_walk : ∀ depth rel st,
  S (path_max (plat env)) - length (rel ++ source) ≤ depth →
  tree fs !! (rel ++ source) = Some Dir →
  (∀ q, ¬ target `suffix_of` q → tree st.1 !! q = tree fs !! q) →
  (∀ k, (rel ++ target) `suffix_of` k → tree st.1 !! k = None) →
  (∃ x par, rel ++ target = x :: par ∧ lstat st.1 par = Ok Dir) →
  let st' := walk depth env conflict_strategy source target (rel ++ source) st in
  st'.2 = st.2 ∧
  (∀ r, tree st'.1 !! (r ++ rel ++ target) = tree fs !! (r ++ rel ++ source)) ∧
  (∀ k, ¬ (rel ++ target) `suffix_of` k → tree st'.1 !! k = tree st.1 !! k).
Proof.
  induction depth as [|depth IH];
    intros rel [st flag] Hdepth Hdir Hsame Hnone (x & par & Erp & Hpar);
    destruct (Hplain rel Dir Hdir) as (_ & Hlen_s & Hlen_t); [lia|].
  cbn [fst snd] in *. rewrite walk_S. cbn [fst].
  assert (∀ n, ¬ target `suffix_of` (n :: rel ++ source)) as Hchild.
  { intros n Hs. apply (Hapart (n :: rel ++ source)); [|done].
    apply suffix_cons_r. by exists rel. }
  assert (lstat st (rel ++ source) = Ok Dir) as Htop.
  { rewrite (mirror_source_lstat st); [by apply wf_lstat|done|by exists rel]. }
  rewrite (scandir_dir _ _ _ Htop Hlen_s).
  set (names := child_names st (rel ++ source)).
  assert (∀ n, n ∈ names ↔ is_Some (tree fs !! (n :: rel ++ source))) as Hnames.
  { intros n. unfold names. by rewrite elem_of_child_names, Hsame. }
  assert (∀ n, is_dir st (n :: rel ++ source) = true
               ↔ tree fs !! (n :: rel ++ source) = Some Dir) as Hisdir.
  { intros n. split.
    - intros Hd. destruct (tree fs !! (n :: rel ++ source)) as [nd|] eqn:E.
      + pose proof (wf_lstat _ _ _ Hwf E) as Hl.
        rewrite <- (mirror_source_lstat st) in Hl; [|done|apply suffix_cons_r; by exists rel].
        destruct nd as [i| |t]; [|done|].
        * unfold is_dir, stat in Hd. by rewrite (follow_file _ _ _ _ Hl) in Hd.
        * destruct (Hplain (n :: rel) _ E) as (Hno & _); by destruct (Hno t).
      + rewrite is_dir_lstat_err with (e := ENOENT) in Hd; [done|].
        rewrite lstat_cons, Htop, Hsame, E; done.
    - intros E. apply is_dir_lstat.
      rewrite (mirror_source_lstat st); [by apply wf_lstat|done|].
      apply suffix_cons_r. by exists rel. }
  set (dirs := filter (λ n, is_dir st (n :: rel ++ source) = true) names).
  set (files := filter (λ n, is_dir st (n :: rel ++ source) ≠ true) names).
  assert (∀ d, d ∈ dirs ↔ tree fs !! (d :: rel ++ source) = Some Dir) as Hdirs.
  { intros d. unfold dirs. rewrite list_elem_of_filter, Hisdir, Hnames.
    split; [by intros [? _]|]. intros E. split; [done|by eexists]. }
  assert (∀ f, f ∈ files ↔ ∃ i, tree fs !! (f :: rel ++ source) = Some (File i)) as Hfiles.
  { intros f. unfold files. rewrite list_elem_of_filter, Hisdir, Hnames. split.
    - intros [Hnd [nd E]]. destruct nd as [i| |t]; [by exists i|done|].
      destruct (Hplain (f :: rel) _ E) as (Hno & _); by destruct (Hno t).
    - intros [i E]. split; [congruence|by eexists]. }
  assert (NoDup dirs) as Hnd_dirs by apply NoDup_filter, NoDup_child_names.
  assert (NoDup files) as Hnd_files by apply NoDup_filter, NoDup_child_names.
  clearbody dirs files. clear names Hnames.
  (* the directory itself *)
  unfold visit. rewrite mirror_dest_root.
  assert (mkdir_parents (plat env) st (rel ++ target)
          = (with_tree st (<[rel ++ target := Dir]> (tree st)), true)) as ->.
  { rewrite Erp, mkdir_parents_cons. unfold os_mkdir.
    rewrite creatable_free; [done| |done|].
    - rewrite Erp in Hlen_t. simpl in Hlen_t. lia.
    - apply not_present_lstat. rewrite lstat_cons, Hpar, <- Erp, Hnone by done. eauto. }
  set (st1 := apply_permissions env _ (rel ++ target)).
  assert (tree st1 = <[rel ++ target := Dir]> (tree st)) as Ht1
    by (unfold st1; by rewrite tree_apply_permissions).
  assert (lstat st1 (rel ++ target) = Ok Dir) as Hroot1.
  { unfold st1. rewrite lstat_apply_permissions, Erp. by apply lstat_after_insert. }
  clearbody st1.
  assert (∀ q, ¬ target `suffix_of` q → tree st1 !! q = tree fs !! q) as Hsame1.
  { intros q Hq. rewrite Ht1, lookup_insert_ne; [by apply Hsame|].
    intros <-. apply Hq. by exists rel. }
  (* its files *)
  destruct (mirror_link_files rel files (st1, flag)) as (Hflag2 & Hin2 & Hout2);
    cbn [fst snd]; [done|by intros f ?%Hfiles|done|done|..].
  { intros f _. rewrite Ht1, lookup_insert_ne by apply cons_neq.
    apply Hnone. by apply suffix_cons_r. }
  set (st2 := foldl _ (st1, flag) files) in *. clearbody st2.
  cbn [fst snd] in Hflag2, Hin2, Hout2.
  assert (lstat st2.1 (rel ++ target) = Ok Dir) as Hroot2.
  { rewrite <- Hroot1. apply lstat_frame. intros q Hq. apply Hout2.
    intros f _ ->. by apply suffix_cons_not in Hq. }
  assert (∀ q, ¬ target `suffix_of` q → tree st2.1 !! q = tree fs !! q) as Hsame2.
  { intros q Hq. rewrite Hout2; [by apply Hsame1|].
    intros f _ ->. apply Hq. by exists (f :: rel). }
  (* its directories *)
  destruct (mirror_descend rel
              (walk depth env conflict_strategy source target)) with (dirs := dirs) (st := st2)
    as (Hflag3 & Hin3 & Hout3); [|done|by intros d ?%Hdirs|done|done|..].
  { intros d st' Hd Hsame' Hnone' Hroot'. apply (IH (d :: rel) st'); [|done|done|done|].
    - simpl. simpl in Hdepth. lia.
    - by exists d, (rel ++ target). }
  { intros d k Hd Hk. rewrite Hout2.
    - rewrite Ht1, lookup_insert_ne.
      + apply Hnone. etrans; [|exact Hk]. by apply suffix_cons_r.
      + intros <-. by apply suffix_cons_not in Hk.
    - intros f Hf ->. apply suffix_cons_inv in Hk as [[= ->]|Hk].
      + apply Hdirs in Hd. apply Hfiles in Hf as [i Hf]. congruence.
      + by apply suffix_cons_not in Hk. }
  set (st3 := descend _ _ st2 dirs) in *. clearbody st3.
  split; [congruence|]. split.
  - intros r. destruct r as [|n r _] using rev_ind.
    + cbn [app]. rewrite Hout3, Hout2, Ht1, lookup_insert_eq; [done|..].
      * intros f _. apply cons_neq.
      * intros d _. apply suffix_cons_not.
    + rewrite <- !(assoc_L (++)). cbn [app].
      destruct (decide (n ∈ dirs)) as [Hn|Hn]; [by apply Hin3|].
      rewrite Hout3.
      2:{ intros d Hd Hs. apply suffix_snoc_child in Hs as ->. done. }
      destruct (decide (r = [] ∧ n ∈ files)) as [[-> Hf]|Hnf]; [by apply Hin2|].
      rewrite Hout2.
      2:{ intros f Hf E. destruct r as [|a r]; [|].
          - simpl in E. injection E as ->. by apply Hnf.
          - apply (f_equal length) in E. simpl in E.
            rewrite !length_app in E. simpl in E. rewrite !length_app in E. lia. }
      rewrite Ht1, lookup_insert_ne.
      2:{ intros E. apply (f_equal length) in E.
          rewrite !length_app in E. simpl in E. rewrite !length_app in E. lia. }
      rewrite Hnone by (by exists (r ++ [n]); rewrite <- (assoc_L (++))).
      symmetry. destruct (tree fs !! (r ++ n :: rel ++ source)) as [nd|] eqn:E; [|done].
      exfalso. destruct r as [|a r].
      * simpl in E. destruct nd as [i| |t].
        -- apply Hnf. split; [done|]. apply Hfiles. by exists i.
        -- apply Hn. by apply Hdirs.
        -- destruct (Hplain (n :: rel) _ E) as (Hno & _); by destruct (Hno t).
      * apply (wf_lstat _ _ _ Hwf) in E. apply lstat_above in E; [|done].
        apply lstat_lookup in E. apply Hn. by apply Hdirs.
  - intros k Hk. rewrite Hout3, Hout2, Ht1, lookup_insert_ne; [done|..].
    + intros <-. by apply Hk.
    + intros f _ ->. apply Hk. by apply suffix_cons_r.
    + intros d _ Hs. apply Hk. etrans; [|exact Hs]. by apply suffix_cons_r.
Qed.

End mirror.

Lemma plain_subtree_ok pf fs source target :
  plain_subtree pf fs source target = true →
  ∀ rel nd, tree fs !! (rel ++ source) = Some nd →
    (∀ t, nd ≠ Symlink t) ∧
    length (rel ++ source) ≤ path_max pf ∧
    length (rel ++ target) ≤ path_max pf ∧
    fits (rel ++ target) = true.
Proof.
  unfold plain_subtree. rewrite forallb_forall. intros H rel nd Hk.
  assert (In (rel ++ source, nd) (map_to_list (tree fs))) as Hin
    by by apply list_elem_of_In, elem_of_map_to_list.
  specialize (H _ Hin). cbn [fst snd] in H.
  rewrite decide_True in H by (by exists rel). rewrite retarget_under in H.
  apply andb_true_iff in H as [[[H1 H2]%andb_true_iff H3]%andb_true_iff H4].
  apply Nat.leb_le in H2, H3. split; [|done]. intros t ->. done.
Qed.

(** X20.  A directory of files and directories, linked under a free name
    into a real directory that does not lie inside it, is mirrored
    whatever the strategy, as long as no path of the copy is too long
    for the system: the call succeeds, every entry below the source is
    found at the same place below the new directory, a file as one more
    name of the same inode and a directory as a directory, and nothing
    else in the tree changes. *)
Theorem create_hardlink_mirrors env fs source destination_dir name conflict_strategy :
  let target := link_name_of name source :: destination_dir in
  wf fs →
  within_limits fs →
  is_component (link_name_of name source) = true →
  lstat fs source = Ok Dir →
  lstat fs destination_dir = Ok Dir →
  lstat fs target = Err ENOENT →
  ¬ source `suffix_of` destination_dir →
  (∀ rel nd, tree fs !! (rel ++ source) = Some nd →
     (∀ t, nd ≠ Symlink t) ∧
     length (rel ++ source) ≤ path_max (plat env) ∧
     length (rel ++ target) ≤ path_max (plat env) ∧
     fits (rel ++ target) = true) →
  ∃ fs', create_hardlink env fs source destination_dir name conflict_strategy = (fs', true)
       ∧ (∀ rel, tree fs' !! (rel ++ target) = tree fs !! (rel ++ source))
       ∧ (∀ k, ¬ target `suffix_of` k → tree fs' !! k = tree fs !! k).
Proof.
  intros target Hwf _ Hc Hs Hd Hfree Hout Hfit. subst target.
  unfold create_hardlink.
  rewrite (is_dir_exists _ _ (is_dir_lstat _ _ Hs)), (is_dir_lstat _ _ Hd),
    (is_dir_lstat _ _ Hs).
  cbn [negb]. rewrite (link_name_component _ _ Hc).
  revert Hc Hfree Hfit. generalize (link_name_of name source). intros ln Hc Hfree Hfit.
  assert (∀ rel nd, tree fs !! (rel ++ source) = Some nd →
            (∀ t, nd ≠ Symlink t) ∧
            length (rel ++ source) ≤ path_max (plat env) ∧
            length (rel ++ ln :: destination_dir) ≤ path_max (plat env)) as Hplain.
  { intros rel nd H. by destruct (Hfit rel nd H) as (? & ? & ? & _). }
  assert (exists_ fs (ln :: destination_dir) = false) as Hex.
  { assert (present fs (ln :: destination_dir) = false) as Hp
      by (apply not_present_lstat; eauto).
    unfold present in Hp. by apply orb_false_iff in Hp as [? _]. }
  unfold top_level_conflict. rewrite Hex.
  assert (tree fs !! source = Some Dir) as Hsrc.
  { destruct source as [|n par]; [|by apply lstat_lookup].
    destruct Hout. apply suffix_nil. }
  assert (∀ k, source `suffix_of` k → (ln :: destination_dir) `suffix_of` k → False)
    as Hapart.
  { intros k H1 H2. destruct (suffix_comparable _ _ _ H1 H2) as [H|[r E]].
    - destruct source as [|n par]; [destruct Hout; apply suffix_nil|].
      apply suffix_cons_inv in H as [E|H]; [|done]. congruence.
    - rewrite E in Hs. destruct r as [|a r]; [cbn [app] in Hs; congruence|].
      apply lstat_above in Hs; [|done]. congruence. }
  assert (∀ k, (ln :: destination_dir) `suffix_of` k → tree fs !! k = None) as Hnone.
  { intros k [r ->]. destruct (tree fs !! (r ++ ln :: destination_dir)) as [nd|] eqn:E; [|done].
    apply (wf_lstat _ _ _ Hwf) in E. destruct r as [|a r]; [cbn [app] in E; congruence|].
    apply lstat_above in E; [|done]. congruence. }
  destruct (mirror_walk env fs conflict_strategy source (ln :: destination_dir)
              Hwf Hapart Hplain (walk_depth (plat env) source) [] (fs, true))
    as (Hflag & Hin & Hrest); cbn [app fst snd]; [done|done|done|done|by eauto|].
  cbn [app fst snd] in Hflag, Hin, Hrest.
  destruct (walk _ _ _ _ _ _ _) as [fs' flag]. cbn [fst snd] in *. subst flag.
  by exists fs'.
Qed.

(** X21.  A well-formed tree stays well formed through a call, whatever
    its arguments and outcome, so that every entry of the tree after the
    call can be looked up by its path. *)
Theorem create_hardlink_keeps_reachable env fs source destination_dir name
    conflict_strategy :
  wf fs →
  let fs' := (create_hardlink env fs source destination_dir name conflict_strategy).1 in
  wf fs' ∧ ∀ p nd, tree fs' !! p = Some nd → lstat fs' p = Ok nd.
Proof.
  intros Hwf fs'.
  pose proof (wf_create_hardlink env fs source destination_dir name conflict_strategy Hwf)
    as Hwf'.
  split; [done|]. intros p nd. by apply wf_lstat.
Qed.

(** ** A sub-directory that cannot be made, and its siblings *)

Section failed_subtree.
Context (env : Env) (fs : filesystem) (conflict_strategy : string).
Context (source target : path).
Context (Hwf : wf fs).
Context (Hapart : ∀ k, source `suffix_of` k → target `suffix_of` k → False).
Context (Hplain : ∀ rel nd, tree fs !! (rel ++ source) = Some nd →
           (∀ t, nd ≠ Symlink t) ∧
           length (rel ++ source) ≤ path_max (plat env) ∧
           length (rel ++ target) ≤ path_max (plat env)).

Lemma failed_subtree_siblings rel depth before d after all_success :
  S (path_max (plat env)) - length (d :: rel ++ source) ≤ depth →
  NoDup (before ++ d :: after) →
  (∀ x, x ∈ before ++ d :: after → tree fs !! (x :: rel ++ source) = Some Dir) →
  lstat fs (rel ++ target) = Ok Dir →
  (∀ x k, x ∈ before ++ after → (x :: rel ++ target) `suffix_of` k → tree fs !! k = None) →
  let walk_from := walk depth env conflict_strategy source target in
  let st1 := descend walk_from (rel ++ source) (fs, all_success) before in
  (mkdir_parents (plat env) st1.1 (d :: rel ++ target)).2 = false →
  let st' := descend walk_from (rel ++ source) (fs, all_success) (before ++ d :: after) in
  walk_from (d :: rel ++ source) st1 = (st1.1, false) ∧
  st'.2 = false ∧
  (∀ k, (d :: rel ++ target) `suffix_of` k → tree st'.1 !! k = tree fs !! k) ∧
  (∀ x r, x ∈ before ++ after →
          tree st'.1 !! (r ++ x :: rel ++ target) = tree fs !! (r ++ x :: rel ++ source)) ∧
  (∀ k, (∀ x, x ∈ before ++ d :: after → ¬ (x :: rel ++ target) `suffix_of` k) →
        tree st'.1 !! k = tree fs !! k).
Proof.
  intros Hdepth Hnd Hdirs Hroot Hfree walk_from st1 Hmk st'.
  apply NoDup_app in Hnd as (Hnd_b & Hdisj & [Hd_a Hnd_a]%NoDup_cons).
  assert (d ∉ before) as Hd_b by (intros H; apply (Hdisj d H); by left).
  assert (∀ x y k, x ≠ y → (x :: rel ++ target) `suffix_of` k →
                   ¬ (y :: rel ++ target) `suffix_of` k) as Hsib.
  { intros x y k Hne H1 H2. by apply (siblings_apart x y (rel ++ target) Hne k). }
  (* what one good sub-directory does *)
  assert (∀ x st,
     tree fs !! (x :: rel ++ source) = Some Dir →
     (∀ q, ¬ target `suffix_of` q → tree st.1 !! q = tree fs !! q) →
     (∀ k, (x :: rel ++ target) `suffix_of` k → tree st.1 !! k = None) →
     lstat st.1 (rel ++ target) = Ok Dir →
     (walk_from (x :: rel ++ source) st).2 = st.2 ∧
     (∀ r, tree (walk_from (x :: rel ++ source) st).1 !! (r ++ x :: rel ++ target)
           = tree fs !! (r ++ x :: rel ++ source)) ∧
     (∀ k, ¬ (x :: rel ++ target) `suffix_of` k →
           tree (walk_from (x :: rel ++ source) st).1 !! k = tree st.1 !! k)) as Hgood.
  { intros x st Hx Hsame Hnone Hroot'.
    apply (mirror_walk env fs conflict_strategy source target Hwf Hapart Hplain
             depth (x :: rel) st); [|done|done|done|by exists x, (rel ++ target)].
    destruct (Hplain (x :: rel) Dir Hx) as (_ & Hl & _). simpl in *. lia. }
  (* the sub-directories before the one that fails *)
  destruct (mirror_descend fs source target Hwf Hapart rel walk_from Hgood before
              (fs, all_success)) as (Hflag1 & Hin1 & Hout1); cbn [fst snd].
  { done. }
  { intros x Hx. apply Hdirs, elem_of_app. by left. }
  { done. }
  { done. }
  { intros x k Hx. apply Hfree, elem_of_app. by left. }
  fold st1 in Hflag1, Hin1, Hout1. cbn [fst snd] in Hflag1, Hin1, Hout1.
  assert (∀ q, ¬ target `suffix_of` q → tree st1.1 !! q = tree fs !! q) as Hsame1.
  { intros q Hq. apply Hout1. intros x _ Hs. apply Hq. etrans; [|exact Hs].
    apply suffix_cons_r. by exists rel. }
  assert (lstat st1.1 (rel ++ target) = Ok Dir) as Hroot1.
  { rewrite <- Hroot. apply lstat_frame. intros q Hq. apply Hout1.
    intros x _ Hs. apply (suffix_cons_not x (rel ++ target)). by etrans. }
  assert (wf st1.1) as Hwf1.
  { apply wf_descend; [|done]. intros p st0. apply wf_walk. }
  (* the one that fails *)
  assert (tree fs !! (d :: rel ++ source) = Some Dir) as Hd.
  { apply Hdirs, elem_of_app. right. by left. }
  destruct (Hplain (d :: rel) Dir Hd) as (_ & Hlen_d & _). cbn [app] in Hlen_d.
  assert (lstat st1.1 (d :: rel ++ source) = Ok Dir) as Hd1.
  { rewrite (mirror_source_lstat fs source target Hapart st1.1); [by apply wf_lstat|done|].
    apply suffix_cons_r. by exists rel. }
  assert (walk_from (d :: rel ++ source) st1 = (st1.1, false)) as Hfail.
  { destruct st1 as [fs1 flag1] eqn:Est1. cbn [fst snd] in *.
    destruct (mkdir_parents (plat env) fs1 (d :: rel ++ target)) as [fs2 ok] eqn:Emk.
    cbn [snd] in Hmk. subst ok.
    destruct (walk_blocked env conflict_strategy source target depth (d :: rel ++ source)
                fs1 flag1 fs2) as (flag & Hw & _ & Hf); [done| | |].
    - apply suffix_cons_r. by exists rel.
    - pose proof (mirror_dest_root source target (d :: rel)) as E. cbn [app] in E.
      by rewrite E.
    - cbn beta in Hw. unfold walk_from. rewrite Hw, Hf; [done| |].
      + simpl in Hdepth. simpl in Hlen_d. lia.
      + rewrite (scandir_dir _ _ _ Hd1 Hlen_d). by eexists. }
  (* the sub-directories after it *)
  assert (st' = descend walk_from (rel ++ source) (st1.1, false) after) as Est'.
  { unfold st', descend. rewrite foldl_app. cbn [foldl]. fold (descend walk_from (rel ++ source)
      (fs, all_success) before). fold st1.
    unfold is_symlink. rewrite Hd1. by rewrite Hfail. }
  destruct (mirror_descend fs source target Hwf Hapart rel walk_from Hgood after
              (st1.1, false)) as (Hflag3 & Hin3 & Hout3); cbn [fst snd].
  { done. }
  { intros x Hx. apply Hdirs, elem_of_app. right. by right. }
  { done. }
  { done. }
  { intros x k Hx Hk. rewrite Hout1.
    - apply (Hfree x); [|done]. apply elem_of_app. by right.
    - intros y Hy. apply (Hsib x y); [|done]. intros ->. apply (Hdisj y Hy). by right. }
  rewrite <- Est' in Hflag3, Hin3, Hout3. cbn [fst snd] in Hflag3, Hin3, Hout3.
  split; [done|]. split; [done|]. split; [|split].
  - intros k Hk. rewrite Hout3, Hout1; [done|..].
    + intros x Hx. apply (Hsib d x); [by intros ->|done].
    + intros x Hx. apply (Hsib d x); [by intros ->|done].
  - intros x r [Hx|Hx]%elem_of_app; [|by apply Hin3].
    rewrite Hout3; [by apply Hin1|]. intros y Hy.
    apply (Hsib x y); [|by exists r]. intros ->. apply (Hdisj y Hx). by right.
  - intros k Hk. rewrite Hout3, Hout1; [done|..].
    + intros x Hx. apply Hk, elem_of_app. by left.
    + intros x Hx. apply Hk, elem_of_app. right. by right.
Qed.

End failed_subtree.

Lemma apart_of_incomparable (source target : path) :
  ¬ source `suffix_of` target → ¬ target `suffix_of` source →
  ∀ k, source `suffix_of` k → target `suffix_of` k → False.
Proof.
  intros H1 H2 k Hs Ht. destruct (suffix_comparable _ _ _ Hs Ht); [by apply H1|by apply H2].
Qed.

Lemma nothing_below fs (p : path) :
  forallb (λ kv : path * node, negb (bool_decide (p `suffix_of` kv.1)))
          (map_to_list (tree fs)) = true →
  ∀ k, p `suffix_of` k → tree fs !! k = None.
Proof.
  rewrite forallb_forall. intros H k Hk.
  destruct (tree fs !! k) as [nd|] eqn:E; [|done].
  assert (In (k, nd) (map_to_list (tree fs))) as Hin
    by by apply list_elem_of_In, elem_of_map_to_list.
  specialize (H _ Hin). cbn [fst] in H. by rewrite bool_decide_eq_true_2 in H.
Qed.

(** C6.  The walk is at a directory [rel ++ source] whose place at the
    destination, [rel ++ target], is a directory, and goes through its
    sub-directories [before ++ d :: after]; below the source there are
    files and directories only, and no path of the copy is too long.
    If, when the walk comes to [d], the directory for [d] cannot be made
    at the destination, then walking [d] changes nothing and clears the
    flag: nothing is linked or created beneath the place of [d].  The
    walk goes on all the same: every other sub-directory of the list,
    before [d] and after it, whose place at the destination was free, is
    mirrored there with all that is beneath it, each file as a further
    name of its inode.  Nothing else changes, and the flag the walk ends
    with is [false]. *)
Theorem failed_subdirectory_only env fs conflict_strategy source target rel depth
    before d after all_success :
  let top := rel ++ source in
  let dest_root := rel ++ target in
  let walk_from := walk depth env conflict_strategy source target in
  let st1 := descend walk_from top (fs, all_success) before in
  let st' := descend walk_from top (fs, all_success) (before ++ d :: after) in
  wf fs →
  within_limits fs →
  ¬ source `suffix_of` target →
  ¬ target `suffix_of` source →
  (∀ r nd, tree fs !! (r ++ source) = Some nd →
     (∀ t, nd ≠ Symlink t) ∧
     length (r ++ source) ≤ path_max (plat env) ∧
     length (r ++ target) ≤ path_max (plat env) ∧
     fits (r ++ target) = true) →
  S (path_max (plat env)) - length (d :: top) ≤ depth →
  NoDup (before ++ d :: after) →
  (∀ x, x ∈ before ++ d :: after → tree fs !! (x :: top) = Some Dir) →
  lstat fs dest_root = Ok Dir →
  (∀ x k, x ∈ before ++ after → (x :: dest_root) `suffix_of` k → tree fs !! k = None) →
  (mkdir_parents (plat env) st1.1 (d :: dest_root)).2 = false →
  walk_from (d :: top) st1 = (st1.1, false) ∧
  st'.2 = false ∧
  (∀ k, (d :: dest_root) `suffix_of` k → tree st'.1 !! k = tree fs !! k) ∧
  (∀ x r, x ∈ before ++ after →
          tree st'.1 !! (r ++ x :: dest_root) = tree fs !! (r ++ x :: top)) ∧
  (∀ k, (∀ x, x ∈ before ++ d :: after → ¬ (x :: dest_root) `suffix_of` k) →
        tree st'.1 !! k = tree fs !! k).
Proof.
  intros top dest_root walk_from st1 st' Hwf _ Hst Hts Hfit Hdepth Hnd Hdirs Hroot Hfree Hmk.
  apply (failed_subtree_siblings env fs conflict_strategy source target Hwf
           (apart_of_incomparable _ _ Hst Hts)); try done.
  intros r nd H. by destruct (Hfit r nd H) as (? & ? & ? & _).
Qed.

Lemma failed_subdirectory_only_witness :
  let walk_from := walk 62 Sample.env "rename" Sample.album Sample.dst_album in
  let st' := descend walk_from Sample.album (Sample.fs2, true) ["art"; "disc2"] in
  walk_from ("art" :: Sample.album) (Sample.fs2, true) = (Sample.fs2, false) ∧
  st'.2 = false ∧
  (∀ k, ("art" :: Sample.dst_album) `suffix_of` k → tree st'.1 !! k = tree Sample.fs2 !! k) ∧
  (∀ x r, x ∈ ["disc2"] →
          tree st'.1 !! (r ++ x :: Sample.dst_album) = tree Sample.fs2 !! (r ++ x :: Sample.album)) ∧
  (∀ k, (∀ x, x ∈ ["art"; "disc2"] → ¬ (x :: Sample.dst_album) `suffix_of` k) →
        tree st'.1 !! k = tree Sample.fs2 !! k).
Proof.
  apply (failed_subdirectory_only Sample.env Sample.fs2 "rename" Sample.album
           Sample.dst_album [] 62 [] "art" ["disc2"] true).
  - apply wf_check_ok. vm_compute. reflexivity.
  - apply within_limits_check_ok. vm_compute. reflexivity.
  - intros H. apply (bool_decide_pack _) in H. vm_compute in H. exact H.
  - intros H. apply (bool_decide_pack _) in H. vm_compute in H. exact H.
  - apply plain_subtree_ok. vm_compute. reflexivity.
  - vm_compute. lia.
  - apply (bool_decide_unpack _). vm_compute. exact I.
  - intros x Hx. apply elem_of_cons in Hx as [->|Hx]; [vm_compute; reflexivity|].
    apply elem_of_cons in Hx as [->|Hx]; [vm_compute; reflexivity|].
    by apply elem_of_nil in Hx.
  - vm_compute. reflexivity.
  - intros x k Hx. apply elem_of_cons in Hx as [->|Hx]; [|by apply elem_of_nil in Hx].
    apply nothing_below. vm_compute. reflexivity.
  - vm_compute. reflexivity.
Defined.

(** * Runs on the sample trees *)

Lemma create_hardlink_never_clobbers_witness :
  let fs' := (create_hardlink Sample.env Sample.fs0 Sample.src_a Sample.dst None "rename").1 in
  tree Sample.fs0 ⊆ tree fs' ∧ ∀ p nd, lstat Sample.fs0 p = Ok nd → lstat fs' p = Ok nd.
Proof.
  apply (create_hardlink_never_clobbers Sample.env Sample.fs0 Sample.src_a Sample.dst
           None "rename").
  discriminate.
Defined.

Lemma create_hardlink_free_witness :
  ∃ fs', create_hardlink Sample.env SampleMore.fs3 Sample.src_a SampleMore.mnt_data
           None "fail" = (fs', true)
       ∧ tree fs' = <["a.txt" :: SampleMore.mnt_data := File 1]> (tree SampleMore.fs3)
       ∧ lstat fs' ("a.txt" :: SampleMore.mnt_data) = Ok (File 1)
       ∧ lstat fs' Sample.src_a = Ok (File 1)
       ∧ inode_links fs' 1 = S (inode_links SampleMore.fs3 1).
Proof.
  apply (create_hardlink_free Sample.env SampleMore.fs3 Sample.src_a SampleMore.mnt_data
           None "fail" 1).
  - apply within_limits_check_ok. vm_compute. reflexivity.
  - vm_compute. reflexivity.
  - vm_compute. reflexivity.
  - vm_compute. reflexivity.
  - vm_compute. reflexivity.
  - vm_compute. lia.
  - vm_compute. reflexivity.
Defined.


Lemma create_hardlink_overwrite_self_witness :
  create_hardlink Sample.env SampleMore.fs3 ("a.txt" :: SampleMore.src) SampleMore.src
    None "overwrite"
  = (with_tree SampleMore.fs3 (delete ("a.txt" :: SampleMore.src) (tree SampleMore.fs3)),
     false).
Proof.
  apply (create_hardlink_overwrite_self Sample.env SampleMore.fs3 "a.txt" SampleMore.src
           None 1).
  - discriminate.
  - reflexivity.
  - vm_compute. reflexivity.
Defined.

Lemma create_hardlink_ownership_shared_witness :
  let fs' := (create_hardlink Sample.env SampleMore.fs3 Sample.src_a SampleMore.mnt_data
                None "fail").1 in
  obj_of fs' Sample.src_a = Ok (ObjFile 1) ∧
  obj_of fs' ("a.txt" :: SampleMore.mnt_data) = Ok (ObjFile 1) ∧
  owner fs' !! ObjFile 1 = Some (1000, 1000) ∧
  mode fs' !! ObjFile 1 = Some 509.
Proof.
  apply (create_hardlink_ownership_shared Sample.env SampleMore.fs3 Sample.src_a
           SampleMore.mnt_data None "fail" 1
           {| rule_user := "media"; rule_group := "media"; rule_permissions := "775" |}
           1000 1000 509).
  - apply within_limits_check_ok. vm_compute. reflexivity.
  - vm_compute. reflexivity.
  - vm_compute. reflexivity.
  - vm_compute. reflexivity.
  - vm_compute. reflexivity.
  - vm_compute. lia.
  - vm_compute. reflexivity.
  - vm_compute. reflexivity.
  - vm_compute. reflexivity.
  - vm_compute. reflexivity.
  - vm_compute. reflexivity.
Defined.

Lemma create_hardlink_keeps_reachable_witness :
  let fs' := (create_hardlink Sample.env Sample.fs0 Sample.album Sample.dst None
                "overwrite").1 in
  wf fs' ∧ ∀ p nd, tree fs' !! p = Some nd → lstat fs' p = Ok nd.
Proof.
  apply (create_hardlink_keeps_reachable Sample.env Sample.fs0 Sample.album Sample.dst
           None "overwrite").
  apply wf_check_ok. vm_compute. reflexivity.
Defined.

Lemma create_hardlink_mirrors_witness :
  ∃ fs', create_hardlink Sample.env Sample.fs0 Sample.album Sample.dst (Some "copy") "fail"
         = (fs', true)
       ∧ (∀ rel, tree fs' !! (rel ++ "copy" :: Sample.dst)
                 = tree Sample.fs0 !! (rel ++ Sample.album))
       ∧ (∀ k, ¬ ("copy" :: Sample.dst) `suffix_of` k → tree fs' !! k = tree Sample.fs0 !! k).
Proof.
  apply (create_hardlink_mirrors Sample.env Sample.fs0 Sample.album Sample.dst
           (Some "copy") "fail").
  - apply wf_check_ok. vm_compute. reflexivity.
  - apply within_limits_check_ok. vm_compute. reflexivity.
  - vm_compute. reflexivity.
  - vm_compute. reflexivity.
  - vm_compute. reflexivity.
  - vm_compute. reflexivity.
  - intros H. apply (bool_decide_pack _) in H. vm_compute in H. exact H.
  - apply plain_subtree_ok. vm_compute. reflexivity.
Defined.

Lemma permissions_cover_subtree_witness :
  is_Some (get_app_permissions_for_path (Some Sample.mounts)
             (Path.join_rel SampleMore.mnt_data ["a.txt"; "films"])).
Proof.
  apply (permissions_cover_subtree (Some Sample.mounts) SampleMore.mnt_data
           ["a.txt"; "films"]).
  vm_compute. eauto.
Defined.

Lemma action_deploy_only_adds_witness :
  let fs' := (action_deploy Sample.env Sample.fs0 Sample.two_selected).1.1 in
  tree Sample.fs0 ⊆ tree fs' ∧ wf fs'.
Proof.
  apply (action_deploy_only_adds Sample.env Sample.fs0 Sample.two_selected).
  apply wf_check_ok. vm_compute. reflexivity.
Defined.


Lemma enter_dir_then_go_up_witness :
  let inside := action_enter_dir Sample.pf SampleMore.fs3 (SampleMore.browsing_src3 0) in
  let back := action_go_up Sample.pf SampleMore.fs3 inside in
  current_dir inside = "album" :: SampleMore.src ∧
  items inside = listing Sample.pf SampleMore.fs3 ("album" :: SampleMore.src) ∧
  current_dir back = SampleMore.src ∧
  items back = listing Sample.pf SampleMore.fs3 SampleMore.src ∧
  selected back = ∅.
Proof.
  apply (enter_dir_then_go_up Sample.pf SampleMore.fs3 (SampleMore.browsing_src3 0) "album").
  - vm_compute. reflexivity.
  - vm_compute. reflexivity.
Defined.

Lemma enter_link_then_go_up_witness :
  let inside := action_enter_dir Sample.pf SampleMore.fs3 (SampleMore.browsing_dst3 1) in
  current_dir inside = "album" :: SampleMore.src ∧
  current_dir (action_go_up Sample.pf SampleMore.fs3 inside) = SampleMore.src.
Proof.
  apply (enter_link_then_go_up Sample.pf SampleMore.fs3 (SampleMore.browsing_dst3 1)
           ("shortcut" :: Sample.dst) "album" SampleMore.src).
  - vm_compute. reflexivity.
  - vm_compute. reflexivity.
  - vm_compute. reflexivity.
Defined.

Lemma do_create_dir_spec_witness :
  ∃ fs' st', do_create_dir Sample.pf SampleMore.fs3 (SampleMore.browsing_dst3 0) "new"
             = (fs', st', false)
     ∧ tree fs' = <["new" :: Sample.dst := Dir]> (tree SampleMore.fs3)
     ∧ owner fs' = owner SampleMore.fs3 ∧ mode fs' = mode SampleMore.fs3
     ∧ current_dir st' = Sample.dst
     ∧ selected st' = {[ Sample.src_a ]}
     ∧ (∀ n, n :: Sample.dst ∈ items st'
             ↔ n = "new" ∨ is_Some (tree SampleMore.fs3 !! (n :: Sample.dst))).
Proof.
  apply (proj1 (do_create_dir_spec Sample.pf SampleMore.fs3 (SampleMore.browsing_dst3 0) "new"
                  ltac:(apply within_limits_check_ok; vm_compute; reflexivity)
                  ltac:(vm_compute; reflexivity) ltac:(vm_compute; reflexivity)
                  ltac:(vm_compute; reflexivity) ltac:(vm_compute; lia))).
  vm_compute. reflexivity.
Defined.

Lemma create_dir_then_delete_witness :
  ∃ st3,
    action_delete_link Sample.pf
      (do_create_dir Sample.pf SampleMore.fs3 (SampleMore.browsing_dst3 0) "new").1.1
      (SampleMore.pointing_at ("new" :: Sample.dst))
    = (SampleMore.fs3, st3, false).
Proof.
  apply (create_dir_then_delete Sample.pf SampleMore.fs3 (SampleMore.browsing_dst3 0) "new"
           _ (do_create_dir Sample.pf SampleMore.fs3 (SampleMore.browsing_dst3 0) "new").1.2).
  - apply wf_check_ok. vm_compute. reflexivity.
  - vm_compute. reflexivity.
  - vm_compute. reflexivity.
  - reflexivity.
Defined.

Lemma link_then_delete_witness :
  let fs1 := (create_hardlink Sample.env SampleMore.fs3 Sample.src_a SampleMore.mnt_data
                None "fail").1 in
  ∃ fs2 st', action_delete_link Sample.pf fs1
               (SampleMore.pointing_at ("a.txt" :: SampleMore.mnt_data)) = (fs2, st', false)
           ∧ tree fs2 = tree SampleMore.fs3
           ∧ lstat fs2 Sample.src_a = Ok (File 1).
Proof.
  apply (link_then_delete Sample.env SampleMore.fs3 Sample.src_a SampleMore.mnt_data
           None "fail" 1 (SampleMore.pointing_at ("a.txt" :: SampleMore.mnt_data))).
  - apply within_limits_check_ok. vm_compute. reflexivity.
  - vm_compute. reflexivity.
  - vm_compute. reflexivity.
  - vm_compute. reflexivity.
  - vm_compute. reflexivity.
  - vm_compute. lia.
  - vm_compute. reflexivity.
  - reflexivity.
Defined.

Lemma do_rename_spec_witness :
  ∃ fs' st', do_rename Sample.pf SampleMore.fs3 (SampleMore.browsing_dst3 0)
               ("old" :: Sample.dst) "older" = (fs', st', false)
     ∧ (∀ rel, tree fs' !! (rel ++ "older" :: Sample.dst)
               = tree SampleMore.fs3 !! (rel ++ "old" :: Sample.dst))
     ∧ (∀ rel, tree fs' !! (rel ++ "old" :: Sample.dst) = None)
     ∧ (∀ k, ¬ ("old" :: Sample.dst) `suffix_of` k → ¬ ("older" :: Sample.dst) `suffix_of` k →
             tree fs' !! k = tree SampleMore.fs3 !! k)
     ∧ lstat fs' ("older" :: Sample.dst) = Ok Dir
     ∧ current_dir st' = Sample.dst
     ∧ (∀ x, x :: Sample.dst ∈ items st'
             ↔ x = "older" ∨ (x ≠ "old" ∧ is_Some (tree SampleMore.fs3 !! (x :: Sample.dst)))).
Proof.
  apply (proj1 (do_rename_spec Sample.pf SampleMore.fs3 (SampleMore.browsing_dst3 0)
                  "old" Sample.dst "older"
                  ltac:(apply within_limits_check_ok; vm_compute; reflexivity)
                  ltac:(vm_compute; reflexivity) ltac:(vm_compute; reflexivity)
                  ltac:(vm_compute; reflexivity)
                  ltac:(vm_compute; lia) ltac:(reflexivity))).
  vm_compute. reflexivity.
Defined.

Lemma scan_hardlinks_sound_witness :
  let e := {| LinkIndex.entry_path := Path.of_parts ["dst"; "shell"; "t1.flac"];
              LinkIndex.nlink := 2; LinkIndex.inode := ObjFile 2;
              LinkIndex.is_hardlink := true; LinkIndex.is_dir := false |} in
  (∃ name root_path, LinkIndex.entry_path e = name :: root_path
                     ∧ Sample.dst `suffix_of` root_path) ∧
  st_nlink Sample.fs1 (LinkIndex.entry_path e) = Ok (LinkIndex.nlink e) ∧
  obj_of Sample.fs1 (LinkIndex.entry_path e) = Ok (LinkIndex.inode e) ∧
  LinkIndex.is_dir e = is_dir Sample.fs1 (LinkIndex.entry_path e) ∧
  LinkIndex.is_hardlink e = negb (LinkIndex.is_dir e) && (1 <? LinkIndex.nlink e).
Proof.
  intros e. apply (scan_hardlinks_sound Sample.pf Sample.fs1 Sample.dst e).
  apply (list_elem_of_lookup_2 _ 4). vm_compute. reflexivity.
Defined.

Lemma scan_hardlinks_complete_witness :
  ∃ e, e ∈ LinkIndex.scan_hardlinks Sample.pf Sample.fs1 Sample.dst ∧
       LinkIndex.entry_path e = "t1.flac" :: ["shell"] ++ Sample.dst ∧
       LinkIndex.nlink e = 2 ∧
       obj_of Sample.fs1 ("t1.flac" :: ["shell"] ++ Sample.dst) = Ok (LinkIndex.inode e) ∧
       LinkIndex.is_dir e = is_dir Sample.fs1 ("t1.flac" :: ["shell"] ++ Sample.dst) ∧
       LinkIndex.is_hardlink e
       = negb (is_dir Sample.fs1 ("t1.flac" :: ["shell"] ++ Sample.dst)) && (1 <? 2).
Proof.
  apply (scan_hardlinks_complete Sample.pf Sample.fs1 Sample.dst ["shell"] "t1.flac" 2).
  - vm_compute. reflexivity.
  - vm_compute. lia.
  - vm_compute. reflexivity.
Defined.

Lemma deployed_link_is_indexed_witness :
  let fs' := (create_hardlink Sample.env SampleMore.fs3 Sample.src_a SampleMore.mnt_data
                None "fail").1 in
  ∃ e, e ∈ LinkIndex.scan_hardlinks Sample.pf fs' SampleMore.mnt_data ∧
       LinkIndex.entry_path e = "a.txt" :: SampleMore.mnt_data ∧
       LinkIndex.inode e = ObjFile 1 ∧
       LinkIndex.nlink e = S (inode_links SampleMore.fs3 1) ∧
       LinkIndex.is_hardlink e = true ∧
       LinkIndex.is_dir e = false.
Proof.
  apply (deployed_link_is_indexed Sample.env SampleMore.fs3 Sample.src_a SampleMore.mnt_data
           None "fail" 1).
  - apply within_limits_check_ok. vm_compute. reflexivity.
  - vm_compute. reflexivity.
  - vm_compute. reflexivity.
  - vm_compute. reflexivity.
  - vm_compute. reflexivity.
  - vm_compute. lia.
  - vm_compute. reflexivity.
Defined.

(** The name typed with blanks around it reaches the callback without
    them. *)
Lemma try_submit_spec_witness :
  (try_submit (λ value, value :: Sample.dst) "  new " = None
   ↔ blank "  new " = true) ∧
  (∀ y, try_submit (λ value, value :: Sample.dst) "  new " = Some y →
        ∃ pre value post,
          "  new " = pre +:+ value +:+ post ∧
          blank pre = true ∧ blank post = true ∧
          value ≠ "" ∧ strip value = value ∧
          y = value :: Sample.dst).
Proof.
  apply (try_submit_spec (λ value, value :: Sample.dst) "  new ").
  vm_compute. reflexivity.
Defined.
